(** * A shallow embedding of the chess engine of [src/routes/+page.svelte]

    The engine is the JavaScript class [Chess]: a mutable object holding the
    8x8 grid [positions] and the auxiliary rule state, with the methods
    [findKing], [isInCheck], [isAttacked], [getLegal], [movePiece],
    [restart] and the two pointer handlers that guard [movePiece].

    Methods are embedded in a small state monad over the record [Chess],
    because [getLegal] really assigns to [this.positions] (it swaps in a
    scratch copy and swaps the original back).  The DOM side of the class
    ([boardEl], [size], [generateBoard], [clearBoard], the drag image and
    its pixel offsets) holds no rule state and is left out.

    Coordinates are integers ([Z]): the move generator steps off the board
    before [inB] rejects the square.  Piece letters are the strings of the
    source, with its tests [p === p.toUpperCase()] and [type.toLowerCase()].
    Every grid the class builds is 8x8 and every square it is called with
    lies on the board; [wfGrid] and [inB] say so where a statement needs
    it. *)

From Stdlib Require Import ZArith List String Ascii Bool Lia.
Import ListNotations.

Local Open Scope string_scope.
Local Open Scope list_scope.
Local Open Scope Z_scope.

Set Implicit Arguments.

(** Strict equality [x === y] of two strings. *)
Infix "===" := String.eqb (at level 70, no associativity).

(** ** JavaScript primitives used by the engine *)

Module Js.

(** [String.prototype.toUpperCase] / [toLowerCase] on the ASCII range,
    which covers every string the engine builds (piece letters and the
    empty string).  Other bytes are left alone. *)
Definition upperAscii (c : ascii) : ascii :=
  let n := N_of_ascii c in
  if (97 <=? n)%N && (n <=? 122)%N then ascii_of_N (n - 32) else c.

Definition lowerAscii (c : ascii) : ascii :=
  let n := N_of_ascii c in
  if (65 <=? n)%N && (n <=? 90)%N then ascii_of_N (n + 32) else c.

Fixpoint mapAscii (g : ascii -> ascii) (s : string) : string :=
  match s with
  | EmptyString => EmptyString
  | String c rest => String (g c) (mapAscii g rest)
  end.

Definition toUpperCase : string -> string := mapAscii upperAscii.
Definition toLowerCase : string -> string := mapAscii lowerAscii.

(** Truthiness of a string: only the empty string is falsy. *)
Definition truthy (s : string) : bool := negb (s === "").

(** [arr[i]] for a row of cells.  Every read the engine performs is
    guarded by [inB] or runs over the fixed ranges 0..7, so the value
    chosen for an index outside the array is never observed on an 8x8
    grid; it is the empty string here. *)
Definition index (row : list string) (i : Z) : string :=
  if i <? 0 then "" else nth (Z.to_nat i) row "".

Definition indexRow (rows : list (list string)) (i : Z) : list string :=
  if i <? 0 then [] else nth (Z.to_nat i) rows [].

(** [arr[i] = v] for an index inside the array.  The engine only writes
    to squares of the board; an index outside the array (where JavaScript
    would extend the array or throw) leaves the list as it is. *)
Fixpoint assignNat {A : Type} (n : nat) (v : A) (l : list A) : list A :=
  match l, n with
  | [], _ => []
  | _ :: t, O => v :: t
  | x :: t, S n' => x :: assignNat n' v t
  end.

Definition assign {A : Type} (i : Z) (v : A) (l : list A) : list A :=
  if i <? 0 then l else assignNat (Z.to_nat i) v l.

End Js.

(** ** Data model *)

(** A square [{ r, f }]: rank 0 is black's back rank, file 0 is the a-file. *)
Record Sq : Type := mkSq { rank : Z; file : Z }.

Definition sqEqb (x y : Sq) : bool :=
  (rank x =? rank y) && (file x =? file y).

(** The colour strings ["w"] and ["b"]; the code only ever produces them
    through the two-way conditionals [... ? "w" : "b"]. *)
Inductive Color : Type := white | black.

Definition colorEqb (c d : Color) : bool :=
  match c, d with
  | white, white | black, black => true
  | _, _ => false
  end.

(** [color === "w" ? "b" : "w"] *)
Definition opposite (c : Color) : Color :=
  match c with white => black | black => white end.

(** The objects [{ w: _, b: _ }] and [{ a: _, h: _ }]. *)
Record ByColor (A : Type) : Type := mkByColor { ofW : A; ofB : A }.
Record BySide : Type := mkBySide { sideA : bool; sideH : bool }.

Definition sel {A : Type} (c : Color) (x : ByColor A) : A :=
  match c with white => ofW x | black => ofB x end.

Definition upd {A : Type} (c : Color) (v : A) (x : ByColor A) : ByColor A :=
  match c with
  | white => mkByColor v (ofB x)
  | black => mkByColor (ofW x) v
  end.

Definition Grid : Type := list (list string).

(** The fields of a [Chess] instance that carry rule state.
    [currentDrag] keeps the two components the handlers read back:
    the origin square and the dragged image's [alt] (the piece letter). *)
Record Chess : Type := mkChess {
  positions : Grid;
  kingMoved : ByColor bool;
  rookMoved : ByColor BySide;
  currentDrag : option (Sq * string);
  enPassantTarget : option Sq;
  turn : Color;
  gameOver : bool;
  gameOverType : option string;
  gameOverColor : option Sq
}.

Definition initialPositions : Grid :=
  [ ["r"; "n"; "b"; "q"; "k"; "b"; "n"; "r"];
    ["p"; "p"; "p"; "p"; "p"; "p"; "p"; "p"];
    [""; ""; ""; ""; ""; ""; ""; ""];
    [""; ""; ""; ""; ""; ""; ""; ""];
    [""; ""; ""; ""; ""; ""; ""; ""];
    [""; ""; ""; ""; ""; ""; ""; ""];
    ["P"; "P"; "P"; "P"; "P"; "P"; "P"; "P"];
    ["R"; "N"; "B"; "Q"; "K"; "B"; "N"; "R"] ].

Definition noneMoved : ByColor bool := mkByColor false false.
Definition noRookMoved : ByColor BySide :=
  mkByColor (mkBySide false false) (mkBySide false false).

(** [new Chess(boardEl)] *)
Definition constructor : Chess :=
  {| positions := map (fun r => r) initialPositions; (* .map((r) => [...r]) *)
     kingMoved := noneMoved;
     rookMoved := noRookMoved;
     currentDrag := None;
     enPassantTarget := None;
     turn := white;
     gameOver := false;
     gameOverType := None;
     gameOverColor := None |}.

(** Field assignments [this.x = v]. *)
Definition set_positions (v : Grid) (s : Chess) : Chess :=
  mkChess v (kingMoved s) (rookMoved s) (currentDrag s) (enPassantTarget s)
          (turn s) (gameOver s) (gameOverType s) (gameOverColor s).
Definition set_kingMoved (v : ByColor bool) (s : Chess) : Chess :=
  mkChess (positions s) v (rookMoved s) (currentDrag s) (enPassantTarget s)
          (turn s) (gameOver s) (gameOverType s) (gameOverColor s).
Definition set_rookMoved (v : ByColor BySide) (s : Chess) : Chess :=
  mkChess (positions s) (kingMoved s) v (currentDrag s) (enPassantTarget s)
          (turn s) (gameOver s) (gameOverType s) (gameOverColor s).
Definition set_currentDrag (v : option (Sq * string)) (s : Chess) : Chess :=
  mkChess (positions s) (kingMoved s) (rookMoved s) v (enPassantTarget s)
          (turn s) (gameOver s) (gameOverType s) (gameOverColor s).
Definition set_enPassantTarget (v : option Sq) (s : Chess) : Chess :=
  mkChess (positions s) (kingMoved s) (rookMoved s) (currentDrag s) v
          (turn s) (gameOver s) (gameOverType s) (gameOverColor s).
Definition set_turn (v : Color) (s : Chess) : Chess :=
  mkChess (positions s) (kingMoved s) (rookMoved s) (currentDrag s)
          (enPassantTarget s) v (gameOver s) (gameOverType s) (gameOverColor s).
Definition set_gameOver (v : bool) (s : Chess) : Chess :=
  mkChess (positions s) (kingMoved s) (rookMoved s) (currentDrag s)
          (enPassantTarget s) (turn s) v (gameOverType s) (gameOverColor s).
Definition set_gameOverType (v : option string) (s : Chess) : Chess :=
  mkChess (positions s) (kingMoved s) (rookMoved s) (currentDrag s)
          (enPassantTarget s) (turn s) (gameOver s) v (gameOverColor s).
Definition set_gameOverColor (v : option Sq) (s : Chess) : Chess :=
  mkChess (positions s) (kingMoved s) (rookMoved s) (currentDrag s)
          (enPassantTarget s) (turn s) (gameOver s) (gameOverType s) v.

(** ** Grid access *)

(** [b[nr][nf]] *)
Definition cell (g : Grid) (nr nf : Z) : string :=
  Js.index (Js.indexRow g nr) nf.

(** [b[nr][nf] = v] *)
Definition setCell (nr nf : Z) (v : string) (g : Grid) : Grid :=
  Js.assign nr (Js.assign nf v (Js.indexRow g nr)) g.

(** [p === p.toUpperCase()], the test the code uses for "is white".
    It also holds of the empty string. *)
Definition isUpper (p : string) : bool := p === Js.toUpperCase p.

(** [p === p.toUpperCase() ? "w" : "b"] *)
Definition colorOf (p : string) : Color :=
  if isUpper p then white else black.

(** [this.positions.map((row) => [...row])] *)
Definition copyGrid (g : Grid) : Grid := map (fun row => row) g.

(** The squares of the board in the order of the nested loops
    [for r in 0..7, for f in 0..7]. *)
Definition range8 : list Z := [0; 1; 2; 3; 4; 5; 6; 7].
Definition allSquares : list Sq :=
  flat_map (fun r => map (fun f => mkSq r f) range8) range8.

(** ** The state monad of method bodies *)

Definition M (A : Type) : Type := Chess -> A * Chess.

Definition ret {A : Type} (x : A) : M A := fun s => (x, s).

Definition bind {A B : Type} (m : M A) (k : A -> M B) : M B :=
  fun s => let (x, s') := m s in k x s'.

Definition gets {A : Type} (p : Chess -> A) : M A := fun s => (p s, s).

Definition modify (u : Chess -> Chess) : M unit := fun s => (tt, u s).

Definition evalM {A : Type} (m : M A) (s : Chess) : A := fst (m s).
Definition execM {A : Type} (m : M A) (s : Chess) : Chess := snd (m s).

Declare Scope chess_scope.
Delimit Scope chess_scope with chess.
Notation "x <- m ;; k" := (bind m (fun x => k))
  (at level 61, m at next level, right associativity) : chess_scope.
Notation "m ;;; k" := (bind m (fun _ => k))
  (at level 61, right associativity) : chess_scope.
Local Open Scope chess_scope.

(** [if (c) { body }] *)
Definition whenM (c : bool) (body : M unit) : M unit :=
  if c then body else ret tt.

(** Short-circuit [x && y] whose right operand is a method call. *)
Definition andM (x : bool) (y : M bool) : M bool :=
  if x then y else ret false.

(** [arr.some(cb)]: stops at the first element for which [cb] is true;
    also the shape of the scanning loops that [return true] from inside. *)
Fixpoint someM {A : Type} (cb : A -> M bool) (l : list A) : M bool :=
  match l with
  | [] => ret false
  | x :: rest => hit <- cb x ;; if hit then ret true else someM cb rest
  end.

(** [arr.filter(cb)] *)
Fixpoint filterM {A : Type} (cb : A -> M bool) (l : list A) : M (list A) :=
  match l with
  | [] => ret []
  | x :: rest =>
      keep <- cb x ;;
      kept <- filterM cb rest ;;
      ret (if keep then x :: kept else kept)
  end.

(** ** Move generation: the body of [getLegal] *)

(** The three local helpers of [getLegal]. *)
Definition inB (nr nf : Z) : bool :=
  (0 <=? nr) && (nr <? 8) && (0 <=? nf) && (nf <? 8).

Definition isEmp (b : Grid) (nr nf : Z) : bool := cell b nr nf === "".

Definition isEnemy (b : Grid) (type : string) (nr nf : Z) : bool :=
  negb (cell b nr nf === "") &&
  negb (Bool.eqb (isUpper (cell b nr nf)) (isUpper type)).

(** [this.enPassantTarget && this.enPassantTarget.r === nr && ....f === nf] *)
Definition isTarget (ep : option Sq) (nr nf : Z) : bool :=
  match ep with
  | Some e => (rank e =? nr) && (file e =? nf)
  | None => false
  end.

(** Pawn section: one step, two steps from the starting row, and the two
    diagonals (enemy piece or en-passant target). *)
Definition pawnMoves (b : Grid) (ep : option Sq) (r f : Z) (type : string)
  : list Sq :=
  let dir := if type === "P" then -1 else 1 in
  let sr := if type === "P" then 6 else 1 in
  let one := r + dir in
  let two := r + dir * 2 in
  (if inB one f && isEmp b one f then [mkSq one f] else []) ++
  (if (r =? sr) && inB two f && isEmp b one f && isEmp b two f
   then [mkSq two f] else []) ++
  flat_map
    (fun df =>
       let nr := r + dir in
       let nf := f + df in
       if inB nr nf && (isEnemy b type nr nf || isTarget ep nr nf)
       then [mkSq nr nf] else [])
    [-1; 1].

Definition knightOffsets : list (Z * Z) :=
  [(2, 1); (2, -1); (-2, 1); (-2, -1); (1, 2); (1, -2); (-1, 2); (-1, -2)].

Definition knightMoves (b : Grid) (r f : Z) (type : string) : list Sq :=
  flat_map
    (fun d =>
       let nr := r + fst d in
       let nf := f + snd d in
       if inB nr nf && (isEmp b nr nf || isEnemy b type nr nf)
       then [mkSq nr nf] else [])
    knightOffsets.

(** The nested loops [for dr in -1..1, for df in -1..1], skipping (0,0). *)
Definition kingSteps (b : Grid) (r f : Z) (type : string) : list Sq :=
  flat_map
    (fun dr =>
       flat_map
         (fun df =>
            if negb (dr =? 0) || negb (df =? 0) then
              let nr := r + dr in
              let nf := f + df in
              if inB nr nf && (isEmp b nr nf || isEnemy b type nr nf)
              then [mkSq nr nf] else []
            else [])
         [-1; 0; 1])
    [-1; 0; 1].

(** The [while (inB(nr, nf))] loop along one direction.  A ray holds at
    most eight squares of the board, which bounds the iterations. *)
Fixpoint ray (fuel : nat) (b : Grid) (type : string) (nr nf dr df : Z)
  : list Sq :=
  match fuel with
  | O => []
  | S k =>
      if inB nr nf then
        if isEmp b nr nf then mkSq nr nf :: ray k b type (nr + dr) (nf + df) dr df
        else if isEnemy b type nr nf then [mkSq nr nf] else []
      else []
  end.

Definition slideDirs (lower : string) : list (Z * Z) :=
  (if (lower === "b") || (lower === "q")
   then [(1, 1); (1, -1); (-1, 1); (-1, -1)] else []) ++
  (if (lower === "r") || (lower === "q")
   then [(1, 0); (-1, 0); (0, 1); (0, -1)] else []).

Definition slideMoves (b : Grid) (r f : Z) (type lower : string) : list Sq :=
  flat_map
    (fun d => ray 8 b type (r + fst d) (f + snd d) (fst d) (snd d))
    (slideDirs lower).

Section Methods.

(** [rec] stands for [this.getLegal] at the nested call sites (inside
    [isInCheck] and [isAttacked]).  Those calls always pass
    [ignoreCheck = true], under which [getLegal] calls nothing back, so
    the recursion of the source is two levels deep; see [getLegalDepth]
    and [getLegalDepth_enough] below. *)
Variable rec : Sq -> string -> bool -> M (list Sq).

(** [findKing(color)] *)
Definition findKing (color : Color) : M Sq :=
  g <- gets positions ;;
  let isKing sq :=
    let p := cell g (rank sq) (file sq) in
    Js.truthy p && (match color with white => p === "K" | black => p === "k" end) in
  ret (match find isKing allSquares with
       | Some sq => sq
       | None => mkSq 0 0  (* Default return (shouldn't happen) *)
       end).

(** One iteration of the scanning loop shared by [isInCheck] and
    [isAttacked]: does the piece on [sq], if it belongs to [attacker],
    list [(tr, tf)] among its attack-pattern moves? *)
Definition hits (attacker : Color) (tr tf : Z) (sq : Sq) : M bool :=
  p <- gets (fun s => cell (positions s) (rank sq) (file sq)) ;;
  if negb (Js.truthy p) then ret false
  else if negb (colorEqb (colorOf p) attacker) then ret false
  else
    moves <- rec sq p true ;;
    ret (existsb (fun m => (rank m =? tr) && (file m =? tf)) moves).

(** [isInCheck(color)] *)
Definition isInCheckWith (color : Color) : M bool :=
  k <- findKing color ;;
  let enemy := opposite color in
  someM (hits enemy (rank k) (file k)) allSquares.

(** [isAttacked(r, f, attackerColor)] *)
Definition isAttackedWith (r f : Z) (attackerColor : Color) : M bool :=
  someM (hits attackerColor r f) allSquares.

(** The castling block of the king section. *)
Definition castlingMoves (b : Grid) (r f : Z) (type : string) : M (list Sq) :=
  let color := if type === "K" then white else black in
  let enemy := opposite color in
  km <- gets kingMoved ;;
  free <- andM (negb (sel color km))
               (chk <- isInCheckWith color ;; ret (negb chk)) ;;
  if free then
    rmH <- gets rookMoved ;;
    short <- andM (negb (sideH (sel color rmH)) && inB r (f + 2) &&
                   isEmp b r (f + 1) && isEmp b r (f + 2))
               (a1 <- isAttackedWith r (f + 1) enemy ;;
                andM (negb a1)
                     (a2 <- isAttackedWith r (f + 2) enemy ;; ret (negb a2))) ;;
    rmA <- gets rookMoved ;;
    long <- andM (negb (sideA (sel color rmA)) && inB r (f - 3) &&
                  isEmp b r (f - 1) && isEmp b r (f - 2) && isEmp b r (f - 3))
               (a1 <- isAttackedWith r (f - 1) enemy ;;
                andM (negb a1)
                     (a2 <- isAttackedWith r (f - 2) enemy ;; ret (negb a2))) ;;
    ret ((if short then [mkSq r (f + 2)] else []) ++
         (if long then [mkSq r (f - 2)] else []))
  else ret [].

(** The grid the filter tests: a copy with the piece of [(r, f)] written
    on [to] and [(r, f)] cleared. *)
Definition relocated (g : Grid) (r f : Z) (to : Sq) : Grid :=
  let copy := copyGrid g in
  let copy := setCell (rank to) (file to) (cell copy r f) copy in
  setCell r f "" copy.

(** The callback of [moves.filter]: swap the copy into [this.positions],
    ask [isInCheck], swap the original back. *)
Definition keepsKingSafe (r f : Z) (type : string) (to : Sq) : M bool :=
  cur <- gets positions ;;
  let copy := relocated cur r f to in
  tmp <- gets positions ;;
  modify (set_positions copy) ;;;
  inChk <- isInCheckWith (colorOf type) ;;
  modify (set_positions tmp) ;;;
  ret (negb inChk).

(** The first part of [getLegal]: the moves pushed by the section of
    the piece's kind, before the filter. *)
Definition candidates (from : Sq) (type : string) (ignoreCheck : bool)
  : M (list Sq) :=
  let r := rank from in
  let f := file from in
  b <- gets positions ;;
  let lower := Js.toLowerCase type in
  if lower === "p" then
    ep <- gets enPassantTarget ;;
    ret (pawnMoves b ep r f type)
  else if lower === "n" then ret (knightMoves b r f type)
  else if lower === "k" then
    castle <- (if negb ignoreCheck then castlingMoves b r f type
               else ret []) ;;
    ret (kingSteps b r f type ++ castle)
  else ret (slideMoves b r f type lower).

(** [getLegal(from, type, ignoreCheck)] *)
Definition getLegalBody (from : Sq) (type : string) (ignoreCheck : bool)
  : M (list Sq) :=
  moves <- candidates from type ignoreCheck ;;
  if negb ignoreCheck
  then filterM (keepsKingSafe (rank from) (file from) type) moves
  else ret moves.

End Methods.

(** The call depth of [getLegal]: depth 0 calls nothing. *)
Fixpoint getLegalDepth (n : nat) : Sq -> string -> bool -> M (list Sq) :=
  match n with
  | O => fun _ _ _ => ret []
  | S k => getLegalBody (getLegalDepth k)
  end.

Definition getLegal (from : Sq) (type : string) (ignoreCheck : bool)
  : M (list Sq) :=
  getLegalDepth 2 from type ignoreCheck.

Definition isInCheck (color : Color) : M bool := isInCheckWith getLegal color.

Definition isAttacked (r f : Z) (attackerColor : Color) : M bool :=
  isAttackedWith getLegal r f attackerColor.

(** ** Applying a move: [movePiece] *)

(** [this.positions[nr][nf] = v] *)
Definition write (nr nf : Z) (v : string) : M unit :=
  modify (fun s => set_positions (setCell nr nf v (positions s)) s).

(** [this.rookMoved[color].h = true] and [....a = true] *)
Definition markRookH (color : Color) : M unit :=
  modify (fun s =>
    set_rookMoved
      (upd color (mkBySide (sideA (sel color (rookMoved s))) true) (rookMoved s)) s).

Definition markRookA (color : Color) : M unit :=
  modify (fun s =>
    set_rookMoved
      (upd color (mkBySide true (sideH (sel color (rookMoved s)))) (rookMoved s)) s).

Definition markKing (color : Color) : M unit :=
  modify (fun s => set_kingMoved (upd color true (kingMoved s)) s).

(** [arr.map((x, i) => ...)] needs the elements with their indices. *)
Fixpoint enumFrom {A : Type} (i : Z) (l : list A) : list (Z * A) :=
  match l with
  | [] => []
  | x :: rest => (i, x) :: enumFrom (i + 1) rest
  end.

(** [this.positions.flatMap((row, r0) => row.map((p, f0) => ({ p, r0, f0 })))] *)
Definition entries (g : Grid) : list (string * Sq) :=
  flat_map
    (fun rr => map (fun fp => (snd fp, mkSq (fst rr) (fst fp))) (enumFrom 0 (snd rr)))
    (enumFrom 0 g).

(** The [anyMoves] expression: some piece of the side to move has a
    non-empty [getLegal] list. *)
Definition anyMoves : M bool :=
  g <- gets positions ;;
  tn <- gets turn ;;
  let mine :=
    filter (fun x => Js.truthy (fst x) && colorEqb (colorOf (fst x)) tn)
           (entries g) in
  someM (fun x =>
           legal <- getLegal (snd x) (fst x) false ;;
           ret (0 <? Z.of_nat (List.length legal)))
        mine.

(** Lines 647-679: the game-over test for the side now to move. *)
Definition recomputeStatus : M unit :=
  tn <- gets turn ;;
  inChk <- isInCheck tn ;;
  any <- anyMoves ;;
  if inChk && negb any then
    modify (set_gameOver true) ;;;
    modify (set_gameOverType (Some "checkmate")) ;;;
    tn' <- gets turn ;;
    k <- findKing tn' ;;
    modify (set_gameOverColor (Some k))
  else if negb inChk && negb any then
    modify (set_gameOver true) ;;;
    modify (set_gameOverType (Some "stalemate")) ;;;
    tn' <- gets turn ;;
    k <- findKing tn' ;;
    modify (set_gameOverColor (Some k))
  else ret tt.

(** Lines 563-586: en-passant capture, then the target is cleared and
    possibly set again.  [(from.r + to.r) / 2] is only evaluated when the
    two ranks differ by 2, where the division is exact. *)
Definition enPassantStep (from to : Sq) (t : string) : M unit :=
  ep <- gets enPassantTarget ;;
  whenM ((Js.toLowerCase t === "p") && isTarget ep (rank to) (file to))
        (write (rank from) (file to) "") ;;;
  modify (set_enPassantTarget None) ;;;
  whenM ((Js.toLowerCase t === "p") && (Z.abs (rank to - rank from) =? 2))
        (modify (set_enPassantTarget
                   (Some (mkSq ((rank from + rank to) / 2) (file from))))).

(** Lines 588-590: move the piece to the new square. *)
Definition relocate (from to : Sq) (t : string) : M unit :=
  write (rank to) (file to) t ;;;
  write (rank from) (file from) "".

(** Lines 592-611: the rook's part of castling. *)
Definition castleRook (from to : Sq) (t : string) (color : Color) : M unit :=
  whenM ((Js.toLowerCase t === "k") && (Z.abs (file to - file from) =? 2))
        (let homeRow := match color with white => 7 | black => 0 end in
         let rookChar := match color with white => "R" | black => "r" end in
         if file to >? file from then
           write homeRow 5 rookChar ;;;
           write homeRow 7 "" ;;;
           markRookH color
         else
           write homeRow 3 rookChar ;;;
           write homeRow 0 "" ;;;
           markRookA color).

(** Lines 613-634: moved-flags of kings and corner rooks. *)
Definition updateMovedFlags (from : Sq) (t : string) : M unit :=
  if t === "K" then markKing white
  else if t === "k" then markKing black
  else if t === "R" then
    whenM ((rank from =? 7) && (file from =? 0)) (markRookA white) ;;;
    whenM ((rank from =? 7) && (file from =? 7)) (markRookH white)
  else if t === "r" then
    whenM ((rank from =? 0) && (file from =? 0)) (markRookA black) ;;;
    whenM ((rank from =? 0) && (file from =? 7)) (markRookH black)
  else ret tt.

(** Lines 636-642: promotion. *)
Definition promote (to : Sq) (t : string) : M unit :=
  whenM ((t === "P") && (rank to =? 0)) (write (rank to) (file to) "Q") ;;;
  whenM ((t === "p") && (rank to =? 7)) (write (rank to) (file to) "q").

(** Line 645: [this.turn = this.turn === "w" ? "b" : "w"] *)
Definition switchTurns : M unit :=
  modify (fun s => set_turn (opposite (turn s)) s).

(** Lines 559-645: the mechanics of the move, up to and including the
    change of turn. *)
Definition applyMechanics (from to : Sq) : M unit :=
  t <- gets (fun s => cell (positions s) (rank from) (file from)) ;;
  let color := colorOf t in
  enPassantStep from to t ;;;
  relocate from to t ;;;
  castleRook from to t color ;;;
  updateMovedFlags from t ;;;
  promote to t ;;;
  switchTurns.

(** [movePiece(from, to)]; the closing [generateBoard()] only redraws. *)
Definition movePiece (from to : Sq) : M unit :=
  applyMechanics from to ;;;
  recomputeStatus.

(** [restart()]; [currentDrag] is not among the fields it assigns. *)
Definition restart : M unit :=
  modify (set_positions (map (fun r => r) initialPositions)) ;;;
  modify (set_enPassantTarget None) ;;;
  modify (set_turn white) ;;;
  modify (set_gameOver false) ;;;
  modify (set_gameOverType None) ;;;
  modify (set_gameOverColor None) ;;;
  modify (set_kingMoved noneMoved) ;;;
  modify (set_rookMoved noRookMoved).

(** ** The pointer handlers that guard [movePiece] *)

(** [_onMouseDown(e, { r, f, type })].  The list [legal] is what the
    handler goes on to draw as dots; the result is that list, empty when a
    guard returns early. *)
Definition _onMouseDown (r f : Z) (type : string) : M (list Sq) :=
  over <- gets gameOver ;;
  if over then ret []
  else
    tn <- gets turn ;;
    if negb (colorEqb (colorOf type) tn) then ret []
    else
      legal <- getLegal (mkSq r f) type false ;;
      match legal with
      | [] => ret []
      | _ :: _ =>
          modify (set_currentDrag (Some (mkSq r f, type))) ;;;
          ret legal
      end.

(** [_onMouseUp(e)], with [to] the square computed from the pointer. *)
Definition _onMouseUp (to : Sq) : M unit :=
  drag <- gets currentDrag ;;
  match drag with
  | None => ret tt
  | Some (from, alt) =>
      moves <- getLegal from alt false ;;
      whenM (existsb (fun m => (rank m =? rank to) && (file m =? file to)) moves)
            (movePiece from to) ;;;
      modify (set_currentDrag None)
  end.

(** [generateBoard] attaches one image, hence one [mousedown] listener, to
    every non-empty square, closing over the square and its letter; it runs
    after every change of [positions].  Pressing on [sq] therefore calls
    the handler with the letter now on [sq], and does nothing on an empty
    square. *)
Definition press (sq : Sq) : M (list Sq) :=
  p <- gets (fun s => cell (positions s) (rank sq) (file sq)) ;;
  if Js.truthy p then _onMouseDown (rank sq) (file sq) p else ret [].

(** A complete drag: press on [from], release over [to]. *)
Definition dragDrop (from to : Sq) : M unit :=
  press from ;;; _onMouseUp to.

(** What the user can do: press on a square, release over a square, click
    the restart button. *)
Inductive Event : Type :=
| Press (sq : Sq)
| Release (to : Sq)
| Restart.

(** The handler each event runs. *)
Definition handle (e : Event) : M unit :=
  match e with
  | Press sq => press sq ;;; ret tt
  | Release to => _onMouseUp to
  | Restart => restart
  end.

Fixpoint handleAll (es : list Event) (s : Chess) : Chess :=
  match es with
  | [] => s
  | e :: rest => handleAll rest (execM (handle e) s)
  end.

Definition isRestart (e : Event) : bool :=
  match e with Restart => true | _ => false end.

(** The drags of a list of moves. *)
Definition drags (ms : list (Sq * Sq)) : list Event :=
  flat_map (fun m => [Press (fst m); Release (snd m)]) ms.

(** ** Playing games *)

(** The precondition of [movePiece]: [to] is one of the legal moves of the
    piece on [from], which belongs to the side to move. *)
Definition legalFor (s : Chess) (from to : Sq) : bool :=
  let t := cell (positions s) (rank from) (file from) in
  Js.truthy t && colorEqb (colorOf t) (turn s) &&
  existsb (sqEqb to) (evalM (getLegal from t false) s).

(** Board states reachable from the initial position by legal moves of the
    side to move. *)
Inductive reachable : Chess -> Prop :=
| reach_init : reachable constructor
| reach_move : forall s from to,
    reachable s ->
    legalFor s from to = true ->
    reachable (execM (movePiece from to) s).

(** Plays a list of moves, checking each against [legalFor]. *)
Fixpoint play (ms : list (Sq * Sq)) (s : Chess) : option Chess :=
  match ms with
  | [] => Some s
  | (from, to) :: rest =>
      if legalFor s from to
      then play rest (execM (movePiece from to) s)
      else None
  end.

(** Applies moves without checking anything, as [movePiece] itself does. *)
Fixpoint applyAll (ms : list (Sq * Sq)) (s : Chess) : Chess :=
  match ms with
  | [] => s
  | (from, to) :: rest => applyAll rest (execM (movePiece from to) s)
  end.

Definition mv (r0 f0 r1 f1 : Z) : Sq * Sq := (mkSq r0 f0, mkSq r1 f1).

(** How many squares of the grid hold the letter [p]. *)
Definition countPiece (p : string) (g : Grid) : nat :=
  List.length (filter (fun x => fst x === p) (entries g)).

(** An 8x8 grid. *)
Definition wfGrid (g : Grid) : Prop :=
  List.length g = 8%nat /\ Forall (fun row => List.length row = 8%nat) g.

(** All pairs (origin, destination) that [getLegal] returns for the pieces
    of one colour. *)
Definition allLegal (c : Color) (s : Chess) : list (Sq * Sq) :=
  flat_map
    (fun x => map (pair (snd x)) (evalM (getLegal (snd x) (fst x) false) s))
    (filter (fun x => Js.truthy (fst x) && colorEqb (colorOf (fst x)) c)
            (entries (positions s))).

(** All pairs (origin, destination) that pressing on the squares of the
    board makes [_onMouseDown] generate. *)
Definition shown (s : Chess) : list (Sq * Sq) :=
  flat_map (fun sq => map (pair sq) (evalM (press sq) s)) allSquares.

(** The letter on the origin square of a move. *)
Definition movedLetter (s : Chess) (m : Sq * Sq) : string :=
  cell (positions s) (rank (fst m)) (file (fst m)).

(** ** Vocabulary of the properties *)

(** [Q s s'] relates the state before a method call to the state after
    it; [m] preserves [Q] when every call of [m] is so related. *)
Definition preserves (Q : Chess -> Chess -> Prop) {A : Type} (m : M A) : Prop :=
  forall s, Q s (snd (m s)).

(** Two methods that do the same on every state. *)
Definition eqM {A : Type} (m m' : M A) : Prop := forall s, m s = m' s.

(** A method is pure when it hands back the state it was given. *)
Definition pureM {A : Type} (m : M A) : Prop := preserves (fun s s' => s' = s) m.

(** [m] leaves the field [p] as it was. *)
Definition keeps {A B : Type} (p : Chess -> A) (m : M B) : Prop :=
  preserves (fun s s' => p s' = p s) m.

(** Two objects that agree on every field the rules read. *)
Definition sameRules (s1 s2 : Chess) : Prop :=
  positions s1 = positions s2 /\
  kingMoved s1 = kingMoved s2 /\
  rookMoved s1 = rookMoved s2 /\
  enPassantTarget s1 = enPassantTarget s2 /\
  turn s1 = turn s2.

(** [m] cannot tell such objects apart, and keeps them in agreement. *)
Definition respects {A : Type} (m : M A) : Prop :=
  forall s1 s2, sameRules s1 s2 ->
    fst (m s1) = fst (m s2) /\ sameRules (snd (m s1)) (snd (m s2)).

(** [m] keeps an 8x8 grid 8x8. *)
Definition gridKept (s s' : Chess) : Prop :=
  wfGrid (positions s) -> wfGrid (positions s').

(** Between two events, a finished game has no drag in progress. *)
Definition settled (s : Chess) : Prop :=
  gameOver s = true -> currentDrag s = None.

(** Would the mover's king be in check on the scratch grid of the filter? *)
Definition leavesKingInCheck (s : Chess) (from : Sq) (type : string) (to : Sq)
  : bool :=
  evalM (isInCheck (colorOf type))
        (set_positions (relocated (positions s) (rank from) (file from) to) s).

(** The three groups of conditions of the castling block. *)
Definition castleReady (s : Chess) (color : Color) : bool :=
  negb (sel color (kingMoved s)) && negb (evalM (isInCheck color) s).

Definition shortOpen (s : Chess) (r f : Z) (color : Color) : bool :=
  negb (sideH (sel color (rookMoved s))) && inB r (f + 2) &&
  isEmp (positions s) r (f + 1) && isEmp (positions s) r (f + 2) &&
  (negb (evalM (isAttacked r (f + 1) (opposite color)) s) &&
   negb (evalM (isAttacked r (f + 2) (opposite color)) s)).

Definition longOpen (s : Chess) (r f : Z) (color : Color) : bool :=
  negb (sideA (sel color (rookMoved s))) && inB r (f - 3) &&
  isEmp (positions s) r (f - 1) && isEmp (positions s) r (f - 2) &&
  isEmp (positions s) r (f - 3) &&
  (negb (evalM (isAttacked r (f - 1) (opposite color)) s) &&
   negb (evalM (isAttacked r (f - 2) (opposite color)) s)).

(** The outcome of the game-over test, written out. *)
Definition declare (kind : string) (s : Chess) : Chess :=
  set_gameOverColor (Some (evalM (findKing (turn s)) s))
    (set_gameOverType (Some kind) (set_gameOver true s)).

(** The game-over triple [(gameOver, gameOverType, gameOverColor)]. *)
Definition status (s : Chess) : bool * option string * option Sq :=
  (gameOver s, gameOverType s, gameOverColor s).

(** ** Positions used as instances *)

(** The state a list of moves leads to, each move checked by [legalFor]
    (the fresh state if one is refused). *)
Definition reached (ms : list (Sq * Sq)) : Chess :=
  match play ms constructor with
  | Some s => s
  | None => constructor
  end.

(** 1. e4 e5 2. Qh5: the pawn on f7 shields the black king from the queen. *)
Definition pinnedGame : list (Sq * Sq) :=
  [mv 6 4 4 4; mv 1 4 3 4; mv 7 3 3 7].
Definition pinnedPawn : Chess := Eval vm_compute in reached pinnedGame.

(** 1. f3 e5 2. g4, after which 2... Qh4 mates. *)
Definition foolsGame : list (Sq * Sq) :=
  [mv 6 5 5 5; mv 1 4 3 4; mv 6 6 4 6].
Definition beforeMate : Chess := Eval vm_compute in reached foolsGame.
Definition foolsMate : Chess :=
  Eval vm_compute in reached (foolsGame ++ [mv 0 3 4 7]).

(** 1. e3 a5 2. Qh5 Ra6 3. Qxa5 h5 4. h4 Rah6 5. Qxc7 f6 6. Qxd7+ Kf7
    7. Qxb7 Qd3 8. Qxb8 Qh7 9. Qxc8 Kg6, after which 10. Qe6 leaves black
    without a move. *)
Definition loydGame : list (Sq * Sq) :=
  [mv 6 4 5 4; mv 1 0 3 0; mv 7 3 3 7; mv 0 0 2 0; mv 3 7 3 0; mv 1 7 3 7;
   mv 6 7 4 7; mv 2 0 2 7; mv 3 0 1 2; mv 1 5 2 5; mv 1 2 1 3; mv 0 4 1 5;
   mv 1 3 1 1; mv 0 3 5 3; mv 1 1 0 1; mv 5 3 1 7; mv 0 1 0 2; mv 1 5 2 6].
Definition beforeStalemate : Chess := Eval vm_compute in reached loydGame.

(** 1. a3 d5 2. a4 d4: the black pawn on d4 waits next to e4. *)
Definition beforeDouble : Chess :=
  Eval vm_compute in reached [mv 6 0 5 0; mv 1 3 3 3; mv 5 0 4 0; mv 3 3 4 3].

(** The corner h1 is empty and f1 holds a black knight, yet the white
    king's two-file move puts a white rook on f1. *)
Definition cornerless : Chess :=
  set_positions
    [ [""; ""; ""; ""; "k"; ""; ""; ""];
      [""; ""; ""; ""; ""; ""; ""; ""];
      [""; ""; ""; ""; ""; ""; ""; ""];
      [""; ""; ""; ""; ""; ""; ""; ""];
      [""; ""; ""; ""; ""; ""; ""; ""];
      [""; ""; ""; ""; ""; ""; ""; ""];
      [""; ""; ""; ""; ""; ""; ""; ""];
      [""; ""; ""; ""; "K"; "n"; ""; ""] ] constructor.

(** 1. Nf3 d5 2. g3 d4 3. Bg2 d3 4. a3 dxe2: a black pawn stands on e2,
    next to the white king, and f1 and g1 are empty. *)
Definition pawnE2Game : list (Sq * Sq) :=
  [mv 7 6 5 5; mv 1 3 3 3; mv 6 6 5 6; mv 3 3 4 3;
   mv 7 5 6 6; mv 4 3 5 3; mv 6 0 5 0; mv 5 3 6 4].
Definition pawnOnE2 : Chess := Eval vm_compute in reached pawnE2Game.

(** 1. h4 g5 2. Nf3 gxh4 3. g3 h3 4. Bg2 h2: here the black pawn on h2
    bears on g1.  [isAttacked] again answers false for the empty g1, and
    it is the filter that removes the castling move. *)
Definition pawnH2Game : list (Sq * Sq) :=
  [mv 6 7 4 7; mv 1 6 3 6; mv 7 6 5 5; mv 3 6 4 7;
   mv 6 6 5 6; mv 4 7 5 7; mv 7 5 6 6; mv 5 7 6 7].
Definition pawnOnH2 : Chess := Eval vm_compute in reached pawnH2Game.

(** 1. c3 f5 2. Qa4 f4 3. Na3 e6 4. Nb1 Ke7 5. Na3 Kf6 6. Nb1 Kg5
    7. Na3 Kh4 8. g4 fxg3 (en passant): the capture takes both pawns off
    the fourth rank and opens it between the white queen on a4 and the
    black king on h4.  The filter tested the capture on a grid where the
    white pawn still stood on g4. *)
Definition exposedGame : list (Sq * Sq) :=
  [mv 6 2 5 2; mv 1 5 3 5; mv 7 3 4 0; mv 3 5 4 5;
   mv 7 1 5 0; mv 1 4 2 4; mv 5 0 7 1; mv 0 4 1 4;
   mv 7 1 5 0; mv 1 4 2 5; mv 5 0 7 1; mv 2 5 3 6;
   mv 7 1 5 0; mv 3 6 4 7; mv 6 6 4 6; mv 4 5 5 6].
Definition exposed : Chess := Eval vm_compute in reached exposedGame.

(** 9. Qxh4 *)
Definition kingless : Chess :=
  Eval vm_compute in reached (exposedGame ++ [mv 4 0 4 7]).

(** Two kings on their home squares and nothing else, no flag set. *)
Definition bareKings : Chess :=
  set_positions
    [ [""; ""; ""; ""; "k"; ""; ""; ""];
      [""; ""; ""; ""; ""; ""; ""; ""];
      [""; ""; ""; ""; ""; ""; ""; ""];
      [""; ""; ""; ""; ""; ""; ""; ""];
      [""; ""; ""; ""; ""; ""; ""; ""];
      [""; ""; ""; ""; ""; ""; ""; ""];
      [""; ""; ""; ""; ""; ""; ""; ""];
      [""; ""; ""; ""; "K"; ""; ""; ""] ] constructor.

(** ** Vocabulary of the further properties *)

(** From [s] to [s'] no king-moved flag, rook-moved flag or game-over mark
    goes back from set to unset. *)
Definition onlySets (s s' : Chess) : Prop :=
  (forall c, sel c (kingMoved s) = true -> sel c (kingMoved s') = true) /\
  (forall c, sideA (sel c (rookMoved s)) = true ->
             sideA (sel c (rookMoved s')) = true) /\
  (forall c, sideH (sel c (rookMoved s)) = true ->
             sideH (sel c (rookMoved s')) = true) /\
  (gameOver s = true -> gameOver s' = true).

(** No pawn stands on rank 0 or rank 7. *)
Definition noEndPawns (g : Grid) : Prop :=
  forall r f, r = 0 \/ r = 7 -> (Js.toLowerCase (cell g r f) === "p") = false.

(** The letter [findKing] looks for. *)
Definition kingLetter (c : Color) : string :=
  match c with white => "K" | black => "k" end.

(** The square [findKing] returns does hold the king, so its fallback
    was not taken. *)
Definition kingOnBoard (c : Color) (s : Chess) : Prop :=
  let k := evalM (findKing c) s in
  cell (positions s) (rank k) (file k) = kingLetter c.

(** * Properties *)

(** ** State monad laws used below *)

Section Preservation.

(** [Q s s'] relates the state before a method call to the state after
    it; for a reflexive and transitive [Q] the property passes through
    sequencing. *)
Variable Q : Chess -> Chess -> Prop.
Hypothesis Q_refl : forall s, Q s s.
Hypothesis Q_trans : forall s1 s2 s3, Q s1 s2 -> Q s2 s3 -> Q s1 s3.

Lemma pres_ret : forall (A : Type) (x : A), preserves Q (ret x).
Proof. intros A x s. apply Q_refl. Qed.

Lemma pres_gets : forall (A : Type) (p : Chess -> A), preserves Q (gets p).
Proof. intros A p s. apply Q_refl. Qed.

Lemma pres_bind : forall (A B : Type) (m : M A) (k : A -> M B),
    preserves Q m -> (forall x, preserves Q (k x)) -> preserves Q (bind m k).
Proof.
  intros A B m k Hm Hk s. unfold bind.
  specialize (Hm s). destruct (m s) as [x s1]. simpl in Hm.
  eapply Q_trans; [exact Hm | apply Hk].
Qed.

Lemma pres_modify : forall u : Chess -> Chess,
    (forall s, Q s (u s)) -> preserves Q (modify u).
Proof. intros u Hu s. apply Hu. Qed.

Lemma pres_whenM : forall (c : bool) (m : M unit),
    preserves Q m -> preserves Q (whenM c m).
Proof. intros [] m Hm; simpl; [exact Hm | apply pres_ret]. Qed.

Lemma pres_andM : forall (c : bool) (m : M bool),
    preserves Q m -> preserves Q (andM c m).
Proof. intros [] m Hm; simpl; [exact Hm | apply pres_ret]. Qed.

Lemma pres_someM : forall (A : Type) (cb : A -> M bool) (l : list A),
    (forall x, preserves Q (cb x)) -> preserves Q (someM cb l).
Proof.
  intros A cb l Hcb. induction l as [| x rest IH]; simpl.
  - apply pres_ret.
  - apply pres_bind; [apply Hcb |].
    intros []; [apply pres_ret | exact IH].
Qed.

Lemma pres_filterM : forall (A : Type) (cb : A -> M bool) (l : list A),
    (forall x, preserves Q (cb x)) -> preserves Q (filterM cb l).
Proof.
  intros A cb l Hcb. induction l as [| x rest IH]; simpl.
  - apply pres_ret.
  - apply pres_bind; [apply Hcb |]. intros keep.
    apply pres_bind; [exact IH |]. intros kept. apply pres_ret.
Qed.

End Preservation.

(** Breaks a method body into its statements. *)
Ltac pres_side := solve [ intros; simpl in *; first [congruence | auto] ].

Ltac pres_step :=
  first
    [ apply pres_ret; pres_side
    | apply pres_gets; pres_side
    | apply pres_whenM; [pres_side |]
    | apply pres_andM; [pres_side |]
    | apply pres_someM; [pres_side | pres_side | intros ?]
    | apply pres_filterM; [pres_side | pres_side | intros ?]
    | apply pres_bind; [pres_side | | intros ?]
    | match goal with
      | |- preserves _ (if ?c then _ else _) => destruct c
      | |- preserves _ (match ?c with _ => _ end) => destruct c
      end ].

Lemma pureM_run : forall (A : Type) (m : M A) (s : Chess),
    pureM m -> m s = (evalM m s, s).
Proof.
  intros A m s H. unfold evalM. specialize (H s). simpl in H.
  destruct (m s) as [x s']. simpl in *. now subst.
Qed.

(** ** The query methods leave the object as they found it *)

Lemma pure_findKing : forall color, pureM (findKing color).
Proof. intros color. unfold pureM, findKing. repeat pres_step. Qed.

Section PureQueries.

Variable rec : Sq -> string -> bool -> M (list Sq).
Hypothesis rec_pure : forall sq p, pureM (rec sq p true).

Lemma pure_hits : forall attacker tr tf sq, pureM (hits rec attacker tr tf sq).
Proof.
  intros. unfold pureM, hits. repeat pres_step. apply rec_pure.
Qed.

Lemma pure_isInCheckWith : forall color, pureM (isInCheckWith rec color).
Proof.
  intros. unfold pureM, isInCheckWith.
  pres_step; [apply pure_findKing |]. pres_step. apply pure_hits.
Qed.

Lemma pure_isAttackedWith : forall r f c, pureM (isAttackedWith rec r f c).
Proof.
  intros. unfold pureM, isAttackedWith. pres_step. apply pure_hits.
Qed.

Lemma pure_castlingMoves : forall b r f type, pureM (castlingMoves rec b r f type).
Proof.
  intros. unfold pureM, castlingMoves.
  repeat first [ apply pure_isInCheckWith | apply pure_isAttackedWith | pres_step ].
Qed.

(** The swap of [this.positions] is undone before the callback returns. *)
Lemma pure_keepsKingSafe : forall r f type to, pureM (keepsKingSafe rec r f type to).
Proof.
  intros r f type to s. unfold keepsKingSafe, bind, gets, modify, ret. simpl.
  rewrite (pureM_run _ (pure_isInCheckWith (colorOf type))). simpl.
  destruct s; reflexivity.
Qed.

Lemma pure_candidates : forall from type ic, pureM (candidates rec from type ic).
Proof.
  intros. unfold pureM, candidates.
  repeat first [ apply pure_castlingMoves | pres_step ].
Qed.

Lemma pure_getLegalBody : forall from type ic, pureM (getLegalBody rec from type ic).
Proof.
  intros. unfold pureM, getLegalBody.
  pres_step; [apply pure_candidates |].
  destruct (negb ic); [| pres_step].
  pres_step. apply pure_keepsKingSafe.
Qed.

End PureQueries.

Lemma pure_getLegalDepth : forall n from type ic, pureM (getLegalDepth n from type ic).
Proof.
  induction n as [| n IH]; intros from type ic; simpl.
  - unfold pureM. pres_step.
  - apply pure_getLegalBody. intros sq p. apply IH.
Qed.

Lemma pure_getLegal : forall from type ic, pureM (getLegal from type ic).
Proof. intros. apply pure_getLegalDepth. Qed.

Lemma pure_isInCheck : forall color, pureM (isInCheck color).
Proof. intros. apply pure_isInCheckWith. intros. apply pure_getLegal. Qed.

Lemma pure_isAttacked : forall r f c, pureM (isAttacked r f c).
Proof. intros. apply pure_isAttackedWith. intros. apply pure_getLegal. Qed.

(** ** Running pure methods *)

Lemma evalM_bind : forall (A B : Type) (m : M A) (k : A -> M B) (s : Chess),
    pureM m -> evalM (bind m k) s = evalM (k (evalM m s)) s.
Proof.
  intros A B m k s H. unfold evalM at 1. unfold bind.
  rewrite (pureM_run s H). reflexivity.
Qed.

Lemma execM_bind : forall (A B : Type) (m : M A) (k : A -> M B) (s : Chess),
    execM (bind m k) s = execM (k (evalM m s)) (execM m s).
Proof.
  intros A B m k s. unfold execM, evalM, bind. destruct (m s); reflexivity.
Qed.

Lemma evalM_someM : forall (A : Type) (cb : A -> M bool) (l : list A) (s : Chess),
    (forall x, pureM (cb x)) ->
    evalM (someM cb l) s = existsb (fun x => evalM (cb x) s) l.
Proof.
  intros A cb l s H. induction l as [| x rest IH]; simpl; [reflexivity |].
  rewrite evalM_bind by apply H.
  destruct (evalM (cb x) s); [reflexivity | exact IH].
Qed.

Lemma evalM_filterM : forall (A : Type) (cb : A -> M bool) (l : list A) (s : Chess),
    (forall x, pureM (cb x)) ->
    evalM (filterM cb l) s = filter (fun x => evalM (cb x) s) l.
Proof.
  intros A cb l s H. induction l as [| x rest IH]; simpl; [reflexivity |].
  rewrite evalM_bind by apply H.
  rewrite evalM_bind by (unfold pureM; apply pres_filterM; [pres_side | pres_side | apply H]).
  rewrite IH. reflexivity.
Qed.

(** ** Two levels of [getLegal] are all the source ever nests *)

Lemma getLegalBody_attack : forall rec rec' from type,
    getLegalBody rec from type true = getLegalBody rec' from type true.
Proof. intros. unfold getLegalBody, candidates. simpl negb. reflexivity. Qed.

Lemma eqM_refl : forall (A : Type) (m : M A), eqM m m.
Proof. intros A m s. reflexivity. Qed.

Lemma evalM_eqM : forall (A : Type) (m m' : M A) (s : Chess),
    eqM m m' -> evalM m s = evalM m' s.
Proof. intros A m m' s H. unfold evalM. rewrite (H s). reflexivity. Qed.

Lemma eqM_bind : forall (A B : Type) (m m' : M A) (k k' : A -> M B),
    eqM m m' -> (forall x, eqM (k x) (k' x)) -> eqM (bind m k) (bind m' k').
Proof.
  intros A B m m' k k' Hm Hk s. unfold bind. rewrite (Hm s).
  destruct (m' s) as [x s1]. apply Hk.
Qed.

Lemma eqM_andM : forall (c : bool) (m m' : M bool),
    eqM m m' -> eqM (andM c m) (andM c m').
Proof. intros [] m m' H; simpl; [exact H | apply eqM_refl]. Qed.

Lemma eqM_someM : forall (A : Type) (cb cb' : A -> M bool) (l : list A),
    (forall x, eqM (cb x) (cb' x)) -> eqM (someM cb l) (someM cb' l).
Proof.
  intros A cb cb' l H. induction l as [| x rest IH]; simpl.
  - apply eqM_refl.
  - apply eqM_bind; [apply H |]. intros []; [apply eqM_refl | exact IH].
Qed.

Lemma eqM_filterM : forall (A : Type) (cb cb' : A -> M bool) (l : list A),
    (forall x, eqM (cb x) (cb' x)) -> eqM (filterM cb l) (filterM cb' l).
Proof.
  intros A cb cb' l H. induction l as [| x rest IH]; simpl.
  - apply eqM_refl.
  - apply eqM_bind; [apply H |]. intros keep.
    apply eqM_bind; [exact IH |]. intros kept. apply eqM_refl.
Qed.

Ltac eqM_step :=
  first
    [ apply eqM_andM
    | apply eqM_someM; intros ?
    | apply eqM_filterM; intros ?
    | apply eqM_bind; [| intros ?]
    | match goal with
      | |- eqM (if ?c then _ else _) (if ?c then _ else _) => destruct c
      end
    | apply eqM_refl ].

Section Extensional.

(** Two stand-ins for the nested [getLegal] that agree on attack-pattern
    calls give the same methods. *)
Variables rec rec' : Sq -> string -> bool -> M (list Sq).
Hypothesis rec_eq : forall sq p, eqM (rec sq p true) (rec' sq p true).

Lemma hits_ext : forall attacker tr tf sq,
    eqM (hits rec attacker tr tf sq) (hits rec' attacker tr tf sq).
Proof. intros. unfold hits. repeat first [apply rec_eq | eqM_step]. Qed.

Lemma isInCheckWith_ext : forall color,
    eqM (isInCheckWith rec color) (isInCheckWith rec' color).
Proof. intros. unfold isInCheckWith. repeat first [apply hits_ext | eqM_step]. Qed.

Lemma isAttackedWith_ext : forall r f c,
    eqM (isAttackedWith rec r f c) (isAttackedWith rec' r f c).
Proof. intros. unfold isAttackedWith. repeat first [apply hits_ext | eqM_step]. Qed.

Lemma castlingMoves_ext : forall b r f type,
    eqM (castlingMoves rec b r f type) (castlingMoves rec' b r f type).
Proof.
  intros. unfold castlingMoves.
  repeat first [apply isInCheckWith_ext | apply isAttackedWith_ext | eqM_step].
Qed.

Lemma keepsKingSafe_ext : forall r f type to,
    eqM (keepsKingSafe rec r f type to) (keepsKingSafe rec' r f type to).
Proof.
  intros. unfold keepsKingSafe. repeat first [apply isInCheckWith_ext | eqM_step].
Qed.

Lemma candidates_ext : forall from type ic,
    eqM (candidates rec from type ic) (candidates rec' from type ic).
Proof.
  intros. unfold candidates. repeat first [apply castlingMoves_ext | eqM_step].
Qed.

Lemma getLegalBody_ext : forall from type ic,
    eqM (getLegalBody rec from type ic) (getLegalBody rec' from type ic).
Proof.
  intros. unfold getLegalBody.
  repeat first [apply candidates_ext | apply keepsKingSafe_ext | eqM_step].
Qed.

End Extensional.

(** Whatever the depth, the result is the one of depth 2. *)
Lemma getLegalDepth_enough : forall n from type ic,
    eqM (getLegalDepth (2 + n) from type ic) (getLegal from type ic).
Proof.
  intros n from type ic. unfold getLegal.
  change (eqM (getLegalBody (getLegalBody (getLegalDepth n)) from type ic)
              (getLegalBody (getLegalBody (fun _ _ _ => ret [])) from type ic)).
  apply getLegalBody_ext. intros sq p.
  rewrite (getLegalBody_attack (getLegalDepth n) (fun _ _ _ => ret []) sq p).
  apply eqM_refl.
Qed.

(** The attack-pattern calls nested in [getLegal] are calls of [getLegal]. *)
Lemma inner_getLegal : forall sq p,
    eqM (getLegalDepth 1 sq p true) (getLegal sq p true).
Proof.
  intros sq p s.
  change (getLegalBody (getLegalDepth 0) sq p true s =
          getLegalBody (getLegalDepth 1) sq p true s).
  rewrite (getLegalBody_attack (getLegalDepth 0) (getLegalDepth 1)). reflexivity.
Qed.

Lemma inner_isInCheck : forall color,
    eqM (isInCheckWith (getLegalDepth 1) color) (isInCheck color).
Proof. intros. apply isInCheckWith_ext, inner_getLegal. Qed.

Lemma inner_isAttacked : forall r f c,
    eqM (isAttackedWith (getLegalDepth 1) r f c) (isAttacked r f c).
Proof. intros. apply isAttackedWith_ext, inner_getLegal. Qed.

Lemma inner_candidates : forall from type ic,
    eqM (candidates (getLegalDepth 1) from type ic) (candidates getLegal from type ic).
Proof. intros. apply candidates_ext, inner_getLegal. Qed.

(** ** Equations of [getLegal] *)

Lemma pure_inner : forall sq p, pureM (getLegalDepth 1 sq p true).
Proof. intros. apply pure_getLegalDepth. Qed.

Lemma getLegal_unfold : forall from type ic,
    getLegal from type ic = getLegalBody (getLegalDepth 1) from type ic.
Proof. reflexivity. Qed.

Lemma keepsKingSafe_eq : forall s r f type to,
    evalM (keepsKingSafe (getLegalDepth 1) r f type to) s =
    negb (leavesKingInCheck s (mkSq r f) type to).
Proof.
  intros. unfold leavesKingInCheck.
  rewrite <- (evalM_eqM _ (inner_isInCheck (colorOf type))).
  unfold evalM at 1. unfold keepsKingSafe, bind, gets, modify, ret.
  rewrite (pureM_run _ (@pure_isInCheckWith _ pure_inner (colorOf type))).
  reflexivity.
Qed.

Lemma getLegal_attack_eq : forall s from type,
    evalM (getLegal from type true) s = evalM (candidates getLegal from type true) s.
Proof.
  intros. rewrite getLegal_unfold.
  rewrite <- (evalM_eqM s (inner_candidates from type true)).
  unfold getLegalBody.
  rewrite evalM_bind by (apply pure_candidates, pure_inner).
  reflexivity.
Qed.

Lemma getLegal_filter_eq : forall s from type,
    evalM (getLegal from type false) s =
    filter (fun to => negb (leavesKingInCheck s from type to))
           (evalM (candidates getLegal from type false) s).
Proof.
  intros s [r f] type. rewrite getLegal_unfold. unfold getLegalBody.
  rewrite evalM_bind by (apply pure_candidates, pure_inner).
  cbn [negb rank file].
  rewrite evalM_filterM by (intros to; apply pure_keepsKingSafe, pure_inner).
  rewrite <- (evalM_eqM s (inner_candidates (mkSq r f) type false)).
  unfold leavesKingInCheck. cbn [rank file].
  apply filter_ext. intros to. apply keepsKingSafe_eq.
Qed.

(** ** The status fields do not influence the rules *)

Lemma resp_ret : forall (A : Type) (x : A), respects (ret x).
Proof. intros A x s1 s2 H. split; [reflexivity | exact H]. Qed.

Lemma resp_gets : forall (A : Type) (p : Chess -> A),
    (forall s1 s2, sameRules s1 s2 -> p s1 = p s2) -> respects (gets p).
Proof. intros A p Hp s1 s2 H. split; [apply Hp, H | exact H]. Qed.

Lemma resp_modify : forall u : Chess -> Chess,
    (forall s1 s2, sameRules s1 s2 -> sameRules (u s1) (u s2)) ->
    respects (modify u).
Proof. intros u Hu s1 s2 H. split; [reflexivity | apply Hu, H]. Qed.

Lemma resp_bind : forall (A B : Type) (m : M A) (k : A -> M B),
    respects m -> (forall x, respects (k x)) -> respects (bind m k).
Proof.
  intros A B m k Hm Hk s1 s2 H. unfold bind.
  destruct (Hm s1 s2 H) as [Hx Hs].
  destruct (m s1) as [x1 t1], (m s2) as [x2 t2]. simpl in *. subst x2.
  apply Hk, Hs.
Qed.

Lemma resp_whenM : forall (c : bool) (m : M unit), respects m -> respects (whenM c m).
Proof. intros [] m Hm; simpl; [exact Hm | apply resp_ret]. Qed.

Lemma resp_andM : forall (c : bool) (m : M bool), respects m -> respects (andM c m).
Proof. intros [] m Hm; simpl; [exact Hm | apply resp_ret]. Qed.

Lemma resp_someM : forall (A : Type) (cb : A -> M bool) (l : list A),
    (forall x, respects (cb x)) -> respects (someM cb l).
Proof.
  intros A cb l Hcb. induction l as [| x rest IH]; simpl.
  - apply resp_ret.
  - apply resp_bind; [apply Hcb |]. intros []; [apply resp_ret | exact IH].
Qed.

Lemma resp_filterM : forall (A : Type) (cb : A -> M bool) (l : list A),
    (forall x, respects (cb x)) -> respects (filterM cb l).
Proof.
  intros A cb l Hcb. induction l as [| x rest IH]; simpl.
  - apply resp_ret.
  - apply resp_bind; [apply Hcb |]. intros keep.
    apply resp_bind; [exact IH |]. intros kept. apply resp_ret.
Qed.

Ltac resp_side :=
  solve [ unfold sameRules; intros; simpl in *; intuition congruence ].

Ltac resp_step :=
  first
    [ apply resp_ret
    | apply resp_gets; resp_side
    | apply resp_modify; resp_side
    | apply resp_whenM
    | apply resp_andM
    | apply resp_someM; intros ?
    | apply resp_filterM; intros ?
    | apply resp_bind; [| intros ?]
    | match goal with
      | |- respects (if ?c then _ else _) => destruct c
      | |- respects (match ?c with _ => _ end) => destruct c
      end ].

Lemma resp_findKing : forall color, respects (findKing color).
Proof. intros. unfold findKing. repeat resp_step. Qed.

Section RespectfulQueries.

Variable rec : Sq -> string -> bool -> M (list Sq).
Hypothesis rec_resp : forall sq p, respects (rec sq p true).

Lemma resp_hits : forall attacker tr tf sq, respects (hits rec attacker tr tf sq).
Proof. intros. unfold hits. repeat first [apply rec_resp | resp_step]. Qed.

Lemma resp_isInCheckWith : forall color, respects (isInCheckWith rec color).
Proof.
  intros. unfold isInCheckWith.
  repeat first [apply resp_findKing | apply resp_hits | resp_step].
Qed.

Lemma resp_isAttackedWith : forall r f c, respects (isAttackedWith rec r f c).
Proof. intros. unfold isAttackedWith. repeat first [apply resp_hits | resp_step]. Qed.

Lemma resp_castlingMoves : forall b r f type, respects (castlingMoves rec b r f type).
Proof.
  intros. unfold castlingMoves.
  repeat first [apply resp_isInCheckWith | apply resp_isAttackedWith | resp_step].
Qed.

Lemma resp_keepsKingSafe : forall r f type to, respects (keepsKingSafe rec r f type to).
Proof.
  intros. unfold keepsKingSafe.
  repeat first [apply resp_isInCheckWith | resp_step].
Qed.

Lemma resp_getLegalBody : forall from type ic, respects (getLegalBody rec from type ic).
Proof.
  intros. unfold getLegalBody, candidates.
  repeat first [apply resp_castlingMoves | apply resp_keepsKingSafe | resp_step].
Qed.

End RespectfulQueries.

Lemma resp_getLegalDepth : forall n from type ic, respects (getLegalDepth n from type ic).
Proof.
  induction n as [| n IH]; intros from type ic; simpl.
  - apply resp_ret.
  - apply resp_getLegalBody. intros sq p. apply IH.
Qed.

Lemma resp_getLegal : forall from type ic, respects (getLegal from type ic).
Proof. intros. apply resp_getLegalDepth. Qed.

Lemma resp_isInCheck : forall color, respects (isInCheck color).
Proof. intros. apply resp_isInCheckWith. intros. apply resp_getLegal. Qed.

Lemma resp_anyMoves : respects anyMoves.
Proof. unfold anyMoves. repeat first [apply resp_getLegal | resp_step]. Qed.

Lemma pure_anyMoves : pureM anyMoves.
Proof. unfold pureM, anyMoves. repeat first [apply pure_getLegal | pres_step]. Qed.

(** ** Frame lemmas for [movePiece] *)

Lemma keeps_exec : forall (A B : Type) (p : Chess -> A) (m : M B) (s : Chess),
    keeps p m -> p (execM m s) = p s.
Proof. intros A B p m s H. apply H. Qed.

Lemma execM_seq : forall (A B : Type) (m : M A) (k : M B) (s : Chess),
    execM (m ;;; k) s = execM k (execM m s).
Proof. intros. apply execM_bind. Qed.

Lemma recomputeStatus_run : forall s,
    execM recomputeStatus s =
    if evalM (isInCheck (turn s)) s && negb (evalM anyMoves s)
    then declare "checkmate" s
    else if negb (evalM (isInCheck (turn s)) s) && negb (evalM anyMoves s)
         then declare "stalemate" s
         else s.
Proof.
  intros s. unfold execM, recomputeStatus.
  unfold bind at 1. unfold gets at 1.
  unfold bind at 1. rewrite (pureM_run s (pure_isInCheck (turn s))).
  unfold bind at 1. rewrite (pureM_run s pure_anyMoves).
  destruct (evalM (isInCheck (turn s)) s), (evalM anyMoves s); reflexivity.
Qed.

Lemma recomputeStatus_sameRules : forall s, sameRules s (execM recomputeStatus s).
Proof.
  intros s. rewrite recomputeStatus_run.
  destruct (evalM (isInCheck (turn s)) s), (evalM anyMoves s);
    simpl; unfold sameRules; auto.
Qed.

Lemma recomputeStatus_currentDrag : forall s,
    currentDrag (execM recomputeStatus s) = currentDrag s.
Proof.
  intros s. rewrite recomputeStatus_run.
  destruct (evalM (isInCheck (turn s)) s), (evalM anyMoves s); reflexivity.
Qed.

Lemma keeps_enPassantStep : forall (A : Type) (p : Chess -> A) from to t,
    (forall v s, p (set_positions v s) = p s) ->
    (forall v s, p (set_enPassantTarget v s) = p s) ->
    keeps p (enPassantStep from to t).
Proof.
  intros A p from to t Hp He. unfold enPassantStep, write.
  unfold keeps.
  repeat first [ pres_step | apply pres_modify; intros; first [apply Hp | apply He] ].
Qed.

Lemma keeps_relocate : forall (A : Type) (p : Chess -> A) from to t,
    (forall v s, p (set_positions v s) = p s) ->
    keeps p (relocate from to t).
Proof.
  intros A p from to t Hp. unfold relocate, write, keeps.
  repeat first [ pres_step | apply pres_modify; intros; apply Hp ].
Qed.

Lemma keeps_castleRook : forall (A : Type) (p : Chess -> A) from to t color,
    (forall v s, p (set_positions v s) = p s) ->
    (forall v s, p (set_rookMoved v s) = p s) ->
    keeps p (castleRook from to t color).
Proof.
  intros A p from to t color Hp Hr.
  unfold castleRook, write, markRookH, markRookA, keeps.
  repeat first [ pres_step | apply pres_modify; intros; first [apply Hp | apply Hr] ].
Qed.

Lemma keeps_updateMovedFlags : forall (A : Type) (p : Chess -> A) from t,
    (forall v s, p (set_kingMoved v s) = p s) ->
    (forall v s, p (set_rookMoved v s) = p s) ->
    keeps p (updateMovedFlags from t).
Proof.
  intros A p from t Hk Hr.
  unfold updateMovedFlags, markKing, markRookH, markRookA, keeps.
  repeat first [ pres_step | apply pres_modify; intros; first [apply Hk | apply Hr] ].
Qed.

Lemma keeps_promote : forall (A : Type) (p : Chess -> A) to t,
    (forall v s, p (set_positions v s) = p s) ->
    keeps p (promote to t).
Proof.
  intros A p to t Hp. unfold promote, write, keeps.
  repeat first [ pres_step | apply pres_modify; intros; apply Hp ].
Qed.

(** [applyMechanics] as the composition of its phases. *)
Lemma applyMechanics_run : forall from to s,
    let t := cell (positions s) (rank from) (file from) in
    execM (applyMechanics from to) s =
    execM switchTurns
      (execM (promote to t)
        (execM (updateMovedFlags from t)
          (execM (castleRook from to t (colorOf t))
            (execM (relocate from to t)
              (execM (enPassantStep from to t) s))))).
Proof.
  intros from to s t. unfold applyMechanics.
  rewrite execM_bind. change (evalM (gets _) s) with t.
  change (execM (gets _) s) with s.
  repeat rewrite execM_seq. reflexivity.
Qed.

Lemma movePiece_run : forall from to s,
    execM (movePiece from to) s =
    execM recomputeStatus (execM (applyMechanics from to) s).
Proof. intros. unfold movePiece. apply execM_seq. Qed.

(** The fields that [applyMechanics] never assigns. *)
Lemma applyMechanics_untouched : forall (A : Type) (p : Chess -> A) from to s,
    (forall v s, p (set_positions v s) = p s) ->
    (forall v s, p (set_enPassantTarget v s) = p s) ->
    (forall v s, p (set_kingMoved v s) = p s) ->
    (forall v s, p (set_rookMoved v s) = p s) ->
    (forall v s, p (set_turn v s) = p s) ->
    p (execM (applyMechanics from to) s) = p s.
Proof.
  intros A p from to s Hp He Hk Hr Ht. rewrite applyMechanics_run.
  unfold switchTurns, execM at 1, modify. simpl snd. rewrite Ht.
  rewrite (keeps_exec _ (@keeps_promote _ p _ _ Hp)).
  rewrite (keeps_exec _ (@keeps_updateMovedFlags _ p _ _ Hk Hr)).
  rewrite (keeps_exec _ (@keeps_castleRook _ p _ _ _ _ Hp Hr)).
  rewrite (keeps_exec _ (@keeps_relocate _ p _ _ _ Hp)).
  apply (keeps_exec _ (@keeps_enPassantStep _ p _ _ _ Hp He)).
Qed.

Lemma applyMechanics_turn : forall from to s,
    turn (execM (applyMechanics from to) s) = opposite (turn s).
Proof.
  intros from to s. rewrite applyMechanics_run.
  unfold switchTurns, execM at 1, modify. simpl.
  f_equal.
  rewrite (keeps_exec _ (@keeps_promote _ turn _ _ (fun _ _ => eq_refl))).
  rewrite (keeps_exec _ (@keeps_updateMovedFlags _ turn _ _ (fun _ _ => eq_refl) (fun _ _ => eq_refl))).
  rewrite (keeps_exec _ (@keeps_castleRook _ turn _ _ _ _ (fun _ _ => eq_refl) (fun _ _ => eq_refl))).
  rewrite (keeps_exec _ (@keeps_relocate _ turn _ _ _ (fun _ _ => eq_refl))).
  apply (keeps_exec _ (@keeps_enPassantStep _ turn _ _ _ (fun _ _ => eq_refl) (fun _ _ => eq_refl))).
Qed.

(** ** Attack-pattern candidates are candidates of the filtered call *)

Lemma candidates_attack_incl : forall s from type to,
    In to (evalM (candidates getLegal from type true) s) ->
    In to (evalM (candidates getLegal from type false) s).
Proof.
  intros s from type to. unfold candidates.
  rewrite !evalM_bind by (unfold pureM; pres_step).
  destruct (Js.toLowerCase type === "p"); [auto |].
  destruct (Js.toLowerCase type === "n"); [auto |].
  destruct (Js.toLowerCase type === "k"); [| auto].
  cbn [negb].
  rewrite evalM_bind by (unfold pureM; pres_step).
  rewrite evalM_bind
    by (apply pure_castlingMoves; intros; apply pure_getLegal).
  unfold evalM at 1 3. simpl. rewrite app_nil_r.
  intros H. apply in_or_app. left. exact H.
Qed.

(** Among attack-pattern destinations, the legal ones are the safe ones. *)
Lemma legal_iff_safe : forall s from type to,
    In to (evalM (getLegal from type true) s) ->
    (In to (evalM (getLegal from type false) s) <->
     leavesKingInCheck s from type to = false).
Proof.
  intros s from type to Hin.
  rewrite getLegal_filter_eq. rewrite getLegal_attack_eq in Hin.
  rewrite filter_In. split.
  - intros [_ H]. destruct (leavesKingInCheck s from type to); [discriminate | reflexivity].
  - intros H. split; [apply candidates_attack_incl, Hin | rewrite H; reflexivity].
Qed.

Lemma sameRules_eval : forall (A : Type) (m : M A) (s1 s2 : Chess),
    respects m -> sameRules s1 s2 -> evalM m s1 = evalM m s2.
Proof. intros A m s1 s2 Hm H. apply (Hm s1 s2 H). Qed.

(** ** Terminal status and the king-safety filter *)

(** C2: after every [movePiece] the side to move has changed, and the
    game-over triple is: checkmate (with the square of the new mover's
    king) when the new mover is in check and no piece of the new mover has
    a legal move; stalemate when the new mover is not in check and has no
    legal move; otherwise exactly what it was before the call, so a game in
    progress remains in progress. *)
Theorem movePiece_terminal_status : forall s from to,
    let s' := execM (movePiece from to) s in
    let mover := turn s' in
    let inChk := evalM (isInCheck mover) s' in
    let any := evalM anyMoves s' in
    mover = opposite (turn s) /\
    status s' =
      (if inChk && negb any
       then (true, Some "checkmate", Some (evalM (findKing mover) s'))
       else if negb inChk && negb any
            then (true, Some "stalemate", Some (evalM (findKing mover) s'))
            else status s).
Proof.
  intros s from to s' mover inChk any.
  set (s1 := execM (applyMechanics from to) s).
  assert (Hs' : s' = execM recomputeStatus s1) by apply movePiece_run.
  assert (Hrules : sameRules s1 s') by (rewrite Hs'; apply recomputeStatus_sameRules).
  assert (Hturn : turn s' = turn s1) by (symmetry; apply Hrules).
  assert (Hchk : inChk = evalM (isInCheck (turn s1)) s1).
  { unfold inChk, mover. rewrite Hturn. symmetry.
    apply sameRules_eval; [apply resp_isInCheck | exact Hrules]. }
  assert (Hany : any = evalM anyMoves s1).
  { unfold any. symmetry. apply sameRules_eval; [apply resp_anyMoves | exact Hrules]. }
  assert (Hking : evalM (findKing mover) s' = evalM (findKing (turn s1)) s1).
  { unfold mover. rewrite Hturn. symmetry.
    apply sameRules_eval; [apply resp_findKing | exact Hrules]. }
  assert (Hstat : status s1 = status s).
  { unfold status, s1.
    rewrite !(@applyMechanics_untouched _ gameOver),
            !(@applyMechanics_untouched _ gameOverType),
            !(@applyMechanics_untouched _ gameOverColor); reflexivity. }
  split.
  - unfold mover. rewrite Hturn. apply applyMechanics_turn.
  - rewrite Hking, Hchk, Hany, <- Hstat, Hs', recomputeStatus_run.
    destruct (evalM (isInCheck (turn s1)) s1), (evalM anyMoves s1); reflexivity.
Qed.

(** The fool's mate is declared checkmate with the white king's square. *)
Example foolsMate_status :
  execM (movePiece (mkSq 0 3) (mkSq 4 7)) beforeMate = foolsMate /\
  status foolsMate = (true, Some "checkmate", Some (mkSq 7 4)).
Proof. vm_compute. split; reflexivity. Qed.

(** Stalemate after 10. Qe6, with the black king's square. *)
Example stalemate_status :
  legalFor beforeStalemate (mkSq 0 2) (mkSq 2 4) = true /\
  let s := execM (movePiece (mkSq 0 2) (mkSq 2 4)) beforeStalemate in
  evalM (isInCheck black) s = false /\
  evalM anyMoves s = false /\
  status s = (true, Some "stalemate", Some (mkSq 2 6)).
Proof. vm_compute. repeat split; reflexivity. Qed.

(** C3: a destination of the attack-pattern list whose relocation on the
    scratch grid leaves the mover's own king in check is absent from the
    filtered list (though present in the attack-pattern list); every
    destination of the filtered list leaves the mover's king out of check
    on the scratch grid; and an attack-pattern destination that leaves the
    king safe is kept. *)
Theorem getLegal_check_safety : forall s from type to,
    (In to (evalM (getLegal from type true) s) ->
     leavesKingInCheck s from type to = true ->
     ~ In to (evalM (getLegal from type false) s) /\
     In to (evalM (getLegal from type true) s)) /\
    (In to (evalM (getLegal from type false) s) ->
     leavesKingInCheck s from type to = false) /\
    (In to (evalM (getLegal from type true) s) ->
     leavesKingInCheck s from type to = false ->
     In to (evalM (getLegal from type false) s)).
Proof.
  intros s from type to. split; [| split].
  - intros Hatt Hchk. split; [| exact Hatt].
    intros Hin. apply (legal_iff_safe _ _ _ _ Hatt) in Hin. congruence.
  - intros Hin. rewrite getLegal_filter_eq in Hin.
    apply filter_In in Hin. destruct Hin as [_ Hsafe].
    destruct (leavesKingInCheck s from type to); [discriminate | reflexivity].
  - intros Hatt Hsafe. apply (legal_iff_safe _ _ _ _ Hatt). exact Hsafe.
Qed.

Lemma getLegal_check_safety_witness :
  In (mkSq 2 5) (evalM (getLegal (mkSq 1 5) "p" true) pinnedPawn) /\
  leavesKingInCheck pinnedPawn (mkSq 1 5) "p" (mkSq 2 5) = true /\
  ~ In (mkSq 2 5) (evalM (getLegal (mkSq 1 5) "p" false) pinnedPawn) /\
  In (mkSq 2 6) (evalM (getLegal (mkSq 1 6) "p" false) pinnedPawn) /\
  leavesKingInCheck pinnedPawn (mkSq 1 6) "p" (mkSq 2 6) = false.
Proof.
  assert (Hin : In (mkSq 2 5) (evalM (getLegal (mkSq 1 5) "p" true) pinnedPawn))
    by (vm_compute; auto).
  assert (Hchk : leavesKingInCheck pinnedPawn (mkSq 1 5) "p" (mkSq 2 5) = true)
    by (vm_compute; reflexivity).
  assert (Hg : In (mkSq 2 6) (evalM (getLegal (mkSq 1 6) "p" false) pinnedPawn))
    by (vm_compute; auto).
  split; [exact Hin |]. split; [exact Hchk |].
  destruct (getLegal_check_safety pinnedPawn (mkSq 1 5) "p" (mkSq 2 5)) as [Ha _].
  destruct (getLegal_check_safety pinnedPawn (mkSq 1 6) "p" (mkSq 2 6)) as [_ [Hb _]].
  split; [exact (proj1 (Ha Hin Hchk)) |].
  split; [exact Hg | exact (Hb Hg)].
Defined.

(** ** Strings, lists and the grid *)

Lemma lowerAscii_k : forall c,
    Ascii.eqb (Js.lowerAscii c) "k" = true -> c = "K"%char \/ c = "k"%char.
Proof.
  intros [[] [] [] [] [] [] [] []] H; vm_compute in H; try discriminate; auto.
Qed.

Lemma lowerAscii_p : forall c,
    Ascii.eqb (Js.lowerAscii c) "p" = true -> c = "P"%char \/ c = "p"%char.
Proof.
  intros [[] [] [] [] [] [] [] []] H; vm_compute in H; try discriminate; auto.
Qed.

Lemma toLowerCase_k : forall t,
    (Js.toLowerCase t === "k") = true -> t = "K" \/ t = "k".
Proof.
  intros [| c [| c' rest]] H; unfold Js.toLowerCase in H;
    cbn [Js.mapAscii String.eqb] in H; try discriminate.
  - destruct (Ascii.eqb (Js.lowerAscii c) "k") eqn:E; [| discriminate].
    destruct (lowerAscii_k c E); subst; auto.
  - destruct (Ascii.eqb (Js.lowerAscii c) "k"); discriminate.
Qed.

Lemma toLowerCase_p : forall t,
    (Js.toLowerCase t === "p") = true -> t = "P" \/ t = "p".
Proof.
  intros [| c [| c' rest]] H; unfold Js.toLowerCase in H;
    cbn [Js.mapAscii String.eqb] in H; try discriminate.
  - destruct (Ascii.eqb (Js.lowerAscii c) "p") eqn:E; [| discriminate].
    destruct (lowerAscii_p c E); subst; auto.
  - destruct (Ascii.eqb (Js.lowerAscii c) "p"); discriminate.
Qed.

Lemma length_assignNat : forall (A : Type) n (v : A) l,
    List.length (Js.assignNat n v l) = List.length l.
Proof.
  intros A n v l. revert n. induction l as [| x rest IH]; intros [| n]; simpl; auto.
Qed.

Lemma assignNat_overflow : forall (A : Type) n (v : A) l,
    (List.length l <= n)%nat -> Js.assignNat n v l = l.
Proof.
  intros A n v l. revert n.
  induction l as [| x rest IH]; intros [| n] H; simpl in *; auto; try lia.
  f_equal. apply IH. lia.
Qed.

Lemma nth_assignNat_same : forall (A : Type) n (v d : A) l,
    (n < List.length l)%nat -> nth n (Js.assignNat n v l) d = v.
Proof.
  intros A n v d l. revert n.
  induction l as [| x rest IH]; intros [| n] H; simpl in *; try lia; auto.
  apply IH. lia.
Qed.

Lemma nth_assignNat_other : forall (A : Type) n m (v d : A) l,
    n <> m -> nth m (Js.assignNat n v l) d = nth m l d.
Proof.
  intros A n m v d l. revert n m.
  induction l as [| x rest IH]; intros [| n] [| m] H; simpl; auto; try congruence.
Qed.

Lemma Forall_assignNat : forall (A : Type) (P : A -> Prop) n v l,
    P v -> Forall P l -> Forall P (Js.assignNat n v l).
Proof.
  intros A P n v l Hv Hl. revert n.
  induction Hl as [| x rest Hx Hrest IH]; intros [| n]; simpl; auto.
Qed.

Lemma inB_bounds : forall nr nf,
    inB nr nf = true <-> 0 <= nr < 8 /\ 0 <= nf < 8.
Proof. intros. unfold inB. rewrite !andb_true_iff. lia. Qed.

Lemma wfGrid_row : forall g nr,
    wfGrid g -> 0 <= nr < 8 -> List.length (Js.indexRow g nr) = 8%nat.
Proof.
  intros g nr [Hlen Hrows] Hr. unfold Js.indexRow.
  destruct (nr <? 0) eqn:E; [lia |].
  rewrite Forall_forall in Hrows. apply Hrows. apply nth_In. lia.
Qed.

Lemma wfGrid_setCell : forall nr nf v g, wfGrid g -> wfGrid (setCell nr nf v g).
Proof.
  intros nr nf v g Hwf. unfold setCell, Js.assign at 1.
  destruct (nr <? 0) eqn:Er; [exact Hwf |].
  destruct (Nat.lt_ge_cases (Z.to_nat nr) (List.length g)) as [Hlt | Hge].
  - destruct Hwf as [Hlen Hrows].
    split; [rewrite length_assignNat; exact Hlen |].
    apply Forall_assignNat; [| exact Hrows].
    assert (Hrow : List.length (Js.indexRow g nr) = 8%nat)
      by (apply wfGrid_row; [split; assumption | lia]).
    unfold Js.assign. destruct (nf <? 0); [exact Hrow |].
    rewrite length_assignNat. exact Hrow.
  - rewrite assignNat_overflow by exact Hge. exact Hwf.
Qed.

Lemma cell_setCell_same : forall nr nf v g,
    wfGrid g -> inB nr nf = true -> cell (setCell nr nf v g) nr nf = v.
Proof.
  intros nr nf v g Hwf Hin. apply inB_bounds in Hin.
  assert (Hrow := wfGrid_row Hwf (proj1 Hin)).
  destruct Hwf as [Hlen _].
  unfold cell, setCell, Js.assign, Js.index.
  replace (nr <? 0) with false by lia. replace (nf <? 0) with false by lia.
  unfold Js.indexRow at 1. replace (nr <? 0) with false by lia.
  rewrite nth_assignNat_same by lia.
  apply nth_assignNat_same. lia.
Qed.

Lemma cell_setCell_other : forall nr nf v g r' f',
    nr <> r' \/ nf <> f' -> cell (setCell nr nf v g) r' f' = cell g r' f'.
Proof.
  intros nr nf v g r' f' Hne. unfold cell, setCell, Js.assign at 1.
  destruct (nr <? 0) eqn:Er; [reflexivity |].
  unfold Js.indexRow at 1. destruct (r' <? 0) eqn:Er'.
  { unfold Js.indexRow. rewrite Er'. reflexivity. }
  destruct (Z.eq_dec nr r') as [-> | Hr].
  - destruct (Nat.lt_ge_cases (Z.to_nat r') (List.length g)) as [Hlt | Hge].
    + rewrite nth_assignNat_same by exact Hlt.
      unfold Js.assign, Js.index.
      destruct (nf <? 0) eqn:Ef; [reflexivity |].
      destruct (f' <? 0) eqn:Ef'; [reflexivity |].
      apply nth_assignNat_other. lia.
    + rewrite assignNat_overflow by exact Hge.
      unfold Js.indexRow. rewrite Er'. reflexivity.
  - rewrite nth_assignNat_other by lia.
    unfold Js.indexRow. rewrite Er'. reflexivity.
Qed.

(** ** The grid stays 8x8 *)

Lemma gridKept_write : forall nr nf v, preserves gridKept (write nr nf v).
Proof.
  intros nr nf v. unfold write. apply pres_modify.
  intros s H. simpl. apply wfGrid_setCell, H.
Qed.

Ltac grid_tac :=
  repeat first
    [ apply gridKept_write
    | pres_step
    | apply pres_modify; unfold gridKept; intros; simpl; assumption ].

Lemma gridKept_applyMechanics : forall from to,
    preserves gridKept (applyMechanics from to).
Proof.
  intros from to.
  unfold applyMechanics, enPassantStep, relocate, castleRook, updateMovedFlags,
    promote, switchTurns, markKing, markRookA, markRookH.
  unfold gridKept. grid_tac.
Qed.

Lemma wfGrid_movePiece : forall from to s,
    wfGrid (positions s) -> wfGrid (positions (execM (movePiece from to) s)).
Proof.
  intros from to s H. rewrite movePiece_run.
  destruct (recomputeStatus_sameRules (execM (applyMechanics from to) s)) as [<- _].
  apply gridKept_applyMechanics, H.
Qed.

Lemma wfGrid_constructor : wfGrid (positions constructor).
Proof. split; [reflexivity | repeat constructor]. Qed.

Lemma reachable_wfGrid : forall s, reachable s -> wfGrid (positions s).
Proof.
  intros s H. induction H as [| s from to _ IH _].
  - apply wfGrid_constructor.
  - apply wfGrid_movePiece, IH.
Qed.

Lemma play_reachable : forall ms s s',
    reachable s -> play ms s = Some s' -> reachable s'.
Proof.
  induction ms as [| [from to] rest IH]; intros s s' Hs Hplay; simpl in Hplay.
  - injection Hplay as <-. exact Hs.
  - destruct (legalFor s from to) eqn:Hlegal; [| discriminate].
    apply (IH _ _ (reach_move _ _ Hs Hlegal) Hplay).
Qed.

(** ** The sliding loop ends within the fuel it is given *)

Lemma ray_offboard : forall k fuel b type nr nf dr df,
    (k <= fuel)%nat ->
    inB (nr + Z.of_nat k * dr) (nf + Z.of_nat k * df) = false ->
    ray fuel b type nr nf dr df = ray k b type nr nf dr df.
Proof.
  induction k as [| k IH]; intros fuel b type nr nf dr df Hle Hoff.
  - replace (nr + Z.of_nat 0 * dr) with nr in Hoff by lia.
    replace (nf + Z.of_nat 0 * df) with nf in Hoff by lia.
    destruct fuel; simpl; [reflexivity | rewrite Hoff; reflexivity].
  - destruct fuel as [| fuel]; [lia |]. simpl.
    destruct (inB nr nf); [| reflexivity].
    destruct (isEmp b nr nf); [| reflexivity].
    f_equal. apply IH; [lia |].
    replace (nr + dr + Z.of_nat k * dr) with (nr + Z.of_nat (S k) * dr) by lia.
    replace (nf + df + Z.of_nat k * df) with (nf + Z.of_nat (S k) * df) by lia.
    exact Hoff.
Qed.

Lemma slideDirs_unit : forall lower d,
    In d (slideDirs lower) ->
    -1 <= fst d <= 1 /\ -1 <= snd d <= 1 /\ (fst d <> 0 \/ snd d <> 0).
Proof.
  intros lower d Hin. unfold slideDirs in Hin.
  apply in_app_or in Hin.
  destruct Hin as [Hin | Hin];
    (destruct (_ || _); [| contradiction]);
    simpl in Hin; intuition (subst; simpl; lia).
Qed.

(** More fuel than 8 changes nothing: the loop has left the board by then. *)
Lemma ray_fuel_enough : forall n b type nr nf dr df,
    -1 <= dr <= 1 -> -1 <= df <= 1 -> dr <> 0 \/ df <> 0 ->
    ray (8 + n) b type nr nf dr df = ray 8 b type nr nf dr df.
Proof.
  intros n b type nr nf dr df Hdr Hdf Hne.
  destruct (inB nr nf) eqn:Hin.
  - apply ray_offboard; [lia |].
    apply inB_bounds in Hin.
    destruct (inB (nr + Z.of_nat 8 * dr) (nf + Z.of_nat 8 * df)) eqn:Hoff;
      [| reflexivity].
    apply inB_bounds in Hoff. lia.
  - rewrite (@ray_offboard 0 (8 + n)), (@ray_offboard 0 8); try lia; try reflexivity.
    + replace (nr + Z.of_nat 0 * dr) with nr by lia.
      replace (nf + Z.of_nat 0 * df) with nf by lia. exact Hin.
    + replace (nr + Z.of_nat 0 * dr) with nr by lia.
      replace (nf + Z.of_nat 0 * df) with nf by lia. exact Hin.
Qed.

(** ** Phases that do nothing for the piece at hand *)

Lemma promote_other : forall to t s,
    (t === "P") = false -> (t === "p") = false -> execM (promote to t) s = s.
Proof. intros to t s H1 H2. unfold promote. rewrite H1, H2. reflexivity. Qed.

Lemma castleRook_other : forall from to t color s,
    (Js.toLowerCase t === "k") = false -> execM (castleRook from to t color) s = s.
Proof. intros from to t color s H. unfold castleRook. rewrite H. reflexivity. Qed.

Lemma updateMovedFlags_other : forall from t s,
    (t === "K") = false -> (t === "k") = false ->
    (t === "R") = false -> (t === "r") = false ->
    execM (updateMovedFlags from t) s = s.
Proof.
  intros from t s H1 H2 H3 H4. unfold updateMovedFlags.
  rewrite H1, H2, H3, H4. reflexivity.
Qed.

Lemma movePiece_positions : forall from to s,
    positions (execM (movePiece from to) s) =
    positions (execM (applyMechanics from to) s).
Proof.
  intros. rewrite movePiece_run. symmetry. apply recomputeStatus_sameRules.
Qed.

Lemma movePiece_rookMoved : forall from to s,
    rookMoved (execM (movePiece from to) s) =
    rookMoved (execM (applyMechanics from to) s).
Proof.
  intros. rewrite movePiece_run. symmetry. apply recomputeStatus_sameRules.
Qed.

(** ** The rook's part of castling *)

(** The state after the castling phase of a king's two-file move. *)
Lemma castleRook_king : forall from to t color s,
    (Js.toLowerCase t === "k") = true ->
    Z.abs (file to - file from) = 2 ->
    wfGrid (positions s) ->
    let homeRow := match color with white => 7 | black => 0 end in
    let rookChar := match color with white => "R" | black => "r" end in
    let s' := execM (castleRook from to t color) s in
    if file to >? file from
    then cell (positions s') homeRow 5 = rookChar /\
         cell (positions s') homeRow 7 = "" /\
         sideH (sel color (rookMoved s')) = true
    else cell (positions s') homeRow 3 = rookChar /\
         cell (positions s') homeRow 0 = "" /\
         sideA (sel color (rookMoved s')) = true.
Proof.
  intros from to t color s Hk Habs Hwf homeRow rookChar s'.
  assert (Hrow : 0 <= homeRow < 8) by (unfold homeRow; destruct color; lia).
  unfold s', castleRook. rewrite Hk. apply Z.eqb_eq in Habs. rewrite Habs.
  cbn [andb whenM]. fold homeRow. fold rookChar.
  destruct (file to >? file from).
  - rewrite !execM_seq. unfold markRookH, write, execM, modify.
    cbn [snd positions set_positions set_rookMoved rookMoved].
    repeat split.
    + rewrite cell_setCell_other by (right; lia).
      apply cell_setCell_same; [exact Hwf | apply inB_bounds; lia].
    + apply cell_setCell_same; [apply wfGrid_setCell, Hwf | apply inB_bounds; lia].
    + destruct color; reflexivity.
  - rewrite !execM_seq. unfold markRookA, write, execM, modify.
    cbn [snd positions set_positions set_rookMoved rookMoved].
    repeat split.
    + rewrite cell_setCell_other by (right; lia).
      apply cell_setCell_same; [exact Hwf | apply inB_bounds; lia].
    + apply cell_setCell_same; [apply wfGrid_setCell, Hwf | apply inB_bounds; lia].
    + destruct color; reflexivity.
Qed.

(** C10: whenever [movePiece] moves a king exactly two files, the f-file
    square (kingside) or d-file square (queenside) of the mover's home rank
    holds a rook of the mover's colour afterwards, the home corner is
    empty, and that rook's moved-flag is set; nothing is assumed about what
    stood on the corner or on the crossed square before. *)
Theorem castling_rook_unconditional : forall s from to,
    wfGrid (positions s) ->
    inB (rank to) (file to) = true ->
    (Js.toLowerCase (cell (positions s) (rank from) (file from)) === "k") = true ->
    Z.abs (file to - file from) = 2 ->
    let color := colorOf (cell (positions s) (rank from) (file from)) in
    let homeRow := match color with white => 7 | black => 0 end in
    let rookChar := match color with white => "R" | black => "r" end in
    let s' := execM (movePiece from to) s in
    if file to >? file from
    then cell (positions s') homeRow 5 = rookChar /\
         cell (positions s') homeRow 7 = "" /\
         sideH (sel color (rookMoved s')) = true
    else cell (positions s') homeRow 3 = rookChar /\
         cell (positions s') homeRow 0 = "" /\
         sideA (sel color (rookMoved s')) = true.
Proof.
  intros s from to Hwf _ Hk Habs color homeRow rookChar s'.
  unfold s'. rewrite movePiece_positions, movePiece_rookMoved, applyMechanics_run.
  fold color.
  set (t := cell (positions s) (rank from) (file from)) in *.
  set (s1 := execM (relocate from to t) (execM (enPassantStep from to t) s)).
  assert (Hwf1 : wfGrid (positions s1)).
  { unfold s1, relocate, enPassantStep, write, execM, bind, gets, whenM, modify.
    destruct (_ && _), (_ && _); cbn; repeat apply wfGrid_setCell; exact Hwf. }
  pose proof (@castleRook_king from to t color s1 Hk Habs Hwf1) as Hrook.
  cbv zeta in Hrook. fold homeRow rookChar in Hrook.
  set (s2 := execM (castleRook from to t color) s1) in *.
  assert (Hpos : positions (execM switchTurns (execM (promote to t)
                   (execM (updateMovedFlags from t) s2))) = positions s2).
  { destruct (toLowerCase_k _ Hk) as [-> | ->]; reflexivity. }
  assert (Hrm : rookMoved (execM switchTurns (execM (promote to t)
                   (execM (updateMovedFlags from t) s2))) = rookMoved s2).
  { destruct (toLowerCase_k _ Hk) as [-> | ->]; reflexivity. }
  rewrite Hpos, Hrm. exact Hrook.
Qed.

Lemma castling_rook_unconditional_witness :
  let s' := execM (movePiece (mkSq 7 4) (mkSq 7 6)) cornerless in
  cell (positions cornerless) 7 7 = "" /\
  cell (positions cornerless) 7 5 = "n" /\
  cell (positions s') 7 5 = "R" /\
  cell (positions s') 7 7 = "" /\
  sideH (sel white (rookMoved s')) = true.
Proof.
  assert (Hwf : wfGrid (positions cornerless))
    by (split; [reflexivity | repeat constructor]).
  pose proof (@castling_rook_unconditional cornerless (mkSq 7 4) (mkSq 7 6) Hwf
                eq_refl eq_refl eq_refl) as H.
  cbv zeta in H.
  change (colorOf (cell (positions cornerless) (rank (mkSq 7 4)) (file (mkSq 7 4))))
    with white in H.
  change (file (mkSq 7 6) >? file (mkSq 7 4)) with true in H.
  cbv iota in H.
  intros s'. split; [reflexivity |]. split; [reflexivity |]. exact H.
Defined.

(** ** En passant *)

Lemma enPassantStep_target : forall from to t s,
    enPassantTarget (execM (enPassantStep from to t) s) =
    if (Js.toLowerCase t === "p") && (Z.abs (rank to - rank from) =? 2)
    then Some (mkSq ((rank from + rank to) / 2) (file from))
    else None.
Proof.
  intros from to t s.
  unfold enPassantStep, execM, bind, gets, whenM, write, modify.
  destruct (_ && isTarget _ _ _), (_ && (_ =? 2)); reflexivity.
Qed.

Lemma movePiece_enPassantTarget : forall from to s,
    enPassantTarget (execM (movePiece from to) s) =
    if (Js.toLowerCase (cell (positions s) (rank from) (file from)) === "p") &&
       (Z.abs (rank to - rank from) =? 2)
    then Some (mkSq ((rank from + rank to) / 2) (file from))
    else None.
Proof.
  intros from to s. rewrite movePiece_run.
  destruct (recomputeStatus_sameRules (execM (applyMechanics from to) s))
    as (_ & _ & _ & <- & _).
  rewrite applyMechanics_run.
  change (enPassantTarget (execM switchTurns ?x)) with (enPassantTarget x).
  rewrite (keeps_exec _ (@keeps_promote _ enPassantTarget _ _ (fun _ _ => eq_refl))).
  rewrite (keeps_exec _ (@keeps_updateMovedFlags _ enPassantTarget _ _
                           (fun _ _ => eq_refl) (fun _ _ => eq_refl))).
  rewrite (keeps_exec _ (@keeps_castleRook _ enPassantTarget _ _ _ _
                           (fun _ _ => eq_refl) (fun _ _ => eq_refl))).
  rewrite (keeps_exec _ (@keeps_relocate _ enPassantTarget _ _ _ (fun _ _ => eq_refl))).
  apply enPassantStep_target.
Qed.

(** A two-rank destination of a pawn is its double step from the
    starting row. *)
Lemma pawnMoves_two : forall b ep r f type to,
    In to (pawnMoves b ep r f type) ->
    Z.abs (rank to - r) = 2 ->
    r = (if type === "P" then 6 else 1) /\
    to = mkSq (r + (if type === "P" then -1 else 1) * 2) f /\
    inB (rank to) (file to) = true.
Proof.
  intros b ep r f type to Hin Habs. unfold pawnMoves in Hin.
  set (dir := if type === "P" then -1 else 1) in *.
  assert (Hdir : dir = -1 \/ dir = 1) by (unfold dir; destruct (type === "P"); auto).
  apply in_app_or in Hin. destruct Hin as [Hin | Hin].
  { destruct (_ && _); [| contradiction].
    destruct Hin as [<- | []]. simpl in Habs. lia. }
  apply in_app_or in Hin. destruct Hin as [Hin | Hin].
  { destruct (r =? _) eqn:Er; [| contradiction].
    destruct (inB (r + dir * 2) f) eqn:Hb; [| contradiction].
    destruct (_ && _); [| contradiction].
    destruct Hin as [<- | []]. apply Z.eqb_eq in Er. auto. }
  simpl in Hin. rewrite app_nil_r in Hin.
  apply in_app_or in Hin.
  destruct Hin as [Hin | Hin]; (destruct (_ && _); [| contradiction]);
    destruct Hin as [<- | []]; simpl in Habs; lia.
Qed.

Lemma candidates_pawn : forall s from type ic,
    (Js.toLowerCase type === "p") = true ->
    evalM (candidates getLegal from type ic) s =
    pawnMoves (positions s) (enPassantTarget s) (rank from) (file from) type.
Proof.
  intros s from type ic Hp. unfold candidates, evalM, bind, gets.
  rewrite Hp. reflexivity.
Qed.

(** What a pawn move does to the grid. *)
Lemma applyMechanics_pawn : forall from to s,
    let t := cell (positions s) (rank from) (file from) in
    (Js.toLowerCase t === "p") = true ->
    positions (execM (applyMechanics from to) s) =
    positions (execM (promote to t)
                (execM (relocate from to t) (execM (enPassantStep from to t) s))).
Proof.
  intros from to s t Hp. rewrite applyMechanics_run. fold t.
  change (positions (execM switchTurns ?x)) with (positions x).
  destruct (toLowerCase_p _ Hp) as [-> | ->];
    (rewrite updateMovedFlags_other by reflexivity);
    (rewrite castleRook_other by reflexivity); reflexivity.
Qed.

Lemma isTarget_self : forall target, isTarget (Some target) (rank target) (file target) = true.
Proof. intros. unfold isTarget. rewrite !Z.eqb_refl. reflexivity. Qed.

(** The capture onto the target square: it is generated, and applying it
    empties the square on the capturer's rank and the target's file. *)
Lemma enPassant_capture : forall s cap target q,
    wfGrid (positions s) ->
    enPassantTarget s = Some target ->
    cell (positions s) (rank cap) (file cap) = q ->
    q = "P" \/ q = "p" ->
    rank target = rank cap + (if q === "P" then -1 else 1) ->
    file target = file cap + 1 \/ file target = file cap - 1 ->
    inB (rank cap) (file cap) = true ->
    inB (rank target) (file target) = true ->
    0 < rank target < 7 ->
    In target (evalM (getLegal cap q true) s) /\
    let s' := execM (movePiece cap target) s in
    cell (positions s') (rank cap) (file target) = "" /\
    cell (positions s') (rank target) (file target) = q /\
    cell (positions s') (rank cap) (file cap) = "" /\
    enPassantTarget s' = None.
Proof.
  intros s cap target q Hwf Hep Hq Hpawn Hrank Hfile Hcap Htarget Hmid.
  assert (Hlow : (Js.toLowerCase q === "p") = true)
    by (destruct Hpawn as [-> | ->]; reflexivity).
  split.
  - rewrite getLegal_attack_eq, candidates_pawn by exact Hlow.
    unfold pawnMoves. rewrite Hep.
    apply in_or_app. right. apply in_or_app. right.
    cbn [flat_map]. rewrite app_nil_r. rewrite <- Hrank.
    apply in_or_app.
    destruct Hfile as [Hf | Hf]; [right | left].
    + replace (file cap + 1) with (file target) by lia.
      rewrite Htarget, isTarget_self, orb_true_r. cbn [andb].
      destruct target; left; reflexivity.
    + replace (file cap + -1) with (file target) by lia.
      rewrite Htarget, isTarget_self, orb_true_r. cbn [andb].
      destruct target; left; reflexivity.
  - intros s'. unfold s'.
    rewrite movePiece_enPassantTarget, Hq, Hlow.
    replace (Z.abs (rank target - rank cap) =? 2) with false
      by (symmetry; apply Z.eqb_neq; destruct (q === "P"); lia).
    rewrite movePiece_positions, applyMechanics_pawn by (rewrite Hq; exact Hlow).
    rewrite Hq.
    assert (Hprom : forall x, execM (promote target q) x = x).
    { intros x. unfold promote.
      replace (rank target =? 0) with false by (symmetry; apply Z.eqb_neq; lia).
      replace (rank target =? 7) with false by (symmetry; apply Z.eqb_neq; lia).
      rewrite !andb_false_r. reflexivity. }
    rewrite Hprom.
    unfold relocate, enPassantStep, execM, bind, gets, whenM, write, modify.
    rewrite Hep, Hlow, isTarget_self. cbn [andb snd].
    destruct (Z.abs (rank target - rank cap) =? 2);
      cbn [snd positions set_positions set_enPassantTarget];
      (repeat split;
       [ rewrite cell_setCell_other by (right; lia);
         rewrite cell_setCell_other by (left; destruct (q === "P"); lia);
         apply cell_setCell_same; [exact Hwf | apply inB_bounds; apply inB_bounds in Hcap, Htarget; lia]
       | rewrite cell_setCell_other by (left; destruct (q === "P"); lia);
         apply cell_setCell_same; [apply wfGrid_setCell, Hwf | exact Htarget]
       | apply cell_setCell_same; [repeat apply wfGrid_setCell; exact Hwf | exact Hcap] ]).
Qed.

Lemma cell_inB : forall g nr nf,
    wfGrid g -> cell g nr nf <> "" -> inB nr nf = true.
Proof.
  intros g nr nf Hwf Hne. apply inB_bounds.
  unfold cell, Js.index, Js.indexRow in Hne.
  destruct (nf <? 0) eqn:Ef; [congruence |].
  destruct (nr <? 0) eqn:Er; [destruct (Z.to_nat nf); simpl in Hne; congruence |].
  destruct (Nat.lt_ge_cases (Z.to_nat nr) (List.length g)) as [Hr | Hr].
  - assert (Hrow : List.length (nth (Z.to_nat nr) g []) = 8%nat).
    { destruct Hwf as [_ Hrows]. rewrite Forall_forall in Hrows.
      apply Hrows, nth_In, Hr. }
    destruct (Nat.lt_ge_cases (Z.to_nat nf) 8) as [Hf | Hf].
    + destruct Hwf as [Hlen _]. lia.
    + rewrite nth_overflow in Hne by lia. congruence.
  - rewrite (nth_overflow g) in Hne by exact Hr.
    destruct (Z.to_nat nf); simpl in Hne; congruence.
Qed.

(** The pawn that made a double step stands on its destination. *)
Lemma double_step_lands : forall s from to,
    wfGrid (positions s) ->
    (Js.toLowerCase (cell (positions s) (rank from) (file from)) === "p") = true ->
    inB (rank to) (file to) = true ->
    rank to <> rank from ->
    0 < rank to < 7 ->
    cell (positions (execM (movePiece from to) s)) (rank to) (file to) =
    cell (positions s) (rank from) (file from).
Proof.
  intros s from to Hwf Hp Hto Hne Hmid.
  rewrite movePiece_positions, applyMechanics_pawn by exact Hp.
  set (t := cell (positions s) (rank from) (file from)).
  assert (Hprom : forall x, execM (promote to t) x = x).
  { intros x. unfold promote.
    replace (rank to =? 0) with false by (symmetry; apply Z.eqb_neq; lia).
    replace (rank to =? 7) with false by (symmetry; apply Z.eqb_neq; lia).
    rewrite !andb_false_r. reflexivity. }
  rewrite Hprom.
  unfold relocate, enPassantStep, execM, bind, gets, whenM, write, modify.
  destruct (_ && isTarget _ _ _), (_ && (_ =? 2));
    cbn [snd positions set_positions set_enPassantTarget];
    (rewrite cell_setCell_other by (left; lia));
    apply cell_setCell_same; try exact Hto;
    repeat apply wfGrid_setCell; exact Hwf.
Qed.

(** C4: after any [movePiece] the en-passant target is the square between
    origin and destination exactly when a pawn moved two ranks, and empty
    otherwise.  After a legal double step, an opposing pawn standing next
    to the advanced pawn on its rank has the target square in its
    attack-pattern moves, and in its legal moves exactly when the capture
    passes the king-safety filter; applying the capture empties the square
    on the capturer's rank and the target's file, where the advanced pawn
    stood, puts the capturer on the target and clears the target again. *)
Theorem enPassant_window : forall s from to,
    let t := cell (positions s) (rank from) (file from) in
    let twoRanks := (Js.toLowerCase t === "p") && (Z.abs (rank to - rank from) =? 2) in
    let target := mkSq ((rank from + rank to) / 2) (file from) in
    let s' := execM (movePiece from to) s in
    enPassantTarget s' = (if twoRanks then Some target else None) /\
    forall d,
      wfGrid (positions s) ->
      twoRanks = true ->
      In to (evalM (getLegal from t false) s) ->
      d = 1 \/ d = -1 ->
      let cap := mkSq (rank to) (file to + d) in
      let q := if t === "P" then "p" else "P" in
      cell (positions s') (rank cap) (file cap) = q ->
      cell (positions s') (rank to) (file to) = t /\
      In target (evalM (getLegal cap q true) s') /\
      (In target (evalM (getLegal cap q false) s') <->
       leavesKingInCheck s' cap q target = false) /\
      let s'' := execM (movePiece cap target) s' in
      (rank cap, file target) = (rank to, file to) /\
      cell (positions s'') (rank cap) (file target) = "" /\
      cell (positions s'') (rank target) (file target) = q /\
      cell (positions s'') (rank cap) (file cap) = "" /\
      enPassantTarget s'' = None.
Proof.
  intros s from to t twoRanks target s'.
  assert (Hep : enPassantTarget s' = (if twoRanks then Some target else None))
    by apply movePiece_enPassantTarget.
  split; [exact Hep |].
  intros d Hwf Htwo Hlegal Hd cap q Hcap.
  rewrite Htwo in Hep.
  apply andb_true_iff in Htwo. destruct Htwo as [Hp Habs].
  apply Z.eqb_eq in Habs.
  rewrite getLegal_filter_eq in Hlegal. apply filter_In in Hlegal.
  destruct Hlegal as [Hcand _].
  rewrite candidates_pawn in Hcand by exact Hp.
  destruct (pawnMoves_two _ _ _ _ _ _ Hcand Habs) as (Hsr & Hto & HinB).
  assert (Hwf' : wfGrid (positions s')) by (apply wfGrid_movePiece, Hwf).
  assert (HcapB : inB (rank cap) (file cap) = true).
  { apply (cell_inB _ _ Hwf'). rewrite Hcap. unfold q.
    destruct (t === "P"); discriminate. }
  assert (Hfacts : rank target = rank cap + (if q === "P" then -1 else 1) /\
                   file to = file from /\ 0 < rank target < 7 /\
                   0 < rank to < 7 /\ rank to <> rank from /\
                   (q = "P" \/ q = "p")).
  { unfold target, cap, q. cbn [rank file]. rewrite Hto. cbn [rank file].
    destruct (toLowerCase_p _ Hp) as [Ht | Ht]; fold t in Ht; rewrite Ht in *;
      cbn in Hsr |- *; rewrite Hsr; cbn;
      repeat match goal with |- _ /\ _ => split end; try lia; auto. }
  destruct Hfacts as (Hrank & Hfile & Hmid & Hmid' & Hne & Hq).
  assert (HtargetB : inB (rank target) (file target) = true).
  { apply inB_bounds. apply inB_bounds in HinB.
    pose proof Hmid as Hm. unfold target in Hm |- *. cbn [rank file] in Hm |- *. lia. }
  assert (Hcapture := @enPassant_capture s' cap target q Hwf' Hep Hcap Hq Hrank).
  destruct Hcapture as [Hgen Hafter]; auto.
  { unfold cap, target. cbn [rank file]. destruct Hd; subst d; lia. }
  split; [apply double_step_lands; auto |].
  split; [exact Hgen |].
  split; [apply legal_iff_safe, Hgen |].
  intros s''. split; [unfold cap, target; cbn [rank file]; congruence |].
  exact Hafter.
Qed.

Lemma enPassant_window_witness :
  let s' := execM (movePiece (mkSq 6 4) (mkSq 4 4)) beforeDouble in
  let s'' := execM (movePiece (mkSq 4 3) (mkSq 5 4)) s' in
  enPassantTarget s' = Some (mkSq 5 4) /\
  cell (positions s') 4 4 = "P" /\
  In (mkSq 5 4) (evalM (getLegal (mkSq 4 3) "p" false) s') /\
  cell (positions s'') 4 4 = "" /\
  cell (positions s'') 5 4 = "p" /\
  cell (positions s'') 4 3 = "" /\
  enPassantTarget s'' = None.
Proof.
  assert (Hwf : wfGrid (positions beforeDouble))
    by (split; [reflexivity | repeat constructor]).
  assert (Hlegal : In (mkSq 4 4)
                      (evalM (getLegal (mkSq 6 4) "P" false) beforeDouble))
    by (vm_compute; auto).
  destruct (enPassant_window beforeDouble (mkSq 6 4) (mkSq 4 4)) as [Hep Hcap].
  specialize (Hcap (-1) Hwf eq_refl Hlegal (or_intror eq_refl)).
  cbv zeta in Hcap. specialize (Hcap ltac:(vm_compute; reflexivity)).
  destruct Hcap as (Hland & Hgen & Hiff & _ & He & Ht & Hc & Hn).
  intros s' s''.
  split; [exact Hep |].
  split; [exact Hland |].
  split; [apply Hiff; vm_compute; reflexivity |].
  repeat split; assumption.
Defined.

(** C8: [getLegal] (with either value of [ignoreCheck]), [isInCheck] and
    [isAttacked] return the object exactly as they received it: grid, side
    to move, castling flags, en-passant target and status.  The filter's
    assignments to [this.positions] (see [keepsKingSafe]) cancel out before
    the call returns. *)
Theorem queries_restore_state : forall s from type ignoreCheck color r f attacker,
    execM (getLegal from type ignoreCheck) s = s /\
    execM (isInCheck color) s = s /\
    execM (isAttacked r f attacker) s = s.
Proof.
  intros s from type ignoreCheck color r f attacker. unfold execM.
  repeat split.
  - apply (pure_getLegal from type ignoreCheck s).
  - apply (pure_isInCheck color s).
  - apply (pure_isAttacked r f attacker s).
Qed.

(** The filter does run [isInCheck] on another grid than the caller's. *)
Example filter_swaps_grid :
  relocated (positions pinnedPawn) 1 5 (mkSq 2 5) <> positions pinnedPawn /\
  evalM (isInCheck black) pinnedPawn = false /\
  evalM (isInCheck black)
        (set_positions (relocated (positions pinnedPawn) 1 5 (mkSq 2 5)) pinnedPawn)
  = true.
Proof. split; [discriminate | split; vm_compute; reflexivity]. Qed.

(** ** Restart *)

Lemma movePiece_currentDrag : forall from to s,
    currentDrag (execM (movePiece from to) s) = currentDrag s.
Proof.
  intros. rewrite movePiece_run, recomputeStatus_currentDrag.
  apply (@applyMechanics_untouched _ currentDrag); reflexivity.
Qed.

Lemma applyAll_currentDrag : forall ms s,
    currentDrag (applyAll ms s) = currentDrag s.
Proof.
  induction ms as [| [from to] rest IH]; intros s; simpl; [reflexivity |].
  rewrite IH. apply movePiece_currentDrag.
Qed.

Lemma restart_run : forall s,
    execM restart s = set_currentDrag (currentDrag s) constructor.
Proof. intros s. reflexivity. Qed.

(** C9: [restart] from any state gives the standard initial grid, no
    king-moved or rook-moved flag set, no en-passant target, white to move
    and no game-over status; after any sequence of [movePiece] calls on a
    fresh game the result is equal to the freshly constructed object. *)
Theorem restart_is_fresh :
  (forall s,
      let s' := execM restart s in
      positions s' = initialPositions /\
      kingMoved s' = mkByColor false false /\
      rookMoved s' = mkByColor (mkBySide false false) (mkBySide false false) /\
      enPassantTarget s' = None /\
      turn s' = white /\
      status s' = (false, None, None)) /\
  (forall ms, execM restart (applyAll ms constructor) = constructor).
Proof.
  split.
  - intros s s'. unfold s'. rewrite restart_run. repeat split.
  - intros ms. rewrite restart_run, applyAll_currentDrag. reflexivity.
Qed.

Example restart_after_mate : execM restart foolsMate = constructor.
Proof. reflexivity. Qed.

(** ** The handlers after the game is over *)

Lemma press_run : forall sq s,
    execM (press sq) s = s \/
    (gameOver s = false /\
     exists type, execM (press sq) s = set_currentDrag (Some (sq, type)) s).
Proof.
  intros [r f] s. unfold press, execM, bind, gets. cbn [rank file].
  destruct (Js.truthy (cell (positions s) r f)); [| left; reflexivity].
  unfold _onMouseDown, bind, gets.
  destruct (gameOver s) eqn:Hover; [left; reflexivity |].
  destruct (negb _); [left; reflexivity |].
  rewrite (pureM_run s (pure_getLegal _ _ _)).
  destruct (evalM _ s); [left; reflexivity |].
  right. split; [reflexivity |]. eexists. reflexivity.
Qed.

Lemma press_gameOver : forall sq s,
    gameOver s = true -> execM (press sq) s = s.
Proof.
  intros sq s Hover. destruct (press_run sq s) as [H | [H _]]; [exact H | congruence].
Qed.

Lemma onMouseUp_idle : forall to s,
    currentDrag s = None -> execM (_onMouseUp to) s = s.
Proof.
  intros to s Hdrag. unfold _onMouseUp, execM, bind, gets. rewrite Hdrag. reflexivity.
Qed.

Lemma onMouseUp_drops : forall to s,
    currentDrag s <> None -> currentDrag (execM (_onMouseUp to) s) = None.
Proof.
  intros to s Hdrag. unfold _onMouseUp, execM, bind, gets.
  destruct (currentDrag s) as [[from alt] |]; [| congruence].
  rewrite (pureM_run s (pure_getLegal _ _ _)).
  destruct (whenM _ _ s). reflexivity.
Qed.

Lemma handle_press : forall sq s, execM (handle (Press sq)) s = execM (press sq) s.
Proof. intros. unfold handle. rewrite execM_seq. reflexivity. Qed.

Lemma handle_settled : forall e s, settled s -> settled (execM (handle e) s).
Proof.
  intros [sq | to |] s Hs.
  - rewrite handle_press.
    destruct (press_run sq s) as [-> | (Hover & type & ->)]; [exact Hs |].
    intros H. simpl in H. congruence.
  - change (execM (handle (Release to)) s) with (execM (_onMouseUp to) s).
    destruct (currentDrag s) eqn:Hdrag.
    + intros _. apply onMouseUp_drops. congruence.
    + rewrite onMouseUp_idle by exact Hdrag. exact Hs.
  - intros H. discriminate H.
Qed.

Lemma handleAll_settled : forall es s, settled s -> settled (handleAll es s).
Proof.
  induction es as [| e rest IH]; intros s Hs; simpl; [exact Hs |].
  apply IH, handle_settled, Hs.
Qed.

Lemma handleAll_frozen : forall es s,
    gameOver s = true -> currentDrag s = None ->
    forallb (fun e => negb (isRestart e)) es = true ->
    handleAll es s = s.
Proof.
  induction es as [| e rest IH]; intros s Hover Hdrag Hes; simpl; [reflexivity |].
  simpl in Hes. apply andb_true_iff in Hes. destruct Hes as [He Hrest].
  assert (Hstep : execM (handle e) s = s).
  { destruct e as [sq | to |]; [| | discriminate He].
    - rewrite handle_press. apply (press_gameOver sq s Hover).
    - apply onMouseUp_idle, Hdrag. }
  rewrite Hstep. apply IH; assumption.
Qed.

(** C5, as the code has it: [movePiece] itself has no game-over guard.  On
    the checkmated position of the fool's mate it still moves the pawn
    from a2 to a3 and passes the turn. *)
Lemma movePiece_applies_after_checkmate :
  play (foolsGame ++ [mv 0 3 4 7]) constructor = Some foolsMate /\
  status foolsMate = (true, Some "checkmate", Some (mkSq 7 4)) /\
  cell (positions (execM (movePiece (mkSq 6 0) (mkSq 5 0)) foolsMate)) 5 0 = "P" /\
  turn (execM (movePiece (mkSq 6 0) (mkSq 5 0)) foolsMate) = black /\
  execM (movePiece (mkSq 6 0) (mkSq 5 0)) foolsMate <> foolsMate.
Proof.
  split; [vm_compute; reflexivity |].
  split; [vm_compute; reflexivity |].
  split; [vm_compute; reflexivity |].
  split; [vm_compute; reflexivity |].
  intros H. apply (f_equal turn) in H. vm_compute in H. discriminate H.
Qed.

(** C5, amended: in a game driven through the pointer handlers, once
    [gameOver] is set every attempted drag from any square to any square,
    and every sequence of presses and releases, leaves the whole state
    unchanged, until [restart] reinitialises it to the fresh object. *)
Theorem handlers_frozen_after_gameOver : forall es s,
    s = handleAll es constructor ->
    gameOver s = true ->
    (forall from to, execM (dragDrop from to) s = s) /\
    (forall es', forallb (fun e => negb (isRestart e)) es' = true ->
                 handleAll es' s = s) /\
    execM restart s = constructor.
Proof.
  intros es s Hs Hover.
  assert (Hdrag : currentDrag s = None).
  { subst s. apply (handleAll_settled es); [discriminate | exact Hover]. }
  split; [| split].
  - intros from to. unfold dragDrop. rewrite execM_seq.
    rewrite press_gameOver by exact Hover. apply onMouseUp_idle, Hdrag.
  - intros es' Hes'. apply handleAll_frozen; assumption.
  - rewrite restart_run, Hdrag. reflexivity.
Qed.

Lemma handlers_frozen_after_gameOver_witness :
  foolsMate = handleAll (drags (foolsGame ++ [mv 0 3 4 7])) constructor /\
  gameOver foolsMate = true /\
  execM (dragDrop (mkSq 6 0) (mkSq 5 0)) foolsMate = foolsMate /\
  execM restart foolsMate = constructor.
Proof.
  assert (Hs : foolsMate = handleAll (drags (foolsGame ++ [mv 0 3 4 7])) constructor)
    by (vm_compute; reflexivity).
  assert (Hover : gameOver foolsMate = true) by reflexivity.
  destruct (handlers_frozen_after_gameOver _ Hs Hover) as (Hdrag & _ & Hrestart).
  split; [exact Hs |]. split; [exact Hover |].
  split; [apply Hdrag | exact Hrestart].
Defined.

(** ** Counting moves *)

(** Pressing on a piece of the side not to move generates nothing. *)
Lemma press_wrong_turn : forall sq s,
    colorOf (cell (positions s) (rank sq) (file sq)) <> turn s ->
    press sq s = ([], s).
Proof.
  intros sq s Hc. unfold press, bind, gets.
  destruct (Js.truthy _); [| reflexivity].
  unfold _onMouseDown, bind, gets.
  destruct (gameOver s); [reflexivity |].
  destruct (colorEqb _ (turn s)) eqn:E; [| reflexivity].
  exfalso. apply Hc.
  destruct (colorOf _), (turn s); try reflexivity; discriminate E.
Qed.

(** C6: in the standard starting position [getLegal] returns 20 moves for
    the white pieces, 16 by pawns and 4 by knights, all different.  The
    handlers generate exactly these and nothing for a black piece while it
    is white's turn; after each of the 20 moves it is black's turn and the
    handlers generate black's 20 moves and nothing for white. *)
Theorem initial_legality_count :
  let ms := allLegal white constructor in
  List.length ms = 20%nat /\
  NoDup ms /\
  List.length (filter (fun m => movedLetter constructor m === "P") ms) = 16%nat /\
  List.length (filter (fun m => movedLetter constructor m === "N") ms) = 4%nat /\
  shown constructor = ms /\
  (forall sq,
      colorOf (cell (positions constructor) (rank sq) (file sq)) = black ->
      press sq constructor = ([], constructor)) /\
  (forall m, In m ms ->
      let s1 := execM (dragDrop (fst m) (snd m)) constructor in
      turn s1 = black /\
      shown s1 = allLegal black s1 /\
      List.length (shown s1) = 20%nat).
Proof.
  intros ms.
  split; [vm_compute; reflexivity |].
  split.
  { vm_compute. repeat (constructor; [simpl; intuition discriminate |]). constructor. }
  split; [vm_compute; reflexivity |].
  split; [vm_compute; reflexivity |].
  split; [vm_compute; reflexivity |].
  split.
  { intros sq Hc. apply press_wrong_turn. rewrite Hc. discriminate. }
  assert (Hall : Forall (fun m =>
            let s1 := execM (dragDrop (fst m) (snd m)) constructor in
            turn s1 = black /\ shown s1 = allLegal black s1 /\
            List.length (shown s1) = 20%nat) ms).
  { let l := eval vm_compute in ms in change ms with l.
    repeat (constructor; [vm_compute; repeat split |]). constructor. }
  rewrite Forall_forall in Hall. exact Hall.
Qed.

(** [getLegal] itself does not look at the turn. *)
Example getLegal_ignores_turn :
  turn constructor = white /\ List.length (allLegal black constructor) = 20%nat.
Proof. split; vm_compute; reflexivity. Qed.

Lemma initial_legality_count_witness :
  press (mkSq 1 4) constructor = ([], constructor) /\
  turn (execM (dragDrop (mkSq 6 4) (mkSq 4 4)) constructor) = black /\
  List.length (shown (execM (dragDrop (mkSq 6 4) (mkSq 4 4)) constructor)) = 20%nat.
Proof.
  pose proof initial_legality_count as H. cbv zeta in H.
  destruct H as (_ & _ & _ & _ & _ & Hblack & Hafter).
  split; [apply Hblack; reflexivity |].
  assert (Hin : In (mv 6 4 4 4) (allLegal white constructor))
    by (vm_compute; repeat first [left; reflexivity | right]).
  destruct (Hafter _ Hin) as (Hturn & _ & Hlen).
  split; [exact Hturn | exact Hlen].
Defined.

(** ** The castling block *)

Lemma evalM_andM : forall (c : bool) (m : M bool) (s : Chess),
    evalM (andM c m) s = c && evalM m s.
Proof. intros [] m s; reflexivity. Qed.

Ltac pure_tac :=
  unfold pureM;
  repeat match goal with
         | |- preserves _ (isInCheckWith getLegal _) => apply pure_isInCheck
         | |- preserves _ (isAttackedWith getLegal _ _ _) => apply pure_isAttacked
         | |- preserves _ (isInCheck _) => apply pure_isInCheck
         | |- preserves _ (isAttacked _ _ _) => apply pure_isAttacked
         | |- preserves _ (getLegal _ _ _) => apply pure_getLegal
         | |- preserves _ (findKing _) => apply pure_findKing
         | |- preserves _ (castlingMoves getLegal _ _ _ _) =>
             apply pure_castlingMoves; intros; apply pure_getLegal
         | _ => pres_step
         end.

Lemma evalM_notAttacked : forall s r f1 f2 enemy,
    evalM (a1 <- isAttackedWith getLegal r f1 enemy ;;
           andM (negb a1)
                (a2 <- isAttackedWith getLegal r f2 enemy ;; ret (negb a2))) s =
    negb (evalM (isAttacked r f1 enemy) s) && negb (evalM (isAttacked r f2 enemy) s).
Proof.
  intros. rewrite evalM_bind by pure_tac. rewrite evalM_andM.
  rewrite evalM_bind by pure_tac. reflexivity.
Qed.

(** The castling block, evaluated. *)
Lemma evalM_castlingMoves : forall s r f type,
    let color := if type === "K" then white else black in
    evalM (castlingMoves getLegal (positions s) r f type) s =
    if castleReady s color
    then (if shortOpen s r f color then [mkSq r (f + 2)] else []) ++
         (if longOpen s r f color then [mkSq r (f - 2)] else [])
    else [].
Proof.
  intros s r f type color. unfold castlingMoves. fold color.
  rewrite evalM_bind by pure_tac. rewrite evalM_bind by pure_tac.
  rewrite evalM_andM. rewrite evalM_bind by pure_tac.
  change (negb (sel color (evalM (gets kingMoved) s)) &&
          evalM (ret (negb (evalM (isInCheckWith getLegal color) s))) s)
    with (castleReady s color).
  destruct (castleReady s color); [| reflexivity].
  rewrite evalM_bind by pure_tac. rewrite evalM_bind by pure_tac.
  rewrite evalM_andM, evalM_notAttacked.
  rewrite evalM_bind by pure_tac. rewrite evalM_bind by pure_tac.
  rewrite evalM_andM, evalM_notAttacked.
  reflexivity.
Qed.

Lemma kingSteps_near : forall b r f type to,
    In to (kingSteps b r f type) -> f - 1 <= file to <= f + 1.
Proof.
  intros b r f type to Hin. unfold kingSteps in Hin. cbn [flat_map] in Hin.
  rewrite !app_nil_r in Hin.
  repeat (apply in_app_or in Hin; destruct Hin as [Hin | Hin]);
    cbn in Hin;
    try (destruct (inB _ _ && _); [destruct Hin as [<- | []]; cbn; lia | contradiction]);
    try contradiction.
Qed.

(** What the code asks of a castling move to the king's side: the king and
    the h-rook flags are unset, the king is not in check, the next two
    squares of the rank are empty and not attacked according to
    [isAttacked], and the king is not in check on the scratch grid. *)
Lemma kingside_castling_iff : forall s r f type,
    (Js.toLowerCase type === "k") = true ->
    let color := if type === "K" then white else black in
    In (mkSq r (f + 2)) (evalM (getLegal (mkSq r f) type false) s) <->
    castleReady s color = true /\
    shortOpen s r f color = true /\
    leavesKingInCheck s (mkSq r f) type (mkSq r (f + 2)) = false.
Proof.
  intros s r f type Hk color.
  rewrite getLegal_filter_eq, filter_In.
  unfold candidates. rewrite evalM_bind by pure_tac.
  change (evalM (gets positions) s) with (positions s).
  assert (Hp : (Js.toLowerCase type === "p") = false)
    by (destruct (toLowerCase_k _ Hk) as [-> | ->]; reflexivity).
  assert (Hn : (Js.toLowerCase type === "n") = false)
    by (destruct (toLowerCase_k _ Hk) as [-> | ->]; reflexivity).
  rewrite Hp, Hn, Hk. cbn [negb rank file].
  rewrite evalM_bind by pure_tac.
  change (evalM (ret ?x) s) with x.
  rewrite evalM_castlingMoves. fold color.
  rewrite in_app_iff.
  split.
  - intros [[Hstep | Hcastle] Hsafe].
    + apply kingSteps_near in Hstep. cbn [file] in Hstep. lia.
    + destruct (castleReady s color); [| contradiction].
      apply in_app_or in Hcastle. destruct Hcastle as [Hc | Hc].
      * destruct (shortOpen s r f color); [| contradiction].
        repeat split. destruct (leavesKingInCheck _ _ _ _); [discriminate | reflexivity].
      * destruct (longOpen s r f color); [| contradiction].
        destruct Hc as [Hc | []]. injection Hc as Hc. lia.
  - intros (Hready & Hshort & Hsafe). rewrite Hready, Hshort, Hsafe.
    split; [| reflexivity]. right. apply in_or_app. left. left. reflexivity.
Qed.

(** ** Castling past a pawn *)

(** C1, at a position reached by legal play (and by dragging the pieces):
    the white king and the h1
    rook have not moved, f1 and g1 are empty, white is not in check, and a
    black pawn on e2 bears on f1: the king may not step to f1, and a
    white bishop put on f1 is attacked.  [isAttacked] nevertheless answers
    false for the empty f1, and the castling destination g1 is among the
    king's legal moves. *)
Lemma castling_through_pawn_attack :
  play pawnE2Game constructor = Some pawnOnE2 /\
  reachable pawnOnE2 /\
  handleAll (drags pawnE2Game) constructor = pawnOnE2 /\
  turn pawnOnE2 = white /\
  cell (positions pawnOnE2) 7 4 = "K" /\
  cell (positions pawnOnE2) 7 7 = "R" /\
  cell (positions pawnOnE2) 6 4 = "p" /\
  ofW (kingMoved pawnOnE2) = false /\
  sideH (ofW (rookMoved pawnOnE2)) = false /\
  isEmp (positions pawnOnE2) 7 5 = true /\
  isEmp (positions pawnOnE2) 7 6 = true /\
  evalM (isInCheck white) pawnOnE2 = false /\
  leavesKingInCheck pawnOnE2 (mkSq 7 4) "K" (mkSq 7 5) = true /\
  ~ In (mkSq 7 5) (evalM (getLegal (mkSq 7 4) "K" false) pawnOnE2) /\
  evalM (isAttacked 7 5 black)
        (set_positions (setCell 7 5 "B" (positions pawnOnE2)) pawnOnE2) = true /\
  evalM (isAttacked 7 5 black) pawnOnE2 = false /\
  evalM (isAttacked 7 6 black) pawnOnE2 = false /\
  In (mkSq 7 6) (evalM (getLegal (mkSq 7 4) "K" false) pawnOnE2) /\
  legalFor pawnOnE2 (mkSq 7 4) (mkSq 7 6) = true.
Proof.
  assert (Hplay : play pawnE2Game constructor = Some pawnOnE2)
    by (vm_compute; reflexivity).
  split; [exact Hplay |].
  split; [exact (play_reachable _ reach_init Hplay) |].
  do 11 (split; [vm_compute; reflexivity |]).
  split; [vm_compute; intuition discriminate |].
  do 3 (split; [vm_compute; reflexivity |]).
  split; [vm_compute; auto | vm_compute; reflexivity].
Qed.

Example castling_stopped_by_filter :
  play pawnH2Game constructor = Some pawnOnH2 /\
  cell (positions pawnOnH2) 6 7 = "p" /\
  evalM (isInCheck white) pawnOnH2 = false /\
  evalM (isAttacked 7 5 black) pawnOnH2 = false /\
  evalM (isAttacked 7 6 black) pawnOnH2 = false /\
  leavesKingInCheck pawnOnH2 (mkSq 7 4) "K" (mkSq 7 6) = true /\
  ~ In (mkSq 7 6) (evalM (getLegal (mkSq 7 4) "K" false) pawnOnH2).
Proof.
  do 6 (split; [vm_compute; reflexivity |]).
  vm_compute. intuition discriminate.
Qed.

(** ** A king is captured *)

(** C7, at a position reached by legal moves of the side to move only
    (and by dragging the pieces): after the en-passant capture the black king is in check with white to
    move, the queen's capture of the king is among white's legal moves,
    and applying it leaves a grid without a black king. *)
Lemma king_captured_after_en_passant :
  play exposedGame constructor = Some exposed /\
  reachable exposed /\
  countPiece "k" (positions exposed) = 1%nat /\
  countPiece "K" (positions exposed) = 1%nat /\
  turn exposed = white /\
  evalM (isInCheck black) exposed = true /\
  cell (positions exposed) 4 7 = "k" /\
  legalFor exposed (mkSq 4 0) (mkSq 4 7) = true /\
  execM (movePiece (mkSq 4 0) (mkSq 4 7)) exposed = kingless /\
  reachable kingless /\
  handleAll (drags (exposedGame ++ [mv 4 0 4 7])) constructor = kingless /\
  countPiece "k" (positions kingless) = 0%nat /\
  gameOver kingless = false.
Proof.
  assert (Hplay : play exposedGame constructor = Some exposed)
    by (vm_compute; reflexivity).
  assert (Hlegal : legalFor exposed (mkSq 4 0) (mkSq 4 7) = true)
    by (vm_compute; reflexivity).
  assert (Hmove : execM (movePiece (mkSq 4 0) (mkSq 4 7)) exposed = kingless)
    by (vm_compute; reflexivity).
  assert (Hreach : reachable exposed) by exact (play_reachable _ reach_init Hplay).
  split; [exact Hplay |]. split; [exact Hreach |].
  split; [vm_compute; reflexivity |]. split; [vm_compute; reflexivity |].
  split; [vm_compute; reflexivity |]. split; [vm_compute; reflexivity |].
  split; [vm_compute; reflexivity |].
  split; [exact Hlegal |]. split; [exact Hmove |].
  split; [rewrite <- Hmove; apply reach_move; assumption |].
  split; [vm_compute; reflexivity |].
  split; vm_compute; reflexivity.
Qed.

(** * Further properties of the engine *)

(** ** What [getLegal] returns, kind by kind *)

(** The candidates of each section of [getLegal], evaluated. *)
Lemma candidates_eval : forall s from type ic,
    evalM (candidates getLegal from type ic) s =
    let b := positions s in
    let r := rank from in
    let f := file from in
    let lower := Js.toLowerCase type in
    if lower === "p" then pawnMoves b (enPassantTarget s) r f type
    else if lower === "n" then knightMoves b r f type
    else if lower === "k" then
      kingSteps b r f type ++
      (if ic then [] else evalM (castlingMoves getLegal b r f type) s)
    else slideMoves b r f type lower.
Proof.
  intros s from type ic. unfold candidates.
  rewrite evalM_bind by pure_tac.
  change (evalM (gets positions) s) with (positions s). cbv zeta.
  destruct (Js.toLowerCase type === "p"); [reflexivity |].
  destruct (Js.toLowerCase type === "n"); [reflexivity |].
  destruct (Js.toLowerCase type === "k"); [| reflexivity].
  rewrite evalM_bind by (destruct ic; pure_tac).
  destruct ic; reflexivity.
Qed.

(** Every move returned is one of the candidates. *)
Lemma getLegal_candidate : forall s from type ic to,
    In to (evalM (getLegal from type ic) s) ->
    In to (evalM (candidates getLegal from type ic) s).
Proof.
  intros s from type [|] to Hin.
  - rewrite getLegal_attack_eq in Hin. exact Hin.
  - rewrite getLegal_filter_eq in Hin. apply filter_In in Hin. apply Hin.
Qed.

Lemma pawnMoves_ok : forall b ep r f type to,
    In to (pawnMoves b ep r f type) ->
    inB (rank to) (file to) = true /\
    (isEmp b (rank to) (file to) || isEnemy b type (rank to) (file to) ||
     isTarget ep (rank to) (file to)) = true.
Proof.
  intros b ep r f type to Hin. unfold pawnMoves in Hin.
  apply in_app_or in Hin. destruct Hin as [Hin | Hin].
  { destruct (inB _ f) eqn:Hb; [| contradiction].
    destruct (isEmp b _ f) eqn:He; [| contradiction].
    destruct Hin as [<- | []]. cbn [rank file]. rewrite Hb, He. auto. }
  apply in_app_or in Hin. destruct Hin as [Hin | Hin].
  { destruct (r =? _); [| contradiction].
    destruct (inB (r + _ * 2) f) eqn:Hb; [| contradiction].
    destruct (isEmp b (r + (if type === "P" then -1 else 1)) f); [| contradiction].
    destruct (isEmp b (r + _ * 2) f) eqn:He; [| contradiction].
    destruct Hin as [<- | []]. cbn [rank file]. rewrite Hb, He. auto. }
  apply in_flat_map in Hin. destruct Hin as (df & _ & Hin).
  destruct (inB _ (f + df)) eqn:Hb; [| contradiction].
  destruct (isEnemy b type _ (f + df) || isTarget ep _ (f + df)) eqn:Ho;
    [| contradiction].
  destruct Hin as [<- | []]. cbn [rank file]. rewrite Hb. split; [reflexivity |].
  rewrite <- orb_assoc, Ho. apply orb_true_r.
Qed.

Lemma knightMoves_ok : forall b r f type to,
    In to (knightMoves b r f type) ->
    inB (rank to) (file to) = true /\
    (isEmp b (rank to) (file to) || isEnemy b type (rank to) (file to)) = true.
Proof.
  intros b r f type to Hin. unfold knightMoves in Hin.
  apply in_flat_map in Hin. destruct Hin as (d & _ & Hin).
  destruct (inB _ _) eqn:Hb; [| contradiction].
  destruct (isEmp b _ _ || isEnemy b type _ _) eqn:Ho; [| contradiction].
  destruct Hin as [<- | []]. cbn [rank file]. auto.
Qed.

Lemma kingSteps_ok : forall b r f type to,
    In to (kingSteps b r f type) ->
    inB (rank to) (file to) = true /\
    (isEmp b (rank to) (file to) || isEnemy b type (rank to) (file to)) = true.
Proof.
  intros b r f type to Hin. unfold kingSteps in Hin.
  apply in_flat_map in Hin. destruct Hin as (dr & _ & Hin).
  apply in_flat_map in Hin. destruct Hin as (df & _ & Hin).
  destruct (negb (dr =? 0) || negb (df =? 0)); [| contradiction].
  destruct (inB _ _) eqn:Hb; [| contradiction].
  destruct (isEmp b _ _ || isEnemy b type _ _) eqn:Ho; [| contradiction].
  destruct Hin as [<- | []]. cbn [rank file]. auto.
Qed.

Lemma ray_ok : forall fuel b type nr nf dr df to,
    In to (ray fuel b type nr nf dr df) ->
    inB (rank to) (file to) = true /\
    (isEmp b (rank to) (file to) || isEnemy b type (rank to) (file to)) = true.
Proof.
  induction fuel as [| fuel IH]; intros b type nr nf dr df to Hin; simpl in Hin.
  - contradiction.
  - destruct (inB nr nf) eqn:Hb; [| contradiction].
    destruct (isEmp b nr nf) eqn:He.
    + destruct Hin as [<- | Hin].
      * cbn [rank file]. rewrite Hb, He. auto.
      * apply (IH _ _ _ _ _ _ _ Hin).
    + destruct (isEnemy b type nr nf) eqn:Hen; [| contradiction].
      destruct Hin as [<- | []]. cbn [rank file]. rewrite Hb, Hen.
      split; [reflexivity | apply orb_true_r].
Qed.

Lemma slideMoves_ok : forall b r f type lower to,
    In to (slideMoves b r f type lower) ->
    inB (rank to) (file to) = true /\
    (isEmp b (rank to) (file to) || isEnemy b type (rank to) (file to)) = true.
Proof.
  intros b r f type lower to Hin. unfold slideMoves in Hin.
  apply in_flat_map in Hin. destruct Hin as (d & _ & Hin).
  apply (ray_ok _ _ _ _ _ _ _ _ Hin).
Qed.

(** The castling destinations are empty squares of the king's rank. *)
Lemma castlingMoves_ok : forall s r f type to,
    In to (evalM (castlingMoves getLegal (positions s) r f type) s) ->
    rank to = r /\
    (file to = f + 2 /\ inB r (f + 2) = true \/
     file to = f - 2 /\ inB r (f - 3) = true) /\
    isEmp (positions s) (rank to) (file to) = true.
Proof.
  intros s r f type to Hin. rewrite evalM_castlingMoves in Hin. cbv zeta in Hin.
  destruct (castleReady s _); [| contradiction].
  apply in_app_or in Hin. destruct Hin as [Hin | Hin].
  - destruct (shortOpen s r f _) eqn:Ho; [| contradiction].
    destruct Hin as [<- | []]. cbn [rank file].
    unfold shortOpen in Ho. rewrite !andb_true_iff in Ho.
    destruct Ho as [[[[_ Hb] _] He] _]. auto.
  - destruct (longOpen s r f _) eqn:Ho; [| contradiction].
    destruct Hin as [<- | []]. cbn [rank file].
    unfold longOpen in Ho. rewrite !andb_true_iff in Ho.
    destruct Ho as [[[[[_ Hb] _] He] _] _]. auto.
Qed.

(** Every destination lies on the board when the origin does. *)
Lemma getLegal_inB : forall s from type ic to,
    inB (rank from) (file from) = true ->
    In to (evalM (getLegal from type ic) s) ->
    inB (rank to) (file to) = true.
Proof.
  intros s from type ic to Hfrom Hin.
  apply getLegal_candidate in Hin. rewrite candidates_eval in Hin. cbv zeta in Hin.
  destruct (Js.toLowerCase type === "p"); [apply (pawnMoves_ok _ _ _ _ _ _ Hin) |].
  destruct (Js.toLowerCase type === "n"); [apply (knightMoves_ok _ _ _ _ _ Hin) |].
  destruct (Js.toLowerCase type === "k"); [| apply (slideMoves_ok _ _ _ _ _ _ Hin)].
  apply in_app_or in Hin. destruct Hin as [Hin | Hin].
  - apply (kingSteps_ok _ _ _ _ _ Hin).
  - destruct ic; [contradiction |].
    apply castlingMoves_ok in Hin. destruct Hin as (Hr & Hf & _).
    apply inB_bounds. apply inB_bounds in Hfrom.
    destruct Hf as [[Hf Hb] | [Hf Hb]]; apply inB_bounds in Hb; lia.
Qed.

(** X1: called on a square of the board, [getLegal] returns squares of the
    board only, with either value of [ignoreCheck]. *)
Theorem getLegal_stays_on_board : forall s from type ic to,
    inB (rank from) (file from) = true ->
    In to (evalM (getLegal from type ic) s) ->
    inB (rank to) (file to) = true.
Proof. intros s from type ic to. apply getLegal_inB. Qed.

Lemma getLegal_stays_on_board_witness :
  inB 7 6 = true /\
  In (mkSq 5 5) (evalM (getLegal (mkSq 7 6) "N" false) constructor) /\
  inB 5 5 = true.
Proof.
  assert (Hin : In (mkSq 5 5) (evalM (getLegal (mkSq 7 6) "N" false) constructor))
    by (vm_compute; auto).
  split; [reflexivity |]. split; [exact Hin |].
  exact (@getLegal_stays_on_board constructor (mkSq 7 6) "N" false (mkSq 5 5)
           eq_refl Hin).
Defined.

(** What stands on a destination. *)
Lemma getLegal_dest : forall s from type ic to,
    In to (evalM (getLegal from type ic) s) ->
    (isEmp (positions s) (rank to) (file to) ||
     isEnemy (positions s) type (rank to) (file to) ||
     ((Js.toLowerCase type === "p") &&
      isTarget (enPassantTarget s) (rank to) (file to))) = true.
Proof.
  intros s from type ic to Hin.
  apply getLegal_candidate in Hin. rewrite candidates_eval in Hin. cbv zeta in Hin.
  destruct (Js.toLowerCase type === "p").
  { apply pawnMoves_ok in Hin. cbn [andb]. apply Hin. }
  cbn [andb]. rewrite orb_false_r.
  destruct (Js.toLowerCase type === "n"); [apply (knightMoves_ok _ _ _ _ _ Hin) |].
  destruct (Js.toLowerCase type === "k"); [| apply (slideMoves_ok _ _ _ _ _ _ Hin)].
  apply in_app_or in Hin. destruct Hin as [Hin | Hin].
  - apply (kingSteps_ok _ _ _ _ _ Hin).
  - destruct ic; [contradiction |].
    apply castlingMoves_ok in Hin. destruct Hin as (_ & _ & He).
    rewrite He. reflexivity.
Qed.

(** X2: [getLegal] never returns a square that holds a piece of the
    mover's own colour: every destination is empty, holds an enemy piece,
    or (for a pawn) is the en-passant target. *)
Theorem getLegal_spares_own_pieces : forall s from type ic to,
    In to (evalM (getLegal from type ic) s) ->
    (isEmp (positions s) (rank to) (file to) ||
     isEnemy (positions s) type (rank to) (file to) ||
     ((Js.toLowerCase type === "p") &&
      isTarget (enPassantTarget s) (rank to) (file to))) = true.
Proof. intros s from type ic to. apply getLegal_dest. Qed.

Lemma getLegal_spares_own_pieces_witness :
  In (mkSq 1 5) (evalM (getLegal (mkSq 3 7) "Q" false) pinnedPawn) /\
  isEmp (positions pinnedPawn) 1 5 = false /\
  isEnemy (positions pinnedPawn) "Q" 1 5 = true.
Proof.
  assert (Hin : In (mkSq 1 5) (evalM (getLegal (mkSq 3 7) "Q" false) pinnedPawn))
    by (vm_compute; auto 10).
  pose proof (@getLegal_spares_own_pieces pinnedPawn (mkSq 3 7) "Q" false
                (mkSq 1 5) Hin) as H.
  cbn [rank file] in H.
  assert (He : isEmp (positions pinnedPawn) 1 5 = false) by reflexivity.
  rewrite He in H. cbn [orb andb] in H. rewrite orb_false_r in H.
  split; [exact Hin |]. split; [exact He | exact H].
Defined.

(** X3: a letter that is none of the six kinds, the empty string of an
    empty square included, has no moves. *)
Theorem getLegal_unknown_letter : forall s from type ic,
    let lower := Js.toLowerCase type in
    (lower === "p") || (lower === "n") || (lower === "k") ||
    (lower === "b") || (lower === "r") || (lower === "q") = false ->
    evalM (getLegal from type ic) s = [].
Proof.
  intros s from type ic lower Hkind.
  rewrite !orb_false_iff in Hkind.
  destruct Hkind as [[[[[Hp Hn] Hk] Hb] Hr] Hq].
  assert (Hcand : evalM (candidates getLegal from type ic) s = []).
  { rewrite candidates_eval. cbv zeta. fold lower. rewrite Hp, Hn, Hk.
    unfold slideMoves, slideDirs. rewrite Hb, Hr, Hq. reflexivity. }
  destruct ic.
  - rewrite getLegal_attack_eq. exact Hcand.
  - rewrite getLegal_filter_eq, Hcand. reflexivity.
Qed.

Lemma getLegal_unknown_letter_witness :
  evalM (getLegal (mkSq 4 4) "" false) constructor = [] /\
  evalM (getLegal (mkSq 7 4) "x" true) constructor = [].
Proof.
  split.
  - exact (@getLegal_unknown_letter constructor (mkSq 4 4) "" false eq_refl).
  - exact (@getLegal_unknown_letter constructor (mkSq 7 4) "x" true eq_refl).
Defined.

(** ** The sliding loop *)

(** The squares the loop pushes: the [k]-th square of the ray when the
    squares before it are on the board and empty, and it is itself on the
    board and empty or held by an enemy. *)
Lemma ray_In_iff : forall fuel b type nr nf dr df to,
    In to (ray fuel b type nr nf dr df) <->
    exists k : nat,
      (k < fuel)%nat /\
      to = mkSq (nr + Z.of_nat k * dr) (nf + Z.of_nat k * df) /\
      (forall j : nat, (j < k)%nat ->
         inB (nr + Z.of_nat j * dr) (nf + Z.of_nat j * df) = true /\
         isEmp b (nr + Z.of_nat j * dr) (nf + Z.of_nat j * df) = true) /\
      inB (rank to) (file to) = true /\
      (isEmp b (rank to) (file to) || isEnemy b type (rank to) (file to)) = true.
Proof.
  induction fuel as [| fuel IH]; intros b type nr nf dr df to.
  - simpl. split; [contradiction | intros (k & Hk & _); lia].
  - cbn [ray]. split.
    + intros Hin.
      destruct (inB nr nf) eqn:Hb; [| contradiction].
      assert (Hhere : mkSq nr nf = mkSq (nr + Z.of_nat 0 * dr) (nf + Z.of_nat 0 * df))
        by (f_equal; lia).
      destruct (isEmp b nr nf) eqn:He.
      * destruct Hin as [<- | Hin].
        { exists 0%nat. cbn [rank file]. rewrite Hb, He.
          repeat split; try lia; auto. }
        apply IH in Hin. destruct Hin as (k & Hk & Hto & Hfree & Hon & Hocc).
        exists (S k). split; [lia |]. split.
        { rewrite Hto. f_equal; lia. }
        split; [| auto].
        intros [| j] Hj.
        { replace (nr + Z.of_nat 0 * dr) with nr by lia.
          replace (nf + Z.of_nat 0 * df) with nf by lia. auto. }
        replace (nr + Z.of_nat (S j) * dr) with (nr + dr + Z.of_nat j * dr) by lia.
        replace (nf + Z.of_nat (S j) * df) with (nf + df + Z.of_nat j * df) by lia.
        apply Hfree. lia.
      * destruct (isEnemy b type nr nf) eqn:Hen; [| contradiction].
        destruct Hin as [<- | []].
        exists 0%nat. cbn [rank file]. rewrite Hb, Hen, orb_true_r.
        repeat split; try lia; auto.
    + intros (k & Hk & Hto & Hfree & Hon & Hocc).
      destruct k as [| k].
      * replace (nr + Z.of_nat 0 * dr) with nr in Hto by lia.
        replace (nf + Z.of_nat 0 * df) with nf in Hto by lia.
        subst to. cbn [rank file] in Hon, Hocc. rewrite Hon.
        destruct (isEmp b nr nf); [left; reflexivity |].
        cbn [orb] in Hocc. rewrite Hocc. left; reflexivity.
      * destruct (Hfree 0%nat ltac:(lia)) as [Hb He].
        replace (nr + Z.of_nat 0 * dr) with nr in Hb, He by lia.
        replace (nf + Z.of_nat 0 * df) with nf in Hb, He by lia.
        rewrite Hb, He. right. apply IH.
        exists k. split; [lia |]. split.
        { rewrite Hto. f_equal; lia. }
        split; [| auto].
        intros j Hj.
        replace (nr + dr + Z.of_nat j * dr) with (nr + Z.of_nat (S j) * dr) by lia.
        replace (nf + df + Z.of_nat j * df) with (nf + Z.of_nat (S j) * df) by lia.
        apply Hfree. lia.
Qed.

Lemma slider_candidates : forall s from type ic,
    let lower := Js.toLowerCase type in
    (lower === "b") || (lower === "r") || (lower === "q") = true ->
    evalM (candidates getLegal from type ic) s =
    slideMoves (positions s) (rank from) (file from) type lower.
Proof.
  intros s from type ic lower Hkind. rewrite candidates_eval. cbv zeta. fold lower.
  rewrite !orb_true_iff in Hkind.
  destruct Hkind as [[H | H] | H]; apply String.eqb_eq in H; rewrite H; reflexivity.
Qed.

(** X4: the attack-pattern moves of a bishop, rook or queen are exactly
    the squares [n >= 1] steps away along one of its directions such that
    every square strictly between is on the board and empty, and the square
    itself is on the board and empty or held by an enemy piece.  The legal
    moves are those of them that pass the king-safety filter. *)
Theorem slider_moves_iff : forall s from type to,
    let lower := Js.toLowerCase type in
    let b := positions s in
    let along (d : Z * Z) (n : Z) :=
      mkSq (rank from + n * fst d) (file from + n * snd d) in
    let reaches :=
      exists d n,
        In d (slideDirs lower) /\ 1 <= n /\ to = along d n /\
        (forall j, 1 <= j < n ->
           inB (rank (along d j)) (file (along d j)) = true /\
           isEmp b (rank (along d j)) (file (along d j)) = true) /\
        inB (rank to) (file to) = true /\
        (isEmp b (rank to) (file to) || isEnemy b type (rank to) (file to)) = true in
    (lower === "b") || (lower === "r") || (lower === "q") = true ->
    (In to (evalM (getLegal from type true) s) <-> reaches) /\
    (In to (evalM (getLegal from type false) s) <->
     reaches /\ leavesKingInCheck s from type to = false).
Proof.
  intros s from type to lower b along reaches Hkind.
  assert (Hatt : In to (evalM (getLegal from type true) s) <-> reaches).
  { rewrite getLegal_attack_eq, slider_candidates by exact Hkind.
    fold lower. fold b. unfold slideMoves. rewrite in_flat_map. unfold reaches.
    split.
    - intros (d & Hd & Hin). apply ray_In_iff in Hin.
      destruct Hin as (k & Hk & Hto & Hfree & Hon & Hocc).
      exists d, (Z.of_nat k + 1). split; [exact Hd |]. split; [lia |].
      split; [rewrite Hto; unfold along; f_equal; ring |].
      split; [| auto].
      intros j Hj. unfold along. cbn [rank file].
      specialize (Hfree (Z.to_nat (j - 1)) ltac:(lia)).
      rewrite Z2Nat.id in Hfree by lia.
      replace (rank from + fst d + (j - 1) * fst d)
        with (rank from + j * fst d) in Hfree by ring.
      replace (file from + snd d + (j - 1) * snd d)
        with (file from + j * snd d) in Hfree by ring.
      exact Hfree.
    - intros (d & n & Hd & Hn & Hto & Hfree & Hon & Hocc).
      exists d. split; [exact Hd |]. apply ray_In_iff.
      exists (Z.to_nat (n - 1)).
      assert (Hfirst : inB (rank from + fst d) (file from + snd d) = true).
      { destruct (Z.eq_dec n 1) as [-> | Hne].
        - rewrite Hto in Hon. unfold along in Hon. cbn [rank file] in Hon.
          replace (rank from + 1 * fst d) with (rank from + fst d) in Hon by lia.
          replace (file from + 1 * snd d) with (file from + snd d) in Hon by lia.
          exact Hon.
        - destruct (Hfree 1 ltac:(lia)) as [H1 _]. unfold along in H1.
          cbn [rank file] in H1.
          replace (rank from + 1 * fst d) with (rank from + fst d) in H1 by lia.
          replace (file from + 1 * snd d) with (file from + snd d) in H1 by lia.
          exact H1. }
      split.
      { pose proof Hon as Hlast. rewrite Hto in Hlast. unfold along in Hlast.
        cbn [rank file] in Hlast.
        apply inB_bounds in Hfirst. apply inB_bounds in Hlast.
        destruct (slideDirs_unit _ _ Hd) as (H1 & H2 & H3).
        assert (Hc : (fst d = -1 \/ fst d = 0 \/ fst d = 1) /\
                     (snd d = -1 \/ snd d = 0 \/ snd d = 1)) by lia.
        destruct Hc as [[E1 | [E1 | E1]] [E2 | [E2 | E2]]];
          rewrite E1, E2 in *; lia. }
      split; [rewrite Hto; unfold along; rewrite Z2Nat.id by lia; f_equal; ring |].
      split; [| auto].
      intros j Hj.
      specialize (Hfree (Z.of_nat j + 1) ltac:(lia)). unfold along in Hfree.
      cbn [rank file] in Hfree.
      replace (rank from + (Z.of_nat j + 1) * fst d)
        with (rank from + fst d + Z.of_nat j * fst d) in Hfree by ring.
      replace (file from + (Z.of_nat j + 1) * snd d)
        with (file from + snd d + Z.of_nat j * snd d) in Hfree by ring.
      exact Hfree. }
  split; [exact Hatt |].
  split.
  - intros Hin. split.
    + apply Hatt. rewrite getLegal_attack_eq. rewrite getLegal_filter_eq in Hin.
      apply filter_In in Hin. rewrite !slider_candidates in * by exact Hkind.
      apply Hin.
    + rewrite getLegal_filter_eq in Hin. apply filter_In in Hin.
      destruct Hin as [_ Hsafe].
      destruct (leavesKingInCheck s from type to); [discriminate | reflexivity].
  - intros [Hreach Hsafe]. apply Hatt in Hreach.
    apply (legal_iff_safe _ _ _ _ Hreach). exact Hsafe.
Qed.

(** After 1. e4 e5 2. Qh5 the queen on h5 reaches h7 (two steps up the
    file, h6 empty, a black pawn on h7) but not h8. *)
Lemma slider_moves_iff_witness :
  In (mkSq 1 7) (evalM (getLegal (mkSq 3 7) "Q" true) pinnedPawn) /\
  ~ In (mkSq 0 7) (evalM (getLegal (mkSq 3 7) "Q" true) pinnedPawn).
Proof.
  destruct (@slider_moves_iff pinnedPawn (mkSq 3 7) "Q" (mkSq 1 7) eq_refl)
    as [Hyes _].
  split.
  - apply Hyes. exists (-1, 0), 2.
    split; [vm_compute; auto 10 |]. split; [lia |]. split; [reflexivity |].
    split; [| split; reflexivity].
    intros j Hj. assert (j = 1) by lia. subst j. split; reflexivity.
  - vm_compute. intuition discriminate.
Defined.

(** ** Pawns *)

(** X5: the attack-pattern moves of a pawn are exactly: the square ahead
    when empty; the second square ahead from the starting row when both are
    empty; and the two squares diagonally ahead when they hold an enemy
    piece or are the en-passant target.  Ahead is towards rank 0 for ["P"]
    and towards rank 7 for ["p"].  A pawn never captures straight ahead,
    never jumps and never moves back. *)
Theorem pawn_moves_iff : forall s from type to,
    let b := positions s in
    let r := rank from in
    let f := file from in
    let dir := if type === "P" then -1 else 1 in
    let sr := if type === "P" then 6 else 1 in
    (Js.toLowerCase type === "p") = true ->
    (In to (evalM (getLegal from type true) s) <->
     inB (rank to) (file to) = true /\
     (file to = f /\ rank to = r + dir /\ isEmp b (rank to) (file to) = true \/
      file to = f /\ rank to = r + dir * 2 /\ r = sr /\
        isEmp b (r + dir) f = true /\ isEmp b (rank to) (file to) = true \/
      (file to = f - 1 \/ file to = f + 1) /\ rank to = r + dir /\
        (isEnemy b type (rank to) (file to) ||
         isTarget (enPassantTarget s) (rank to) (file to)) = true)).
Proof.
  intros s from type to b r f dir sr Hp.
  rewrite getLegal_attack_eq, candidates_pawn by exact Hp.
  fold b r f. unfold pawnMoves. fold dir sr.
  rewrite !in_app_iff. cbn [flat_map]. rewrite app_nil_r, in_app_iff.
  split.
  - intros [Hin | [Hin | [Hin | Hin]]].
    + destruct (inB (r + dir) f) eqn:Hb; [| contradiction].
      destruct (isEmp b (r + dir) f) eqn:He; [| contradiction].
      destruct Hin as [<- | []]. cbn [rank file]. auto.
    + destruct (r =? sr) eqn:Er; [| contradiction].
      destruct (inB (r + dir * 2) f) eqn:Hb; [| contradiction].
      destruct (isEmp b (r + dir) f) eqn:He1; [| contradiction].
      destruct (isEmp b (r + dir * 2) f) eqn:He2; [| contradiction].
      destruct Hin as [<- | []]. cbn [rank file]. apply Z.eqb_eq in Er.
      split; [exact Hb |]. right. left. auto.
    + destruct (inB (r + dir) (f + -1)) eqn:Hb; [| contradiction].
      destruct (_ || _) eqn:Ho; [| contradiction].
      destruct Hin as [<- | []]. cbn [rank file].
      split; [exact Hb |]. right. right.
      split; [left; lia |]. split; [reflexivity | exact Ho].
    + destruct (inB (r + dir) (f + 1)) eqn:Hb; [| contradiction].
      destruct (_ || _) eqn:Ho; [| contradiction].
      destruct Hin as [<- | []]. cbn [rank file].
      split; [exact Hb |]. right. right.
      split; [right; lia |]. split; [reflexivity | exact Ho].
  - destruct to as [tr tf]. cbn [rank file].
    intros [Hb [(-> & -> & He) | [(-> & -> & Er & He1 & He2) | (Hf & -> & Ho)]]].
    + left. rewrite Hb, He. left. reflexivity.
    + right. left. rewrite Hb, He1, He2. apply Z.eqb_eq in Er. rewrite Er.
      left. reflexivity.
    + right. right. destruct Hf as [-> | ->].
      * left. replace (f + -1) with (f - 1) by lia. rewrite Hb, Ho.
        left. reflexivity.
      * right. rewrite Hb, Ho. left. reflexivity.
Qed.

(** The black pawn on e5 after 1. e4 e5 2. Qh5 faces the white pawn on e4
    and has no move at all. *)
Lemma pawn_moves_iff_witness :
  cell (positions pinnedPawn) 4 4 = "P" /\
  ~ In (mkSq 4 4) (evalM (getLegal (mkSq 3 4) "p" true) pinnedPawn) /\
  In (mkSq 5 6) (evalM (getLegal (mkSq 6 6) "P" true) pinnedPawn).
Proof.
  split; [reflexivity |]. split.
  - intros Hin.
    apply (@pawn_moves_iff pinnedPawn (mkSq 3 4) "p" (mkSq 4 4) eq_refl) in Hin.
    cbn [rank file] in Hin.
    destruct Hin as [_ [(_ & _ & He) | [(_ & Hr & _) | ([Hf | Hf] & _)]]];
      [vm_compute in He; discriminate | lia | lia | lia].
  - apply (@pawn_moves_iff pinnedPawn (mkSq 6 6) "P" (mkSq 5 6) eq_refl).
    cbn [rank file]. split; [reflexivity |]. left.
    split; [reflexivity |]. split; reflexivity.
Defined.

(** ** Kings and castling *)

Lemma kingSteps_iff : forall b r f type to,
    In to (kingSteps b r f type) <->
    inB (rank to) (file to) = true /\
    (isEmp b (rank to) (file to) || isEnemy b type (rank to) (file to)) = true /\
    -1 <= rank to - r <= 1 /\ -1 <= file to - f <= 1 /\
    (rank to <> r \/ file to <> f).
Proof.
  intros b r f type to. unfold kingSteps. rewrite in_flat_map. split.
  - intros (dr & Hdr & Hin). apply in_flat_map in Hin.
    destruct Hin as (df & Hdf & Hin).
    destruct (negb (dr =? 0) || negb (df =? 0)) eqn:Hnz; [| contradiction].
    destruct (inB _ _) eqn:Hb; [| contradiction].
    destruct (isEmp b _ _ || isEnemy b type _ _) eqn:Ho; [| contradiction].
    destruct Hin as [<- | []]. cbn [rank file].
    split; [exact Hb |]. split; [exact Ho |].
    apply orb_true_iff in Hnz. rewrite !negb_true_iff, !Z.eqb_neq in Hnz.
    simpl in Hdr, Hdf. lia.
  - destruct to as [tr tf]. cbn [rank file].
    intros (Hb & Ho & Hr & Hf & Hne).
    exists (tr - r). split; [simpl; lia |].
    apply in_flat_map. exists (tf - f). split; [simpl; lia |].
    replace (r + (tr - r)) with tr by lia.
    replace (f + (tf - f)) with tf by lia.
    rewrite Hb, Ho.
    replace (negb (tr - r =? 0) || negb (tf - f =? 0)) with true.
    + left. reflexivity.
    + symmetry. apply orb_true_iff. rewrite !negb_true_iff, !Z.eqb_neq. lia.
Qed.

Lemma king_candidates : forall s from type ic,
    (Js.toLowerCase type === "k") = true ->
    evalM (candidates getLegal from type ic) s =
    kingSteps (positions s) (rank from) (file from) type ++
    (if ic then []
     else evalM (castlingMoves getLegal (positions s) (rank from) (file from) type) s).
Proof.
  intros s from type ic Hk. rewrite candidates_eval. cbv zeta.
  destruct (toLowerCase_k _ Hk) as [-> | ->]; reflexivity.
Qed.

(** X6: with [ignoreCheck = true] a king's moves are exactly the adjacent
    squares of the board that are empty or hold an enemy piece; castling is
    never among them. *)
Theorem king_attack_moves_iff : forall s from type to,
    (Js.toLowerCase type === "k") = true ->
    (In to (evalM (getLegal from type true) s) <->
     inB (rank to) (file to) = true /\
     (isEmp (positions s) (rank to) (file to) ||
      isEnemy (positions s) type (rank to) (file to)) = true /\
     -1 <= rank to - rank from <= 1 /\ -1 <= file to - file from <= 1 /\
     (rank to <> rank from \/ file to <> file from)).
Proof.
  intros s from type to Hk.
  rewrite getLegal_attack_eq, king_candidates by exact Hk.
  rewrite app_nil_r. apply kingSteps_iff.
Qed.

Lemma king_attack_moves_iff_witness :
  ~ In (mkSq 7 6) (evalM (getLegal (mkSq 7 4) "K" true) pawnOnE2) /\
  In (mkSq 7 5) (evalM (getLegal (mkSq 7 4) "K" true) pawnOnE2).
Proof.
  split.
  - intros Hin.
    apply (@king_attack_moves_iff pawnOnE2 (mkSq 7 4) "K" (mkSq 7 6) eq_refl) in Hin.
    cbn [rank file] in Hin. lia.
  - apply (@king_attack_moves_iff pawnOnE2 (mkSq 7 4) "K" (mkSq 7 5) eq_refl).
    cbn [rank file]. split; [reflexivity |]. split; [reflexivity |]. lia.
Defined.

Lemma queenside_castling_iff : forall s r f type,
    (Js.toLowerCase type === "k") = true ->
    let color := if type === "K" then white else black in
    In (mkSq r (f - 2)) (evalM (getLegal (mkSq r f) type false) s) <->
    castleReady s color = true /\
    longOpen s r f color = true /\
    leavesKingInCheck s (mkSq r f) type (mkSq r (f - 2)) = false.
Proof.
  intros s r f type Hk color.
  rewrite getLegal_filter_eq, filter_In, king_candidates by exact Hk.
  cbn [rank file]. rewrite evalM_castlingMoves. fold color.
  rewrite in_app_iff. split.
  - intros [[Hstep | Hcastle] Hsafe].
    + apply kingSteps_near in Hstep. cbn [file] in Hstep. lia.
    + destruct (castleReady s color); [| contradiction].
      apply in_app_or in Hcastle. destruct Hcastle as [Hc | Hc].
      * destruct (shortOpen s r f color); [| contradiction].
        destruct Hc as [Hc | []]. injection Hc as Hc. lia.
      * destruct (longOpen s r f color); [| contradiction].
        repeat split.
        destruct (leavesKingInCheck _ _ _ _); [discriminate | reflexivity].
  - intros (Hready & Hlong & Hsafe). rewrite Hready, Hlong, Hsafe.
    split; [| reflexivity]. right. apply in_or_app. right. left. reflexivity.
Qed.

(** A king move of more than one file comes from the castling block. *)
Lemma far_king_move : forall s from type to,
    (Js.toLowerCase type === "k") = true ->
    let color := if type === "K" then white else black in
    (file to < file from - 1 \/ file from + 1 < file to) ->
    In to (evalM (getLegal from type false) s) ->
    castleReady s color = true /\
    leavesKingInCheck s from type to = false /\
    (to = mkSq (rank from) (file from + 2) /\
     shortOpen s (rank from) (file from) color = true \/
     to = mkSq (rank from) (file from - 2) /\
     longOpen s (rank from) (file from) color = true).
Proof.
  intros s [r f] type to Hk color Hfar Hin. cbn [rank file] in *.
  pose proof (getLegal_candidate _ _ _ _ _ Hin) as Hcand.
  rewrite king_candidates in Hcand by exact Hk. cbn [rank file] in Hcand.
  apply in_app_or in Hcand. destruct Hcand as [Hstep | Hcastle].
  { apply kingSteps_near in Hstep. lia. }
  apply castlingMoves_ok in Hcastle. destruct Hcastle as (Hr & Hf & _).
  destruct to as [tr tf]. cbn [rank file] in *. subst tr.
  destruct Hf as [[-> _] | [-> _]].
  - apply (kingside_castling_iff s r f type Hk) in Hin.
    destruct Hin as (H1 & H2 & H3). fold color in H1, H2. auto.
  - apply (queenside_castling_iff s r f type Hk) in Hin.
    destruct Hin as (H1 & H2 & H3). fold color in H1, H2. auto 6.
Qed.

(** X7: the legal moves of a king that leave its file by more than one
    are the two castling destinations on its rank, and each is offered
    exactly under the conditions of the castling block: the king's flag is
    unset and the king is not in check; the flag of that side's rook is
    unset; the squares between king and corner are empty (two towards the
    h-file, three towards the a-file); the two squares next to the king on
    that side are not attacked according to [isAttacked]; and the king is
    not in check on the scratch grid.  Whether a rook stands on the corner
    is not among them. *)
Theorem castling_offered_iff : forall s from type to,
    (Js.toLowerCase type === "k") = true ->
    let color := if type === "K" then white else black in
    let r := rank from in
    let f := file from in
    (file to < f - 1 \/ f + 1 < file to) ->
    (In to (evalM (getLegal from type false) s) <->
     castleReady s color = true /\
     leavesKingInCheck s from type to = false /\
     (to = mkSq r (f + 2) /\ shortOpen s r f color = true \/
      to = mkSq r (f - 2) /\ longOpen s r f color = true)).
Proof.
  intros s [r f] type to Hk color r' f' Hfar. unfold r', f' in *. cbn [rank file] in *.
  split.
  - intros Hin. apply (far_king_move s (mkSq r f) type to Hk Hfar Hin).
  - intros (Hready & Hsafe & [[-> Hopen] | [-> Hopen]]).
    + apply (kingside_castling_iff s r f type Hk). auto.
    + apply (queenside_castling_iff s r f type Hk). auto.
Qed.

(** With two bare kings and no flag set, castling is offered on both
    sides although both corners are empty. *)
Lemma castling_offered_iff_witness :
  cell (positions bareKings) 7 7 = "" /\
  cell (positions bareKings) 7 0 = "" /\
  In (mkSq 7 6) (evalM (getLegal (mkSq 7 4) "K" false) bareKings) /\
  In (mkSq 7 2) (evalM (getLegal (mkSq 7 4) "K" false) bareKings).
Proof.
  split; [reflexivity |]. split; [reflexivity |]. split.
  - apply (@castling_offered_iff bareKings (mkSq 7 4) "K" (mkSq 7 6) eq_refl).
    + cbn [rank file]. lia.
    + split; [vm_compute; reflexivity |]. split; [vm_compute; reflexivity |].
      left. split; [reflexivity | vm_compute; reflexivity].
  - apply (@castling_offered_iff bareKings (mkSq 7 4) "K" (mkSq 7 2) eq_refl).
    + cbn [rank file]. lia.
    + split; [vm_compute; reflexivity |]. split; [vm_compute; reflexivity |].
      right. split; [reflexivity | vm_compute; reflexivity].
Defined.

(** ** Knights *)

(** X8: the attack-pattern moves of a knight are exactly the squares of
    the board one rank and two files, or two ranks and one file, away that
    are empty or hold an enemy piece; what stands in between plays no
    part. *)
Theorem knight_moves_iff : forall s from type to,
    (Js.toLowerCase type === "n") = true ->
    (In to (evalM (getLegal from type true) s) <->
     inB (rank to) (file to) = true /\
     (isEmp (positions s) (rank to) (file to) ||
      isEnemy (positions s) type (rank to) (file to)) = true /\
     (Z.abs (rank to - rank from) = 1 /\ Z.abs (file to - file from) = 2 \/
      Z.abs (rank to - rank from) = 2 /\ Z.abs (file to - file from) = 1)).
Proof.
  intros s from type to Hn.
  assert (Hcand : evalM (candidates getLegal from type true) s =
                  knightMoves (positions s) (rank from) (file from) type).
  { rewrite candidates_eval. cbv zeta.
    apply String.eqb_eq in Hn. rewrite Hn. reflexivity. }
  rewrite getLegal_attack_eq, Hcand. unfold knightMoves. rewrite in_flat_map.
  split.
  - intros (d & Hd & Hin).
    destruct (inB _ _) eqn:Hb; [| contradiction].
    destruct (isEmp _ _ _ || isEnemy _ _ _ _) eqn:Ho; [| contradiction].
    destruct Hin as [<- | []]. cbn [rank file].
    split; [exact Hb |]. split; [exact Ho |].
    unfold knightOffsets in Hd. simpl in Hd.
    repeat (destruct Hd as [<- | Hd]; [cbn [fst snd]; lia |]). contradiction.
  - destruct to as [tr tf]. cbn [rank file]. intros (Hb & Ho & Hgeo).
    exists (tr - rank from, tf - file from). cbn [fst snd].
    replace (rank from + (tr - rank from)) with tr by lia.
    replace (file from + (tf - file from)) with tf by lia.
    rewrite Hb, Ho. split; [| left; reflexivity].
    assert (Hc : (tr - rank from = 2 \/ tr - rank from = -2 \/
                  tr - rank from = 1 \/ tr - rank from = -1) /\
                 (tf - file from = 2 \/ tf - file from = -2 \/
                  tf - file from = 1 \/ tf - file from = -1)) by lia.
    unfold knightOffsets.
    destruct Hc as [[E1 | [E1 | [E1 | E1]]] [E2 | [E2 | [E2 | E2]]]];
      rewrite E1, E2 in *; simpl; try lia; auto 10.
Qed.

Lemma knight_moves_iff_witness :
  In (mkSq 5 5) (evalM (getLegal (mkSq 7 6) "N" true) constructor) /\
  ~ In (mkSq 6 4) (evalM (getLegal (mkSq 7 6) "N" true) constructor).
Proof.
  split.
  - apply (@knight_moves_iff constructor (mkSq 7 6) "N" (mkSq 5 5) eq_refl).
    cbn [rank file]. split; [reflexivity |]. split; [reflexivity |]. lia.
  - intros Hin.
    apply (@knight_moves_iff constructor (mkSq 7 6) "N" (mkSq 6 4) eq_refl) in Hin.
    destruct Hin as (_ & Ho & _). vm_compute in Ho. discriminate.
Defined.

(** ** Flags are set once and for all *)

Lemma onlySets_refl : forall s, onlySets s s.
Proof. intros s. unfold onlySets. auto. Qed.

Lemma onlySets_trans : forall s1 s2 s3,
    onlySets s1 s2 -> onlySets s2 s3 -> onlySets s1 s3.
Proof.
  intros s1 s2 s3 (A1 & B1 & C1 & D1) (A2 & B2 & C2 & D2).
  unfold onlySets. repeat split; auto.
Qed.

Lemma pres_pure : forall (Q : Chess -> Chess -> Prop) (A : Type) (m : M A),
    (forall s, Q s s) -> pureM m -> preserves Q m.
Proof. intros Q A m Hrefl Hpure s. rewrite (Hpure s). apply Hrefl. Qed.

Ltac sets_modify :=
  match goal with
  | |- preserves _ (modify _) =>
      apply pres_modify; intros ?s; unfold onlySets; simpl;
      repeat match goal with
             | |- context [colorOf ?x] => destruct (colorOf x)
             end;
      solve [ repeat split; try (intros c; destruct c); simpl; auto ]
  end.

Ltac sets_step :=
  first
    [ apply pres_ret; exact onlySets_refl
    | apply pres_gets; exact onlySets_refl
    | apply pres_whenM; [exact onlySets_refl |]
    | apply pres_bind; [exact onlySets_trans | | intros ?]
    | sets_modify
    | progress cbv zeta
    | match goal with
      | |- preserves _ (if ?c then _ else _) => destruct c
      | |- preserves _ (match ?c with _ => _ end) => destruct c
      end ].

Lemma onlySets_applyMechanics : forall from to,
    preserves onlySets (applyMechanics from to).
Proof.
  intros from to.
  unfold applyMechanics, enPassantStep, relocate, castleRook, updateMovedFlags,
    promote, switchTurns, markKing, markRookA, markRookH, write.
  repeat sets_step.
Qed.

Lemma onlySets_recomputeStatus : preserves onlySets recomputeStatus.
Proof.
  unfold recomputeStatus.
  repeat first
    [ apply pres_pure; [exact onlySets_refl | apply pure_isInCheck]
    | apply pres_pure; [exact onlySets_refl | apply pure_anyMoves]
    | apply pres_pure; [exact onlySets_refl | apply pure_findKing]
    | sets_step ].
Qed.

Lemma onlySets_movePiece : forall from to s,
    onlySets s (execM (movePiece from to) s).
Proof.
  intros from to s. rewrite movePiece_run.
  eapply onlySets_trans;
    [apply onlySets_applyMechanics | apply onlySets_recomputeStatus].
Qed.

Lemma onlySets_applyAll : forall ms s, onlySets s (applyAll ms s).
Proof.
  induction ms as [| [from to] rest IH]; intros s; simpl.
  - apply onlySets_refl.
  - eapply onlySets_trans; [apply onlySets_movePiece | apply IH].
Qed.

(** X9: castling rights only ever go from available to unavailable, and a
    finished game stays finished: through any sequence of [movePiece]
    calls a king-moved flag, a rook-moved flag or [gameOver], once true,
    stays true. *)
Theorem flags_are_monotone : forall ms s c,
    let s' := applyAll ms s in
    (sel c (kingMoved s) = true -> sel c (kingMoved s') = true) /\
    (sideA (sel c (rookMoved s)) = true -> sideA (sel c (rookMoved s')) = true) /\
    (sideH (sel c (rookMoved s)) = true -> sideH (sel c (rookMoved s')) = true) /\
    (gameOver s = true -> gameOver s' = true).
Proof.
  intros ms s c.
  destruct (onlySets_applyAll ms s) as (Hk & Ha & Hh & Hg). cbv zeta. auto.
Qed.

(** After 1. e4 e5 2. Ke2 the white king's flag is set, and it is still
    set after 2... Ke7 3. Ke1, with the king back on e1. *)
Lemma flags_are_monotone_witness :
  let s := applyAll [mv 6 4 4 4; mv 1 4 3 4; mv 7 4 6 4] constructor in
  let s' := applyAll [mv 0 4 1 4; mv 6 4 7 4] s in
  ofW (kingMoved s) = true /\
  cell (positions s') 7 4 = "K" /\
  ofW (kingMoved s') = true.
Proof.
  intros s s'.
  assert (Hset : sel white (kingMoved s) = true) by (vm_compute; reflexivity).
  destruct (flags_are_monotone [mv 0 4 1 4; mv 6 4 7 4] s white) as (Hk & _).
  split; [exact Hset |]. split; [vm_compute; reflexivity | exact (Hk Hset)].
Defined.

(** ** Castling rights lost by moving *)

Lemma movePiece_marks_king : forall from to s,
    let t := cell (positions s) (rank from) (file from) in
    (Js.toLowerCase t === "k") = true ->
    sel (if t === "K" then white else black)
        (kingMoved (execM (movePiece from to) s)) = true.
Proof.
  intros from to s t Hk. rewrite movePiece_run.
  destruct (recomputeStatus_sameRules (execM (applyMechanics from to) s))
    as (_ & <- & _).
  rewrite applyMechanics_run. fold t.
  change (kingMoved (execM switchTurns ?x)) with (kingMoved x).
  rewrite (keeps_exec _ (@keeps_promote _ kingMoved _ _ (fun _ _ => eq_refl))).
  destruct (toLowerCase_k _ Hk) as [-> | ->]; reflexivity.
Qed.

Lemma castleReady_moved : forall s color,
    sel color (kingMoved s) = true -> castleReady s color = false.
Proof. intros s color H. unfold castleReady. now rewrite H. Qed.

(** X10: once [movePiece] has moved a king, that colour is never offered
    castling again: whatever calls of [movePiece] follow, and wherever
    the king stands then, [getLegal] for a king of that colour returns
    only squares at most one file away. *)
Theorem no_castling_after_king_move : forall s from to ms kfrom kto,
    let t := cell (positions s) (rank from) (file from) in
    (Js.toLowerCase t === "k") = true ->
    let s' := applyAll ms (execM (movePiece from to) s) in
    In kto (evalM (getLegal kfrom t false) s') ->
    file kfrom - 1 <= file kto <= file kfrom + 1.
Proof.
  intros s from to ms kfrom kto t Hk s' Hin.
  destruct (Z_le_gt_dec (file kfrom - 1) (file kto)) as [Hlo | Hlo];
    [destruct (Z_le_gt_dec (file kto) (file kfrom + 1)) as [Hhi | Hhi];
       [lia |] |];
    exfalso.
  all: assert (Hfar : file kto < file kfrom - 1 \/ file kfrom + 1 < file kto)
         by lia;
       destruct (far_king_move s' kfrom t kto Hk Hfar Hin) as (Hready & _);
       assert (Hset : sel (if t === "K" then white else black) (kingMoved s') = true);
       [ destruct (onlySets_applyAll ms (execM (movePiece from to) s)) as (Hmono & _);
         apply Hmono; apply movePiece_marks_king; exact Hk
       | rewrite (castleReady_moved _ _ Hset) in Hready; discriminate ].
Qed.

(** After 1. e4 e5 2. Ke2 Ke7 3. Ke1 the white king is back on e1; with
    f1 and g1 cleared by 3... a6 4. Nf3 a5 5. g3 a4 6. Bg2 a3 it has f1
    to go to, and the theorem excludes g1. *)
Lemma no_castling_after_king_move_witness :
  let s := applyAll [mv 6 4 4 4; mv 1 4 3 4] constructor in
  let ms := [mv 0 4 1 4; mv 6 4 7 4; mv 1 0 2 0; mv 7 6 5 5; mv 2 0 3 0;
             mv 6 6 5 6; mv 3 0 4 0; mv 7 5 6 6; mv 4 0 5 0] in
  let s' := applyAll ms (execM (movePiece (mkSq 7 4) (mkSq 6 4)) s) in
  cell (positions s) 7 4 = "K" /\
  cell (positions s') 7 4 = "K" /\
  cell (positions s') 7 7 = "R" /\
  In (mkSq 7 5) (evalM (getLegal (mkSq 7 4) "K" false) s') /\
  ~ In (mkSq 7 6) (evalM (getLegal (mkSq 7 4) "K" false) s').
Proof.
  intros s ms s'.
  split; [vm_compute; reflexivity |].
  split; [vm_compute; reflexivity |].
  split; [vm_compute; reflexivity |].
  split; [vm_compute; auto |].
  intros Hin.
  pose proof (@no_castling_after_king_move s (mkSq 7 4) (mkSq 6 4) ms
                (mkSq 7 4) (mkSq 7 6) eq_refl Hin) as H.
  cbn [file] in H. lia.
Defined.

Lemma movePiece_marks_rook : forall from to s,
    let t := cell (positions s) (rank from) (file from) in
    let color := if t === "R" then white else black in
    (t = "R" /\ rank from = 7 \/ t = "r" /\ rank from = 0) ->
    (file from = 0 ->
     sideA (sel color (rookMoved (execM (movePiece from to) s))) = true) /\
    (file from = 7 ->
     sideH (sel color (rookMoved (execM (movePiece from to) s))) = true).
Proof.
  intros [fr ff] to s t color Ht. cbn [rank file] in *.
  rewrite movePiece_rookMoved, applyMechanics_run. fold t. cbn [rank file].
  change (rookMoved (execM switchTurns ?x)) with (rookMoved x).
  rewrite (keeps_exec _ (@keeps_promote _ rookMoved _ _ (fun _ _ => eq_refl))).
  unfold color. fold t. clearbody t.
  destruct Ht as [[-> ->] | [-> ->]];
    (rewrite castleRook_other by reflexivity);
    unfold updateMovedFlags; cbn [String.eqb Ascii.eqb Bool.eqb Z.eqb andb];
    split; intros ->; reflexivity.
Qed.

(** X11: once [movePiece] has moved a rook off its home corner, the king
    of that colour is never offered castling towards that corner again,
    whatever calls of [movePiece] follow, also when the rook has come
    back: after "R" left a1 (or "r" a8) [getLegal] returns no king move of
    more than one file towards the a-file, after h1 (h8) none towards the
    h-file. *)
Theorem no_castling_after_rook_move : forall s from to ms kfrom kto,
    let t := cell (positions s) (rank from) (file from) in
    (t = "R" /\ rank from = 7 \/ t = "r" /\ rank from = 0) ->
    let ktype := if t === "R" then "K" else "k" in
    let s' := applyAll ms (execM (movePiece from to) s) in
    In kto (evalM (getLegal kfrom ktype false) s') ->
    (file from = 0 -> file kfrom - 1 <= file kto) /\
    (file from = 7 -> file kto <= file kfrom + 1).
Proof.
  intros s from to ms kfrom kto t Ht ktype s' Hin.
  assert (Hk : (Js.toLowerCase ktype === "k") = true)
    by (unfold ktype; destruct (t === "R"); reflexivity).
  assert (Hcolor : (if ktype === "K" then white else black)
                   = (if t === "R" then white else black))
    by (unfold ktype; destruct (t === "R"); reflexivity).
  destruct (movePiece_marks_rook from to s Ht) as [Ha Hh].
  destruct (onlySets_applyAll ms (execM (movePiece from to) s))
    as (_ & HmonoA & HmonoH & _).
  split; intros Hfile.
  - destruct (Z_le_gt_dec (file kfrom - 1) (file kto)) as [Hlo | Hlo]; [exact Hlo |].
    exfalso.
    assert (Hfar : file kto < file kfrom - 1 \/ file kfrom + 1 < file kto) by lia.
    destruct (far_king_move s' kfrom ktype kto Hk Hfar Hin)
      as (_ & _ & [[-> _] | [_ Hopen]]); [cbn [file] in Hlo; lia |].
    rewrite Hcolor in Hopen. unfold longOpen in Hopen.
    assert (Hset : sideA (sel (if t === "R" then white else black)
                              (rookMoved s')) = true)
      by exact (HmonoA _ (Ha Hfile)).
    rewrite Hset in Hopen. discriminate.
  - destruct (Z_le_gt_dec (file kto) (file kfrom + 1)) as [Hhi | Hhi]; [exact Hhi |].
    exfalso.
    assert (Hfar : file kto < file kfrom - 1 \/ file kfrom + 1 < file kto) by lia.
    destruct (far_king_move s' kfrom ktype kto Hk Hfar Hin)
      as (_ & _ & [[_ Hopen] | [-> _]]); [| cbn [file] in Hhi; lia].
    rewrite Hcolor in Hopen. unfold shortOpen in Hopen.
    assert (Hset : sideH (sel (if t === "R" then white else black)
                              (rookMoved s')) = true)
      by exact (HmonoH _ (Hh Hfile)).
    rewrite Hset in Hopen. discriminate.
Qed.

(** After 1. Nf3 a6 2. g3 a5 3. Bg2 a4 the king may castle short; after
    4. Rg1 a3 5. Rh1 the rook is back on h1 and the king may only step
    to f1. *)
Lemma no_castling_after_rook_move_witness :
  let s := applyAll [mv 7 6 5 5; mv 1 0 2 0; mv 6 6 5 6; mv 2 0 3 0;
                     mv 7 5 6 6; mv 3 0 4 0] constructor in
  let ms := [mv 4 0 5 0; mv 7 6 7 7; mv 5 0 6 1] in
  let s' := applyAll ms (execM (movePiece (mkSq 7 7) (mkSq 7 6)) s) in
  In (mkSq 7 6) (evalM (getLegal (mkSq 7 4) "K" false) s) /\
  cell (positions s') 7 7 = "R" /\
  cell (positions s') 7 4 = "K" /\
  In (mkSq 7 5) (evalM (getLegal (mkSq 7 4) "K" false) s') /\
  ~ In (mkSq 7 6) (evalM (getLegal (mkSq 7 4) "K" false) s').
Proof.
  intros s ms s'.
  split; [vm_compute; auto |].
  split; [vm_compute; reflexivity |].
  split; [vm_compute; reflexivity |].
  split; [vm_compute; auto |].
  intros Hin.
  assert (Ht : cell (positions s) 7 7 = "R" /\ 7 = 7 \/
               cell (positions s) 7 7 = "r" /\ 7 = 0)
    by (left; split; [vm_compute; reflexivity | reflexivity]).
  destruct (@no_castling_after_rook_move s (mkSq 7 7) (mkSq 7 6) ms
              (mkSq 7 4) (mkSq 7 6) Ht Hin) as [_ H].
  cbn [file] in H. specialize (H eq_refl). lia.
Defined.

(** ** What [movePiece] does to the grid *)

Lemma positions_enPassantStep : forall from to t s,
    positions (execM (enPassantStep from to t) s) =
    if (Js.toLowerCase t === "p") && isTarget (enPassantTarget s) (rank to) (file to)
    then setCell (rank from) (file to) "" (positions s)
    else positions s.
Proof.
  intros from to t s. unfold enPassantStep, write.
  rewrite execM_bind. change (evalM (gets enPassantTarget) s) with (enPassantTarget s).
  change (execM (gets enPassantTarget) s) with s.
  destruct ((Js.toLowerCase t === "p") &&
            isTarget (enPassantTarget s) (rank to) (file to));
    destruct ((Js.toLowerCase t === "p") && (Z.abs (rank to - rank from) =? 2));
    reflexivity.
Qed.

Lemma positions_relocate : forall from to t s,
    positions (execM (relocate from to t) s) =
    setCell (rank from) (file from) ""
      (setCell (rank to) (file to) t (positions s)).
Proof. reflexivity. Qed.

Lemma positions_promote : forall to t s,
    positions (execM (promote to t) s) =
    if (t === "P") && (rank to =? 0)
    then setCell (rank to) (file to) "Q" (positions s)
    else if (t === "p") && (rank to =? 7)
         then setCell (rank to) (file to) "q" (positions s)
         else positions s.
Proof.
  intros to t s. unfold promote, write.
  destruct (t === "P") eqn:HP.
  - apply String.eqb_eq in HP. subst t.
    destruct (rank to =? 0); reflexivity.
  - destruct ((t === "p") && (rank to =? 7)); reflexivity.
Qed.

Lemma positions_applyMechanics : forall from to s,
    let t := cell (positions s) (rank from) (file from) in
    positions (execM (applyMechanics from to) s) =
    positions
      (execM (promote to t)
         (execM (castleRook from to t (colorOf t))
            (execM (relocate from to t) (execM (enPassantStep from to t) s)))).
Proof.
  intros from to s t. rewrite applyMechanics_run. fold t.
  change (positions (execM switchTurns ?x)) with (positions x).
  rewrite !positions_promote.
  rewrite (keeps_exec _ (@keeps_updateMovedFlags _ positions _ _
                           (fun _ _ => eq_refl) (fun _ _ => eq_refl))).
  reflexivity.
Qed.

Lemma cell_setCell : forall nr nf v g r f,
    wfGrid g -> inB nr nf = true ->
    cell (setCell nr nf v g) r f =
    if (r =? nr) && (f =? nf) then v else cell g r f.
Proof.
  intros nr nf v g r f Hwf Hin.
  destruct (r =? nr) eqn:Hr; [destruct (f =? nf) eqn:Hf |]; cbn [andb].
  - apply Z.eqb_eq in Hr, Hf. subst. now apply cell_setCell_same.
  - apply Z.eqb_neq in Hf. apply cell_setCell_other. now right.
  - apply Z.eqb_neq in Hr. apply cell_setCell_other. now left.
Qed.

(** X12: an ordinary move changes two squares and nothing else.  On an
    8x8 grid, for two different squares of the board, when the move is
    neither a king's step of two files nor a pawn's step onto the
    en-passant target, [movePiece] leaves the origin empty, puts the moved
    letter on the destination, replaced by "Q" for "P" arriving on rank 0
    and by "q" for "p" arriving on rank 7, and leaves every other square as
    it was; whatever stood on the destination is gone. *)
Theorem ordinary_move_grid : forall s from to r f,
    let t := cell (positions s) (rank from) (file from) in
    wfGrid (positions s) ->
    inB (rank from) (file from) = true ->
    inB (rank to) (file to) = true ->
    rank from <> rank to \/ file from <> file to ->
    ((Js.toLowerCase t === "k") && (Z.abs (file to - file from) =? 2)) = false ->
    ((Js.toLowerCase t === "p") &&
     isTarget (enPassantTarget s) (rank to) (file to)) = false ->
    cell (positions (execM (movePiece from to) s)) r f =
    if (r =? rank to) && (f =? file to)
    then (if (t === "P") && (rank to =? 0) then "Q"
          else if (t === "p") && (rank to =? 7) then "q" else t)
    else if (r =? rank from) && (f =? file from) then ""
         else cell (positions s) r f.
Proof.
  intros s from to r f t Hwf Hfrom Hto Hne Hcastle Hep.
  rewrite movePiece_positions, positions_applyMechanics. fold t.
  assert (Hrel : positions
            (execM (castleRook from to t (colorOf t))
               (execM (relocate from to t) (execM (enPassantStep from to t) s)))
          = setCell (rank from) (file from) ""
              (setCell (rank to) (file to) t (positions s))).
  { unfold castleRook. rewrite Hcastle. cbn [whenM].
    change (execM (ret tt) ?x) with x.
    rewrite positions_relocate, positions_enPassantStep, Hep. reflexivity. }
  assert (Hwf1 : wfGrid (setCell (rank to) (file to) t (positions s)))
    by (apply wfGrid_setCell; assumption).
  assert (Hwf2 : wfGrid (setCell (rank from) (file from) ""
                           (setCell (rank to) (file to) t (positions s))))
    by (apply wfGrid_setCell; assumption).
  assert (Hmoved : forall r f,
             cell (setCell (rank from) (file from) ""
                     (setCell (rank to) (file to) t (positions s))) r f =
             if (r =? rank to) && (f =? file to) then t
             else if (r =? rank from) && (f =? file from) then ""
                  else cell (positions s) r f).
  { intros r0 f0. rewrite !cell_setCell by assumption.
    destruct ((r0 =? rank from) && (f0 =? file from)) eqn:H1;
      destruct ((r0 =? rank to) && (f0 =? file to)) eqn:H2; try reflexivity.
    apply andb_prop in H1, H2. destruct H1 as [H1 H1'], H2 as [H2 H2'].
    apply Z.eqb_eq in H1, H1', H2, H2'. lia. }
  rewrite positions_promote, Hrel.
  destruct ((t === "P") && (rank to =? 0)); [| destruct ((t === "p") && (rank to =? 7))].
  - rewrite cell_setCell by assumption.
    destruct ((r =? rank to) && (f =? file to)) eqn:H2; [reflexivity |].
    rewrite Hmoved, H2. reflexivity.
  - rewrite cell_setCell by assumption.
    destruct ((r =? rank to) && (f =? file to)) eqn:H2; [reflexivity |].
    rewrite Hmoved, H2. reflexivity.
  - apply Hmoved.
Qed.

(** After 1. e4 d5 the capture 2. exd5 empties e4, puts the pawn on d5
    and leaves, for one, the queen on d8 where she was. *)
Lemma ordinary_move_grid_witness :
  let s := applyAll [mv 6 4 4 4; mv 1 3 3 3] constructor in
  let s' := execM (movePiece (mkSq 4 4) (mkSq 3 3)) s in
  cell (positions s) 3 3 = "p" /\
  cell (positions s') 3 3 = "P" /\
  cell (positions s') 4 4 = "" /\
  cell (positions s') 0 3 = cell (positions s) 0 3.
Proof.
  intros s s'.
  assert (Hwf : wfGrid (positions s))
    by (split; [reflexivity | vm_compute; repeat constructor]).
  assert (Hne : rank (mkSq 4 4) <> rank (mkSq 3 3) \/
                file (mkSq 4 4) <> file (mkSq 3 3)) by (left; cbn; lia).
  pose proof (fun r f =>
    @ordinary_move_grid s (mkSq 4 4) (mkSq 3 3) r f Hwf eq_refl eq_refl Hne
      ltac:(vm_compute; reflexivity) ltac:(vm_compute; reflexivity)) as H.
  unfold s'.
  split; [vm_compute; reflexivity |].
  split; [rewrite (H 3 3); vm_compute; reflexivity |].
  split; [rewrite (H 4 4); vm_compute; reflexivity |].
  rewrite (H 0 3). vm_compute. reflexivity.
Defined.

Lemma positions_castleRook : forall from to t color s,
    positions (execM (castleRook from to t color) s) =
    let homeRow := match color with white => 7 | black => 0 end in
    let rookChar := match color with white => "R" | black => "r" end in
    if (Js.toLowerCase t === "k") && (Z.abs (file to - file from) =? 2)
    then if file to >? file from
         then setCell homeRow 7 "" (setCell homeRow 5 rookChar (positions s))
         else setCell homeRow 0 "" (setCell homeRow 3 rookChar (positions s))
    else positions s.
Proof.
  intros from to t color s. unfold castleRook.
  destruct ((Js.toLowerCase t === "k") && (Z.abs (file to - file from) =? 2));
    [| reflexivity].
  cbv zeta. cbn [whenM]. destruct (file to >? file from); reflexivity.
Qed.

(** The letters [movePiece] can leave on a square: what was there, the
    empty string, a rook or a queen, or the moved letter on the
    destination when it is not promoted. *)
Lemma movePiece_cell_cases : forall s from to r f,
    let t := cell (positions s) (rank from) (file from) in
    let c' := cell (positions (execM (movePiece from to) s)) r f in
    wfGrid (positions s) ->
    inB (rank from) (file from) = true ->
    inB (rank to) (file to) = true ->
    c' = cell (positions s) r f \/
    In c' [""; "R"; "r"; "Q"; "q"] \/
    (c' = t /\ r = rank to /\ f = file to /\
     ((t === "P") && (rank to =? 0)) = false /\
     ((t === "p") && (rank to =? 7)) = false).
Proof.
  intros s from to r f t c' Hwf Hfrom Hto. unfold c'. clear c'.
  rewrite movePiece_positions, positions_applyMechanics. fold t.
  rewrite positions_promote, positions_castleRook, positions_relocate,
    positions_enPassantStep. cbv zeta.
  set (g0 := positions s) in *.
  assert (HfromTo : inB (rank from) (file to) = true)
    by (apply inB_bounds; apply inB_bounds in Hfrom, Hto; lia).
  set (g1 := if (Js.toLowerCase t === "p") &&
                isTarget (enPassantTarget s) (rank to) (file to)
             then setCell (rank from) (file to) "" g0 else g0).
  assert (Hwf1 : wfGrid g1)
    by (unfold g1; destruct (_ && _); [apply wfGrid_setCell |]; exact Hwf).
  assert (H1 : cell g1 r f = cell g0 r f \/ cell g1 r f = "").
  { unfold g1. destruct (_ && _); [| now left].
    rewrite cell_setCell by assumption. destruct (_ && _); auto. }
  set (g2 := setCell (rank from) (file from) "" (setCell (rank to) (file to) t g1)).
  assert (Hwf2 : wfGrid g2) by (unfold g2; do 2 apply wfGrid_setCell; exact Hwf1).
  assert (H2 : cell g2 r f =
               if (r =? rank from) && (f =? file from) then ""
               else if (r =? rank to) && (f =? file to) then t else cell g1 r f).
  { unfold g2. rewrite !cell_setCell; try assumption; [reflexivity |].
    apply wfGrid_setCell; exact Hwf1. }
  set (hr := match colorOf t with white => 7 | black => 0 end).
  set (rc := match colorOf t with white => "R" | black => "r" end).
  assert (Hhr : forall k, 0 <= k < 8 -> inB hr k = true)
    by (intros k Hk; apply inB_bounds; unfold hr; destruct (colorOf t); lia).
  assert (Hrc : rc = "R" \/ rc = "r") by (unfold rc; destruct (colorOf t); auto).
  destruct (t === "P") eqn:HP; cbn [andb].
  { apply String.eqb_eq in HP. rewrite HP in *.
    change (Js.toLowerCase "P" === "k") with false. cbn [andb].
    fold g2.
    destruct (rank to =? 0) eqn:H0.
    - rewrite cell_setCell by assumption.
      destruct ((r =? rank to) && (f =? file to)) eqn:Hat; [simpl; auto 10 |].
      rewrite H2.
      destruct ((r =? rank from) && (f =? file from)); [simpl; auto 10 |].
      destruct H1 as [-> | ->]; simpl; auto 10.
    - cbn [String.eqb Ascii.eqb Bool.eqb andb].
      rewrite H2.
      destruct ((r =? rank from) && (f =? file from)); [simpl; auto 10 |].
      destruct ((r =? rank to) && (f =? file to)) eqn:Hat.
      + apply andb_prop in Hat. destruct Hat as [Hr Hf].
        apply Z.eqb_eq in Hr, Hf. right. right. auto.
      + destruct H1 as [-> | ->]; simpl; auto 10. }
  destruct ((t === "p") && (rank to =? 7)) eqn:Hp.
  { apply andb_prop in Hp. destruct Hp as [Hp H7].
    apply String.eqb_eq in Hp. rewrite Hp in *.
    change (Js.toLowerCase "p" === "k") with false. cbn [andb].
    fold g2.
    rewrite cell_setCell by assumption.
    destruct ((r =? rank to) && (f =? file to)) eqn:Hat; [simpl; auto 10 |].
    rewrite H2.
    destruct ((r =? rank from) && (f =? file from)); [simpl; auto 10 |].
    destruct H1 as [-> | ->]; simpl; auto 10. }
  assert (Hg2 : cell g2 r f = cell g0 r f \/
                In (cell g2 r f) [""; "R"; "r"; "Q"; "q"] \/
                cell g2 r f = t /\ r = rank to /\ f = file to /\ false = false /\
                false = false).
  { rewrite H2.
    destruct ((r =? rank from) && (f =? file from)); [simpl; auto 10 |].
    destruct ((r =? rank to) && (f =? file to)) eqn:Hat.
    - apply andb_prop in Hat. destruct Hat as [Hr Hf].
      apply Z.eqb_eq in Hr, Hf. right. right. auto.
    - destruct H1 as [-> | ->]; simpl; auto 10. }
  fold g2.
  destruct ((Js.toLowerCase t === "k") && (Z.abs (file to - file from) =? 2));
    [| exact Hg2].
  destruct (file to >? file from).
  - rewrite !cell_setCell;
      try first [ apply Hhr; lia | apply wfGrid_setCell; exact Hwf2 | exact Hwf2 ].
    destruct ((r =? hr) && (f =? 7)); [simpl; auto 10 |].
    destruct ((r =? hr) && (f =? 5)); [| exact Hg2].
    destruct Hrc as [-> | ->]; simpl; auto 10.
  - rewrite !cell_setCell;
      try first [ apply Hhr; lia | apply wfGrid_setCell; exact Hwf2 | exact Hwf2 ].
    destruct ((r =? hr) && (f =? 0)); [simpl; auto 10 |].
    destruct ((r =? hr) && (f =? 3)); [| exact Hg2].
    destruct Hrc as [-> | ->]; simpl; auto 10.
Qed.

(** ** Promotion cannot be skipped *)

Lemma pawnMoves_rank : forall b ep r f type to,
    In to (pawnMoves b ep r f type) ->
    let dir := if type === "P" then -1 else 1 in
    rank to = r + dir \/ rank to = r + dir * 2.
Proof.
  intros b ep r f type to Hin dir. unfold pawnMoves in Hin. fold dir in Hin.
  rewrite !in_app_iff in Hin. cbn [flat_map] in Hin.
  rewrite app_nil_r, in_app_iff in Hin.
  destruct Hin as [Hin | [Hin | [Hin | Hin]]];
    match type of Hin with
    | In _ (if ?c then _ else _) => destruct c; [| contradiction]
    end;
    destruct Hin as [<- | []]; cbn [rank]; auto.
Qed.

Lemma legal_pawn_rank : forall s from type ic to,
    (Js.toLowerCase type === "p") = true ->
    In to (evalM (getLegal from type ic) s) ->
    let dir := if type === "P" then -1 else 1 in
    rank to = rank from + dir \/ rank to = rank from + dir * 2.
Proof.
  intros s from type ic to Hp Hin.
  apply getLegal_candidate in Hin. rewrite candidates_eval in Hin.
  cbv zeta in Hin. rewrite Hp in Hin.
  apply (pawnMoves_rank _ _ _ _ _ _ Hin).
Qed.

Lemma noEndPawns_movePiece : forall s from to,
    wfGrid (positions s) ->
    noEndPawns (positions s) ->
    legalFor s from to = true ->
    noEndPawns (positions (execM (movePiece from to) s)).
Proof.
  intros s from to Hwf Hinv Hlegal r f Hr.
  unfold legalFor in Hlegal. cbv zeta in Hlegal.
  set (t := cell (positions s) (rank from) (file from)) in *.
  apply andb_prop in Hlegal. destruct Hlegal as [Hmine Hex].
  apply andb_prop in Hmine. destruct Hmine as [Htruthy _].
  assert (Hfrom : inB (rank from) (file from) = true).
  { apply (@cell_inB _ _ _ Hwf). fold t. intros E. rewrite E in Htruthy. discriminate. }
  apply existsb_exists in Hex. destruct Hex as (to' & Hin & Heq).
  assert (to' = to) as ->.
  { unfold sqEqb in Heq. apply andb_prop in Heq. destruct Heq as [H1 H2].
    apply Z.eqb_eq in H1, H2. destruct to, to'. cbn [rank file] in *. congruence. }
  assert (Hto : inB (rank to) (file to) = true) by exact (getLegal_inB _ _ _ _ _ Hfrom Hin).
  destruct (movePiece_cell_cases s from to r f Hwf Hfrom Hto) as [-> | [Hc | Hc]].
  - apply Hinv, Hr.
  - cbn [In] in Hc.
    destruct Hc as [<- | [<- | [<- | [<- | [<- | []]]]]]; reflexivity.
  - fold t in Hc. destruct Hc as (-> & -> & _ & HP & Hp).
    destruct (Js.toLowerCase t === "p") eqn:Hpawn; [exfalso | reflexivity].
    pose proof (legal_pawn_rank s from t false to Hpawn Hin) as Hrank.
    cbv zeta in Hrank.
    apply inB_bounds in Hfrom, Hto.
    destruct (toLowerCase_p _ Hpawn) as [E | E]; rewrite E in *;
      cbn [String.eqb Ascii.eqb Bool.eqb andb] in *.
    + apply Z.eqb_neq in HP. lia.
    + apply Z.eqb_neq in Hp. lia.
Qed.

(** X13: promotion cannot be skipped.  In every position reached from the
    initial one by legal moves of the side to move, no pawn of either
    colour stands on rank 0 or on rank 7. *)
Theorem reachable_no_end_pawns : forall s r f,
    reachable s ->
    r = 0 \/ r = 7 ->
    (Js.toLowerCase (cell (positions s) r f) === "p") = false.
Proof.
  intros s r f Hreach. revert r f. change (noEndPawns (positions s)).
  induction Hreach as [| s from to Hreach IH Hlegal].
  - intros r f [-> | ->].
    + destruct (inB 0 f) eqn:Hb.
      * apply inB_bounds in Hb.
        assert (Hf : f = 0 \/ f = 1 \/ f = 2 \/ f = 3 \/ f = 4 \/ f = 5 \/
                     f = 6 \/ f = 7) by lia.
        destruct Hf as [-> | [-> | [-> | [-> | [-> | [-> | [-> | ->]]]]]]];
          reflexivity.
      * destruct (cell (positions constructor) 0 f === "") eqn:E.
        { apply String.eqb_eq in E. rewrite E. reflexivity. }
        apply String.eqb_neq in E.
        apply (@cell_inB _ _ _ wfGrid_constructor) in E. congruence.
    + destruct (inB 7 f) eqn:Hb.
      * apply inB_bounds in Hb.
        assert (Hf : f = 0 \/ f = 1 \/ f = 2 \/ f = 3 \/ f = 4 \/ f = 5 \/
                     f = 6 \/ f = 7) by lia.
        destruct Hf as [-> | [-> | [-> | [-> | [-> | [-> | [-> | ->]]]]]]];
          reflexivity.
      * destruct (cell (positions constructor) 7 f === "") eqn:E.
        { apply String.eqb_eq in E. rewrite E. reflexivity. }
        apply String.eqb_neq in E.
        apply (@cell_inB _ _ _ wfGrid_constructor) in E. congruence.
  - apply noEndPawns_movePiece; [apply reachable_wfGrid; exact Hreach | exact IH | exact Hlegal].
Qed.

(** In the game 1. a4 b5 2. axb5 a6 3. bxa6 Bb7 4. axb7 Nc6 5. bxa8 the
    pawn arrives on a8, which then holds a queen. *)
Lemma reachable_no_end_pawns_witness :
  let ms := [mv 6 0 4 0; mv 1 1 3 1; mv 4 0 3 1; mv 1 0 2 0; mv 3 1 2 0;
             mv 0 2 1 1; mv 2 0 1 1; mv 0 1 2 2; mv 1 1 0 0] in
  let s := applyAll ms constructor in
  play ms constructor = Some s /\
  cell (positions s) 0 0 = "Q" /\
  (Js.toLowerCase (cell (positions s) 0 0) === "p") = false.
Proof.
  intros ms s.
  assert (Hplay : play ms constructor = Some s) by (vm_compute; reflexivity).
  split; [exact Hplay |].
  split; [vm_compute; reflexivity |].
  apply reachable_no_end_pawns; [| left; reflexivity].
  exact (@play_reachable ms constructor s reach_init Hplay).
Defined.

(** ** What [isInCheck] depends on *)

Lemma copyGrid_id : forall g, copyGrid g = g.
Proof. intros g. unfold copyGrid. apply map_id. Qed.

Lemma In_allSquares : forall sq,
    inB (rank sq) (file sq) = true -> In sq allSquares.
Proof.
  intros [r f] Hb. cbn [rank file] in Hb. apply inB_bounds in Hb.
  unfold allSquares. apply in_flat_map. exists r. split.
  - unfold range8. cbn [In]. lia.
  - apply in_map. unfold range8. cbn [In]. lia.
Qed.

Lemma findKing_eval : forall c s,
    evalM (findKing c) s =
    match find (fun sq => Js.truthy (cell (positions s) (rank sq) (file sq)) &&
                          (cell (positions s) (rank sq) (file sq) === kingLetter c))
               allSquares with
    | Some sq => sq
    | None => mkSq 0 0
    end.
Proof. intros [] s; reflexivity. Qed.

(** [findKing] finds a king that stands on the board. *)
Lemma findKing_finds : forall c s sq,
    inB (rank sq) (file sq) = true ->
    cell (positions s) (rank sq) (file sq) = kingLetter c ->
    kingOnBoard c s.
Proof.
  intros c s sq Hb Hcell. unfold kingOnBoard. cbv zeta. rewrite findKing_eval.
  destruct (find _ allSquares) as [k |] eqn:Hfind.
  - apply find_some in Hfind. destruct Hfind as [_ Hk].
    apply andb_prop in Hk. destruct Hk as [_ Hk]. now apply String.eqb_eq in Hk.
  - exfalso. pose proof (find_none _ _ Hfind sq (In_allSquares sq Hb)) as Hno.
    cbv beta in Hno. rewrite Hcell in Hno. destruct c; discriminate.
Qed.

Lemma hits_eval : forall a tr tf sq s,
    evalM (hits getLegal a tr tf sq) s =
    let p := cell (positions s) (rank sq) (file sq) in
    Js.truthy p && colorEqb (colorOf p) a &&
    existsb (fun m => (rank m =? tr) && (file m =? tf))
            (evalM (candidates getLegal sq p true) s).
Proof.
  intros a tr tf sq s. unfold hits.
  rewrite evalM_bind by pure_tac.
  change (evalM (gets _) s) with (cell (positions s) (rank sq) (file sq)).
  cbv zeta.
  destruct (Js.truthy (cell (positions s) (rank sq) (file sq))); [| reflexivity].
  destruct (colorEqb (colorOf (cell (positions s) (rank sq) (file sq))) a);
    [| reflexivity].
  cbn [negb andb].
  rewrite evalM_bind by apply pure_getLegal.
  rewrite getLegal_attack_eq. reflexivity.
Qed.

Lemma isInCheck_eval : forall c s,
    evalM (isInCheck c) s =
    let k := evalM (findKing c) s in
    existsb (fun sq => evalM (hits getLegal (opposite c) (rank k) (file k) sq) s)
            allSquares.
Proof.
  intros c s. unfold isInCheck, isInCheckWith.
  rewrite evalM_bind by apply pure_findKing.
  cbv zeta. apply evalM_someM. intros sq.
  apply @pure_hits. intros. apply pure_getLegal.
Qed.

(** On a square held by an enemy of the pawn, the en-passant target makes
    no difference to whether the pawn lists it. *)
Lemma pawnMoves_hits_enemy : forall b ep1 ep2 r f p tr tf,
    isEnemy b p tr tf = true ->
    existsb (fun m => (rank m =? tr) && (file m =? tf)) (pawnMoves b ep1 r f p) =
    existsb (fun m => (rank m =? tr) && (file m =? tf)) (pawnMoves b ep2 r f p).
Proof.
  intros b ep1 ep2 r f p tr tf Hen. unfold pawnMoves.
  rewrite !existsb_app. f_equal. f_equal.
  cbn [flat_map]. rewrite !app_nil_r, !existsb_app.
  set (dir := if p === "P" then -1 else 1).
  assert (Hone : forall df,
             existsb (fun m => (rank m =? tr) && (file m =? tf))
               (if inB (r + dir) (f + df) &&
                   (isEnemy b p (r + dir) (f + df) || isTarget ep1 (r + dir) (f + df))
                then [mkSq (r + dir) (f + df)] else []) =
             existsb (fun m => (rank m =? tr) && (file m =? tf))
               (if inB (r + dir) (f + df) &&
                   (isEnemy b p (r + dir) (f + df) || isTarget ep2 (r + dir) (f + df))
                then [mkSq (r + dir) (f + df)] else [])).
  { intros df.
    destruct ((r + dir =? tr) && (f + df =? tf)) eqn:Hat.
    - apply andb_prop in Hat. destruct Hat as [H1 H2].
      apply Z.eqb_eq in H1, H2. rewrite H1, H2, Hen. reflexivity.
    - destruct (inB (r + dir) (f + df) && _), (inB (r + dir) (f + df) && _);
        cbn [existsb rank file]; rewrite ?Hat; reflexivity. }
  rewrite (Hone (-1)), (Hone 1). reflexivity.
Qed.

Lemma isEnemy_of_king : forall b c p tr tf,
    cell b tr tf = kingLetter c ->
    colorEqb (colorOf p) (opposite c) = true ->
    isEnemy b p tr tf = true.
Proof.
  intros b c p tr tf Hcell Hcol. unfold isEnemy. rewrite Hcell.
  unfold colorOf in Hcol.
  destruct c, (isUpper p); try discriminate; reflexivity.
Qed.

Lemma hits_grid_only : forall c s1 s2 tr tf sq,
    positions s1 = positions s2 ->
    cell (positions s1) tr tf = kingLetter c ->
    evalM (hits getLegal (opposite c) tr tf sq) s1 =
    evalM (hits getLegal (opposite c) tr tf sq) s2.
Proof.
  intros c s1 s2 tr tf sq Hpos Hcell. rewrite !hits_eval. cbv zeta.
  rewrite <- Hpos.
  set (p := cell (positions s1) (rank sq) (file sq)).
  destruct (Js.truthy p); [| reflexivity].
  destruct (colorEqb (colorOf p) (opposite c)) eqn:Hcol; [| reflexivity].
  cbn [andb]. rewrite !candidates_eval. cbv zeta. rewrite <- Hpos.
  destruct (Js.toLowerCase p === "p"); [| reflexivity].
  apply pawnMoves_hits_enemy. apply (isEnemy_of_king _ c); assumption.
Qed.

Lemma isInCheck_same_grid : forall c s1 s2,
    positions s1 = positions s2 ->
    kingOnBoard c s1 ->
    evalM (isInCheck c) s1 = evalM (isInCheck c) s2.
Proof.
  intros c s1 s2 Hpos Hking. unfold kingOnBoard in Hking. cbv zeta in Hking.
  rewrite !isInCheck_eval. cbv zeta.
  assert (Hk : evalM (findKing c) s2 = evalM (findKing c) s1)
    by (rewrite !findKing_eval, Hpos; reflexivity).
  rewrite Hk.
  induction allSquares as [| sq rest IH]; [reflexivity |].
  cbn [existsb]. rewrite IH. f_equal.
  apply hits_grid_only; assumption.
Qed.

(** X14: whether a king is in check is a matter of the grid alone.  For
    two objects with the same grid, on which [findKing] does find the king
    of the colour asked about, [isInCheck] answers the same, whatever the
    turn, the moved-flags, the en-passant target and the game-over fields
    are. *)
Theorem isInCheck_grid_only : forall c s1 s2,
    positions s1 = positions s2 ->
    kingOnBoard c s1 ->
    evalM (isInCheck c) s1 = evalM (isInCheck c) s2.
Proof. exact isInCheck_same_grid. Qed.

(** After 1. e4 e5 2. Qh5 the black king is not in check, and neither is
    it on the same grid with the turn, the flags and the target changed. *)
Lemma isInCheck_grid_only_witness :
  let s1 := applyAll [mv 6 4 4 4; mv 1 4 3 4; mv 7 3 3 7] constructor in
  let s2 := set_turn white
              (set_enPassantTarget (Some (mkSq 2 5))
                 (set_kingMoved (mkByColor true true) s1)) in
  evalM (isInCheck black) s1 = false /\ evalM (isInCheck black) s2 = false.
Proof.
  intros s1 s2.
  assert (H1 : evalM (isInCheck black) s1 = false) by (vm_compute; reflexivity).
  split; [exact H1 |].
  rewrite <- (@isInCheck_grid_only black s1 s2 eq_refl); [exact H1 |].
  vm_compute. reflexivity.
Defined.

(** ** The filter of [getLegal] against what [movePiece] then does *)

Lemma relocated_eq : forall g r f to,
    relocated g r f to =
    setCell r f "" (setCell (rank to) (file to) (cell g r f) g).
Proof. intros. unfold relocated. rewrite copyGrid_id. reflexivity. Qed.

(** Outside castling, en passant and promotion [movePiece] produces the
    grid the filter looked at. *)
Lemma ordinary_positions : forall s from to,
    let t := cell (positions s) (rank from) (file from) in
    ((Js.toLowerCase t === "k") && (Z.abs (file to - file from) =? 2)) = false ->
    ((Js.toLowerCase t === "p") &&
     isTarget (enPassantTarget s) (rank to) (file to)) = false ->
    ((t === "P") && (rank to =? 0)) = false ->
    ((t === "p") && (rank to =? 7)) = false ->
    positions (execM (movePiece from to) s) =
    relocated (positions s) (rank from) (file from) to.
Proof.
  intros s from to t Hcastle Hep HP Hp.
  rewrite movePiece_positions, positions_applyMechanics. fold t.
  rewrite positions_promote, HP, Hp, positions_castleRook, Hcastle.
  rewrite positions_relocate, positions_enPassantStep, Hep.
  rewrite relocated_eq. reflexivity.
Qed.

Lemma legalFor_inv : forall s from to,
    legalFor s from to = true ->
    let t := cell (positions s) (rank from) (file from) in
    t <> "" /\ colorOf t = turn s /\ In to (evalM (getLegal from t false) s).
Proof.
  intros s from to Hlegal t. unfold legalFor in Hlegal. fold t in Hlegal.
  apply andb_prop in Hlegal. destruct Hlegal as [Hmine Hex].
  apply andb_prop in Hmine. destruct Hmine as [Htruthy Hcol].
  split; [intros E; rewrite E in Htruthy; discriminate |].
  split; [destruct (colorOf t), (turn s); try discriminate; reflexivity |].
  apply existsb_exists in Hex. destruct Hex as (to' & Hin & Heq).
  unfold sqEqb in Heq. apply andb_prop in Heq. destruct Heq as [H1 H2].
  apply Z.eqb_eq in H1, H2. destruct to, to'. cbn [rank file] in *.
  subst. exact Hin.
Qed.

(** A destination never holds a piece of the mover's colour; in
    particular it is not the origin. *)
Lemma dest_not_own : forall s from to,
    let t := cell (positions s) (rank from) (file from) in
    t <> "" ->
    In to (evalM (getLegal from t false) s) ->
    ((Js.toLowerCase t === "p") &&
     isTarget (enPassantTarget s) (rank to) (file to)) = false ->
    forall q, cell (positions s) (rank to) (file to) = q ->
              q <> "" -> isUpper q <> isUpper t.
Proof.
  intros s from to t Ht Hin Hep q Hq Hne Hsame.
  pose proof (getLegal_dest _ _ _ _ _ Hin) as Hd.
  rewrite Hep, orb_false_r in Hd. unfold isEmp, isEnemy in Hd.
  rewrite Hq, Hsame in Hd. apply String.eqb_neq in Hne. rewrite Hne in Hd.
  rewrite Bool.eqb_reflx in Hd. discriminate.
Qed.

Lemma kingLetter_color : forall t,
    isUpper (kingLetter (colorOf t)) = isUpper t.
Proof. intros t. unfold colorOf. destruct (isUpper t) eqn:E; reflexivity. Qed.

(** X15: outside the three special moves the king-safety filter keeps its
    promise.  On an 8x8 grid with the mover's king on the board, after a
    move that [getLegal] lists for the side to move and that is neither a
    king's step of two files, nor a pawn's step onto the en-passant target,
    nor a promotion, [movePiece] leaves a position in which the mover's
    own king is not in check. *)
Theorem legal_move_leaves_king_safe : forall s from to,
    let t := cell (positions s) (rank from) (file from) in
    wfGrid (positions s) ->
    kingOnBoard (colorOf t) s ->
    legalFor s from to = true ->
    ((Js.toLowerCase t === "k") && (Z.abs (file to - file from) =? 2)) = false ->
    ((Js.toLowerCase t === "p") &&
     isTarget (enPassantTarget s) (rank to) (file to)) = false ->
    ((t === "P") && (rank to =? 0)) = false ->
    ((t === "p") && (rank to =? 7)) = false ->
    evalM (isInCheck (colorOf t)) (execM (movePiece from to) s) = false.
Proof.
  intros s from to t Hwf Hking Hlegal Hcastle Hep HP Hp.
  destruct (legalFor_inv s from to Hlegal) as (Ht & _ & Hin). fold t in Ht, Hin.
  assert (Hfrom : inB (rank from) (file from) = true)
    by (apply (@cell_inB _ _ _ Hwf); exact Ht).
  assert (Hto : inB (rank to) (file to) = true)
    by exact (getLegal_inB _ _ _ _ _ Hfrom Hin).
  pose proof (dest_not_own s from to Ht Hin Hep) as Hown. fold t in Hown.
  assert (Hne : rank from <> rank to \/ file from <> file to).
  { destruct (Z.eq_dec (rank from) (rank to)) as [Er | Er]; [| now left].
    destruct (Z.eq_dec (file from) (file to)) as [Ef | Ef]; [| now right].
    exfalso. apply (Hown t); [rewrite <- Er, <- Ef; reflexivity | exact Ht | reflexivity]. }
  assert (Hsafe : leavesKingInCheck s from t to = false).
  { rewrite getLegal_filter_eq in Hin. apply filter_In in Hin.
    destruct Hin as [_ Hin]. now apply negb_true_iff in Hin. }
  unfold leavesKingInCheck in Hsafe.
  set (g' := relocated (positions s) (rank from) (file from) to) in *.
  assert (Hpos : positions (set_positions g' s) =
                 positions (execM (movePiece from to) s))
    by (symmetry; apply ordinary_positions; assumption).
  rewrite <- (@isInCheck_same_grid (colorOf t) (set_positions g' s)
                (execM (movePiece from to) s) Hpos); [exact Hsafe |].
  (* the king is still on the board *)
  unfold kingOnBoard in Hking. cbv zeta in Hking.
  set (k := evalM (findKing (colorOf t)) s) in *.
  assert (Hk : inB (rank k) (file k) = true).
  { apply (@cell_inB _ _ _ Hwf). rewrite Hking. destruct (colorOf t); discriminate. }
  assert (Hcell : forall r f,
             cell g' r f =
             if (r =? rank from) && (f =? file from) then ""
             else if (r =? rank to) && (f =? file to) then t
                  else cell (positions s) r f).
  { intros r f. unfold g'. rewrite relocated_eq. fold t.
    rewrite !cell_setCell; try assumption; [reflexivity |].
    apply wfGrid_setCell; exact Hwf. }
  destruct ((rank k =? rank from) && (file k =? file from)) eqn:Hkf.
  - apply andb_prop in Hkf. destruct Hkf as [E1 E2]. apply Z.eqb_eq in E1, E2.
    apply (findKing_finds (colorOf t) (set_positions g' s) to Hto).
    change (positions (set_positions g' s)) with g'. rewrite Hcell.
    rewrite E1, E2 in Hking. fold t in Hking.
    destruct ((rank to =? rank from) && (file to =? file from)) eqn:Hat.
    { apply andb_prop in Hat. destruct Hat as [A1 A2]. apply Z.eqb_eq in A1, A2. lia. }
    rewrite !Z.eqb_refl. exact Hking.
  - apply (findKing_finds (colorOf t) (set_positions g' s) k Hk).
    change (positions (set_positions g' s)) with g'. rewrite Hcell, Hkf.
    destruct ((rank k =? rank to) && (file k =? file to)) eqn:Hkt; [| exact Hking].
    exfalso. apply andb_prop in Hkt. destruct Hkt as [E1 E2].
    apply Z.eqb_eq in E1, E2. rewrite E1, E2 in Hking.
    apply (Hown _ Hking); [destruct (colorOf t); discriminate |].
    apply kingLetter_color.
Qed.

(** After 1. e4 e5 2. Qh5 the queen bears on f7 and e5.  Black may play
    2... g6, and the black king is not in check afterwards. *)
Lemma legal_move_leaves_king_safe_witness :
  legalFor pinnedPawn (mkSq 1 6) (mkSq 2 6) = true /\
  evalM (isInCheck black)
        (execM (movePiece (mkSq 1 6) (mkSq 2 6)) pinnedPawn) = false.
Proof.
  assert (Hwf : wfGrid (positions pinnedPawn))
    by (split; [reflexivity | repeat constructor]).
  assert (Hking : kingOnBoard black pinnedPawn) by (vm_compute; reflexivity).
  assert (Hlegal : legalFor pinnedPawn (mkSq 1 6) (mkSq 2 6) = true)
    by (vm_compute; reflexivity).
  split; [exact Hlegal |].
  exact (@legal_move_leaves_king_safe pinnedPawn (mkSq 1 6) (mkSq 2 6)
           Hwf Hking Hlegal eq_refl eq_refl eq_refl eq_refl).
Defined.

(** ** The game-over test *)

Lemma In_enumFrom : forall (A : Type) (d : A) (l : list A) (k i : Z) (x : A),
    In (i, x) (enumFrom k l) <->
    k <= i < k + Z.of_nat (List.length l) /\ nth (Z.to_nat (i - k)) l d = x.
Proof.
  intros A d l. induction l as [| y rest IH]; intros k i x; cbn [enumFrom In List.length].
  - split; [contradiction | lia].
  - rewrite IH. split.
    + intros [H | [Hr Hn]].
      * injection H as <- <-. rewrite Z.sub_diag. split; [lia | reflexivity].
      * split; [lia |].
        replace (Z.to_nat (i - k)) with (S (Z.to_nat (i - (k + 1)))) by lia.
        exact Hn.
    + intros [Hr Hn]. destruct (Z.eq_dec i k) as [-> | Hne].
      * left. rewrite Z.sub_diag in Hn. cbn in Hn. now subst.
      * right. split; [lia |].
        replace (Z.to_nat (i - k)) with (S (Z.to_nat (i - (k + 1)))) in Hn by lia.
        exact Hn.
Qed.

(** The entries of an 8x8 grid are its 64 squares with their letters. *)
Lemma In_entries : forall g p sq,
    wfGrid g ->
    (In (p, sq) (entries g) <->
     inB (rank sq) (file sq) = true /\ p = cell g (rank sq) (file sq)).
Proof.
  intros g p [r f] Hwf. cbn [rank file]. unfold entries.
  rewrite in_flat_map. rewrite inB_bounds. split.
  - intros ([i row] & Hrow & Hin). cbn [fst snd] in Hin.
    apply in_map_iff in Hin. destruct Hin as ([j q] & Heq & Hq).
    cbn [fst snd] in Heq. injection Heq as -> -> ->.
    apply (In_enumFrom [] g) in Hrow. apply (In_enumFrom "" row) in Hq.
    destruct Hrow as [Hr Hrow], Hq as [Hf Hq].
    rewrite Z.sub_0_r in Hrow, Hq.
    assert (Hlen : List.length row = 8%nat).
    { destruct Hwf as [Hl Hrows]. rewrite Forall_forall in Hrows.
      apply Hrows. rewrite <- Hrow. apply nth_In. lia. }
    destruct Hwf as [Hl _]. rewrite Hl in Hr. rewrite Hlen in Hf.
    split; [lia |].
    unfold cell, Js.index, Js.indexRow.
    destruct (r <? 0) eqn:E1; [lia |]. destruct (f <? 0) eqn:E2; [lia |].
    rewrite Hrow. symmetry. exact Hq.
  - intros [[Hr Hf] ->].
    exists (r, Js.indexRow g r). split.
    + apply (In_enumFrom [] g). destruct Hwf as [Hl _]. rewrite Hl.
      split; [lia |]. rewrite Z.sub_0_r. unfold Js.indexRow.
      destruct (r <? 0) eqn:E; [lia | reflexivity].
    + cbn [fst snd]. apply in_map_iff.
      exists (f, cell g r f). split; [reflexivity |].
      apply (In_enumFrom "" (Js.indexRow g r)).
      rewrite (wfGrid_row Hwf) by lia.
      split; [lia |]. rewrite Z.sub_0_r. unfold cell, Js.index.
      destruct (f <? 0) eqn:E; [lia | reflexivity].
Qed.

Lemma existsb_pointwise : forall (A : Type) (p q : A -> bool) (l : list A),
    (forall x, p x = q x) -> existsb p l = existsb q l.
Proof.
  intros A p q l H. induction l as [| x rest IH]; [reflexivity |].
  cbn [existsb]. now rewrite H, IH.
Qed.

Lemma anyMoves_eval : forall s,
    evalM anyMoves s =
    existsb (fun x => 0 <? Z.of_nat
                            (List.length (evalM (getLegal (snd x) (fst x) false) s)))
      (filter (fun x => Js.truthy (fst x) && colorEqb (colorOf (fst x)) (turn s))
              (entries (positions s))).
Proof.
  intros s. unfold anyMoves.
  rewrite evalM_bind by pure_tac. rewrite evalM_bind by pure_tac.
  change (evalM (gets positions) s) with (positions s).
  change (evalM (gets turn) s) with (turn s). cbv zeta.
  rewrite evalM_someM.
  - apply existsb_pointwise. intros x.
    rewrite evalM_bind by apply pure_getLegal. reflexivity.
  - intros x. unfold pureM. apply pres_bind; [congruence | apply pure_getLegal |].
    intros l. apply pres_ret. reflexivity.
Qed.

(** The [anyMoves] test is true exactly when the side to move has a piece
    with a legal move. *)
Lemma anyMoves_iff : forall s,
    wfGrid (positions s) ->
    (evalM anyMoves s = true <-> exists from to, legalFor s from to = true).
Proof.
  intros s Hwf. rewrite anyMoves_eval, existsb_exists. split.
  - intros ([p sq] & Hin & Hlen). cbn [fst snd] in *.
    apply filter_In in Hin. destruct Hin as [Hin Hmine]. cbn [fst] in Hmine.
    apply (@In_entries _ _ _ Hwf) in Hin. destruct Hin as [_ ->].
    destruct (evalM (getLegal sq (cell (positions s) (rank sq) (file sq)) false) s)
      as [| to rest] eqn:Hl; [discriminate |].
    exists sq, to. unfold legalFor. cbv zeta. rewrite Hmine, Hl.
    cbn [andb existsb]. unfold sqEqb. rewrite !Z.eqb_refl. reflexivity.
  - intros (from & to & Hlegal).
    unfold legalFor in Hlegal. cbv zeta in Hlegal.
    apply andb_prop in Hlegal. destruct Hlegal as [Hmine Hex].
    exists (cell (positions s) (rank from) (file from), from). split.
    + apply filter_In. split; [| exact Hmine].
      apply (@In_entries _ _ _ Hwf). split; [| reflexivity].
      apply (@cell_inB _ _ _ Hwf). intros E. rewrite E in Hmine. discriminate.
    + cbn [fst snd].
      destruct (evalM (getLegal from _ false) s); [discriminate | reflexivity].
Qed.

Lemma legalFor_sameRules : forall s1 s2 from to,
    sameRules s1 s2 -> legalFor s1 from to = legalFor s2 from to.
Proof.
  intros s1 s2 from to H. unfold legalFor.
  pose proof H as (Hpos & _ & _ & _ & Hturn). rewrite Hpos, Hturn.
  rewrite (sameRules_eval (resp_getLegal from _ false) H). reflexivity.
Qed.

(** When [movePiece] sets [gameOver]. *)
Lemma movePiece_gameOver : forall s from to,
    wfGrid (positions s) ->
    gameOver s = false ->
    let s' := execM (movePiece from to) s in
    gameOver s' = true <-> (forall a b, legalFor s' a b = false).
Proof.
  intros s from to Hwf Hrun s'. unfold s'. clear s'.
  rewrite movePiece_run.
  set (m := execM (applyMechanics from to) s).
  assert (Hm : gameOver m = false).
  { unfold m. rewrite (applyMechanics_untouched gameOver); auto. }
  assert (Hwfm : wfGrid (positions m)) by (apply gridKept_applyMechanics, Hwf).
  assert (Hsame : forall a b, legalFor (execM recomputeStatus m) a b = legalFor m a b).
  { intros a b. symmetry. apply legalFor_sameRules, recomputeStatus_sameRules. }
  pose proof (anyMoves_iff m Hwfm) as Hany.
  assert (Hover : gameOver (execM recomputeStatus m) = negb (evalM anyMoves m)).
  { rewrite recomputeStatus_run.
    destruct (evalM (isInCheck (turn m)) m), (evalM anyMoves m);
      cbn [andb negb]; try exact Hm; reflexivity. }
  rewrite Hover. split.
  - intros Hno a b. rewrite Hsame.
    destruct (legalFor m a b) eqn:Hl; [| reflexivity].
    assert (Htrue : evalM anyMoves m = true) by (apply Hany; eauto).
    rewrite Htrue in Hno. discriminate.
  - intros Hall. destruct (evalM anyMoves m) eqn:Ha; [| reflexivity].
    destruct (proj1 Hany eq_refl) as (a & b & Hl).
    rewrite <- Hsame, Hall in Hl. discriminate.
Qed.

(** X16: the game ends exactly when the side to move is left without a
    legal move.  On an 8x8 grid, for a game not over before the call,
    [movePiece] sets [gameOver] if and only if, in the position it leaves,
    no piece of the side to move has a move that [getLegal] lists. *)
Theorem gameOver_iff_no_legal_move : forall s from to,
    wfGrid (positions s) ->
    gameOver s = false ->
    let s' := execM (movePiece from to) s in
    gameOver s' = true <-> (forall a b, legalFor s' a b = false).
Proof. exact movePiece_gameOver. Qed.

(** 1. f3 e5 2. g4 Qh4: the game is over and white, for one, may not
    answer 3. a3. *)
Lemma gameOver_iff_no_legal_move_witness :
  let s' := execM (movePiece (mkSq 0 3) (mkSq 4 7)) beforeMate in
  gameOver beforeMate = false /\
  gameOver s' = true /\
  legalFor s' (mkSq 6 0) (mkSq 5 0) = false.
Proof.
  intros s'.
  assert (Hwf : wfGrid (positions beforeMate))
    by (split; [reflexivity | repeat constructor]).
  assert (Hover : gameOver s' = true) by (vm_compute; reflexivity).
  split; [reflexivity |]. split; [exact Hover |].
  exact (proj1 (@gameOver_iff_no_legal_move beforeMate (mkSq 0 3) (mkSq 4 7)
                  Hwf eq_refl) Hover (mkSq 6 0) (mkSq 5 0)).
Defined.

(** ** The handlers accept the legal moves and nothing else *)

(** [movePiece] neither reads nor writes [currentDrag]. *)
Lemma enPassantStep_drag : forall from to t d s,
    execM (enPassantStep from to t) (set_currentDrag d s) =
    set_currentDrag d (execM (enPassantStep from to t) s).
Proof.
  intros. unfold enPassantStep, write, whenM. rewrite !execM_bind.
  change (evalM (gets enPassantTarget) (set_currentDrag d s))
    with (enPassantTarget s).
  change (evalM (gets enPassantTarget) s) with (enPassantTarget s).
  destruct ((Js.toLowerCase t === "p") &&
            isTarget (enPassantTarget s) (rank to) (file to));
    destruct ((Js.toLowerCase t === "p") && (Z.abs (rank to - rank from) =? 2));
    reflexivity.
Qed.

Lemma relocate_drag : forall from to t d s,
    execM (relocate from to t) (set_currentDrag d s) =
    set_currentDrag d (execM (relocate from to t) s).
Proof. reflexivity. Qed.

Lemma castleRook_drag : forall from to t color d s,
    execM (castleRook from to t color) (set_currentDrag d s) =
    set_currentDrag d (execM (castleRook from to t color) s).
Proof.
  intros. unfold castleRook, whenM.
  destruct ((Js.toLowerCase t === "k") && (Z.abs (file to - file from) =? 2));
    [| reflexivity].
  cbv zeta. destruct (file to >? file from); reflexivity.
Qed.

Lemma updateMovedFlags_drag : forall from t d s,
    execM (updateMovedFlags from t) (set_currentDrag d s) =
    set_currentDrag d (execM (updateMovedFlags from t) s).
Proof.
  intros. unfold updateMovedFlags, whenM.
  destruct (t === "K"); [reflexivity |].
  destruct (t === "k"); [reflexivity |].
  destruct (t === "R").
  { destruct ((rank from =? 7) && (file from =? 0)),
             ((rank from =? 7) && (file from =? 7)); reflexivity. }
  destruct (t === "r"); [| reflexivity].
  destruct ((rank from =? 0) && (file from =? 0)),
           ((rank from =? 0) && (file from =? 7)); reflexivity.
Qed.

Lemma promote_drag : forall to t d s,
    execM (promote to t) (set_currentDrag d s) =
    set_currentDrag d (execM (promote to t) s).
Proof.
  intros. unfold promote, whenM.
  destruct ((t === "P") && (rank to =? 0)), ((t === "p") && (rank to =? 7));
    reflexivity.
Qed.

Lemma applyMechanics_drag : forall from to d s,
    execM (applyMechanics from to) (set_currentDrag d s) =
    set_currentDrag d (execM (applyMechanics from to) s).
Proof.
  intros from to d s. rewrite !applyMechanics_run.
  change (positions (set_currentDrag d s)) with (positions s).
  rewrite enPassantStep_drag, relocate_drag, castleRook_drag,
    updateMovedFlags_drag, promote_drag.
  reflexivity.
Qed.

Lemma sameRules_drag : forall d s, sameRules (set_currentDrag d s) s.
Proof. intros. unfold sameRules. auto. Qed.

Lemma recomputeStatus_drag : forall d s,
    execM recomputeStatus (set_currentDrag d s) =
    set_currentDrag d (execM recomputeStatus s).
Proof.
  intros d s. rewrite !recomputeStatus_run.
  change (turn (set_currentDrag d s)) with (turn s).
  rewrite (sameRules_eval (resp_isInCheck (turn s)) (sameRules_drag d s)).
  rewrite (sameRules_eval resp_anyMoves (sameRules_drag d s)).
  assert (Hdeclare : forall kind,
             declare kind (set_currentDrag d s) = set_currentDrag d (declare kind s)).
  { intros kind. unfold declare.
    change (turn (set_currentDrag d s)) with (turn s).
    rewrite !findKing_eval. reflexivity. }
  destruct (evalM (isInCheck (turn s)) s), (evalM anyMoves s); cbn [andb negb];
    auto.
Qed.

Lemma movePiece_drag : forall from to d s,
    execM (movePiece from to) (set_currentDrag d s) =
    set_currentDrag d (execM (movePiece from to) s).
Proof.
  intros. rewrite !movePiece_run, applyMechanics_drag, recomputeStatus_drag.
  reflexivity.
Qed.

Lemma set_currentDrag_same : forall s, set_currentDrag (currentDrag s) s = s.
Proof. intros []. reflexivity. Qed.

Lemma set_currentDrag_twice : forall d d' s,
    set_currentDrag d (set_currentDrag d' s) = set_currentDrag d s.
Proof. reflexivity. Qed.

Lemma existsb_sqEqb : forall to l,
    existsb (fun m => (rank m =? rank to) && (file m =? file to)) l =
    existsb (sqEqb to) l.
Proof.
  intros to l. apply existsb_pointwise. intros m. unfold sqEqb.
  now rewrite (Z.eqb_sym (rank m)), (Z.eqb_sym (file m)).
Qed.

(** A drag from [from] to [to], begun with no drag pending, is
    [movePiece] when the game is on and the move is legal for the side to
    move, and nothing at all otherwise. *)
Lemma dragDrop_run : forall s from to,
    currentDrag s = None ->
    execM (dragDrop from to) s =
    if negb (gameOver s) && legalFor s from to
    then execM (movePiece from to) s
    else s.
Proof.
  intros s from to Hidle. unfold dragDrop. rewrite execM_seq.
  unfold legalFor. cbv zeta.
  set (t := cell (positions s) (rank from) (file from)).
  assert (Hpress : execM (press from) s =
            if negb (gameOver s) && Js.truthy t && colorEqb (colorOf t) (turn s)
            then match evalM (getLegal from t false) s with
                 | [] => s
                 | _ :: _ => set_currentDrag (Some (from, t)) s
                 end
            else s).
  { unfold press. rewrite execM_bind.
    change (evalM (gets _) s) with t. change (execM (gets _) s) with s.
    destruct (Js.truthy t); [| now rewrite andb_false_r].
    unfold _onMouseDown. rewrite execM_bind.
    change (evalM (gets gameOver) s) with (gameOver s).
    change (execM (gets gameOver) s) with s.
    destruct (gameOver s); [reflexivity |]. cbn [negb andb].
    rewrite execM_bind.
    change (evalM (gets turn) s) with (turn s).
    change (execM (gets turn) s) with s.
    destruct (colorEqb (colorOf t) (turn s)); [| reflexivity]. cbn [negb].
    rewrite execM_bind.
    replace (execM (getLegal (mkSq (rank from) (file from)) t false) s) with s
      by (symmetry; apply (pure_getLegal _ t false s)).
    replace (mkSq (rank from) (file from)) with from by (destruct from; reflexivity).
    destruct (evalM (getLegal from t false) s); reflexivity. }
  rewrite Hpress.
  destruct (gameOver s); cbn [negb andb]; [apply onMouseUp_idle, Hidle |].
  destruct (Js.truthy t); cbn [andb]; [| apply onMouseUp_idle, Hidle].
  destruct (colorEqb (colorOf t) (turn s)); cbn [andb];
    [| apply onMouseUp_idle, Hidle].
  destruct (evalM (getLegal from t false) s) as [| m0 rest] eqn:Hl;
    [apply onMouseUp_idle, Hidle |].
  unfold _onMouseUp. rewrite execM_bind.
  change (evalM (gets currentDrag) (set_currentDrag (Some (from, t)) s))
    with (Some (from, t)).
  change (execM (gets currentDrag) (set_currentDrag (Some (from, t)) s))
    with (set_currentDrag (Some (from, t)) s).
  cbv iota beta. rewrite execM_bind.
  replace (execM (getLegal from t false) (set_currentDrag (Some (from, t)) s))
    with (set_currentDrag (Some (from, t)) s)
    by (symmetry; apply (pure_getLegal from t false)).
  rewrite (sameRules_eval (resp_getLegal from t false) (sameRules_drag _ s)).
  rewrite Hl, existsb_sqEqb. rewrite execM_seq.
  destruct (existsb (sqEqb to) (m0 :: rest)); cbn [whenM].
  - rewrite movePiece_drag.
    change (execM (modify (set_currentDrag None)) ?x) with (set_currentDrag None x).
    rewrite set_currentDrag_twice, <- Hidle,
      <- (movePiece_currentDrag from to s).
    apply set_currentDrag_same.
  - change (execM (ret tt) ?x) with x.
    change (execM (modify (set_currentDrag None)) ?x) with (set_currentDrag None x).
    rewrite set_currentDrag_twice, <- Hidle. apply set_currentDrag_same.
Qed.

(** X17: a drag is a guarded [movePiece].  With no drag pending, pressing
    on [from] and releasing over [to] has the effect of
    [movePiece(from, to)] when the game is not over, [from] holds a piece
    of the side to move and [to] is among its [getLegal] moves; in every
    other case the two handlers leave the object exactly as it was. *)
Theorem dragDrop_spec : forall s from to,
    currentDrag s = None ->
    execM (dragDrop from to) s =
    if negb (gameOver s) && legalFor s from to
    then execM (movePiece from to) s
    else s.
Proof. exact dragDrop_run. Qed.

(** From the initial position the drag e2-e4 plays the move, the drag
    e2-e5 does nothing. *)
Lemma dragDrop_spec_witness :
  execM (dragDrop (mkSq 6 4) (mkSq 4 4)) constructor =
  execM (movePiece (mkSq 6 4) (mkSq 4 4)) constructor /\
  execM (dragDrop (mkSq 6 4) (mkSq 3 4)) constructor = constructor.
Proof.
  split.
  - rewrite (@dragDrop_spec constructor (mkSq 6 4) (mkSq 4 4) eq_refl).
    reflexivity.
  - rewrite (@dragDrop_spec constructor (mkSq 6 4) (mkSq 3 4) eq_refl).
    reflexivity.
Defined.

Lemma handleAll_drags_cons : forall from to ms s,
    handleAll (drags ((from, to) :: ms)) s =
    handleAll (drags ms) (execM (dragDrop from to) s).
Proof.
  intros. unfold drags. cbn [flat_map fst snd app handleAll].
  rewrite handle_press. unfold dragDrop. rewrite execM_seq. reflexivity.
Qed.

(** In a position reached by legal moves no drag is pending, and the game
    is marked as over exactly when the side to move has no legal move. *)
Lemma reachable_inv : forall s,
    reachable s ->
    currentDrag s = None /\
    (gameOver s = true <-> forall a b, legalFor s a b = false).
Proof.
  intros s H. induction H as [| s from to Hreach [IHd IHg] Hlegal].
  - split; [reflexivity |]. split; [discriminate |].
    intros Hno. specialize (Hno (mkSq 6 4) (mkSq 4 4)).
    vm_compute in Hno. discriminate.
  - split; [rewrite movePiece_currentDrag; exact IHd |].
    apply movePiece_gameOver; [apply reachable_wfGrid, Hreach |].
    destruct (gameOver s) eqn:Hover; [| reflexivity].
    rewrite (proj1 IHg eq_refl) in Hlegal. discriminate.
Qed.

(** X18: the handlers cannot leave the legal game.  Starting from a fresh
    object, after any sequence of drags, each a press on some square
    followed by a release over some square, the object is in a state
    reached from the initial position by legal moves of the side to
    move. *)
Theorem dragging_stays_reachable : forall ms,
    reachable (handleAll (drags ms) constructor).
Proof.
  intros ms. generalize reach_init. generalize constructor as s.
  induction ms as [| [from to] rest IH]; intros s Hs; [exact Hs |].
  rewrite handleAll_drags_cons. apply IH.
  rewrite dragDrop_run by apply (reachable_inv Hs).
  destruct (gameOver s); cbn [negb andb]; [exact Hs |].
  destruct (legalFor s from to) eqn:Hlegal; [| exact Hs].
  apply reach_move; assumption.
Qed.

(** X19: every legal game can be played by dragging.  If [play] accepts a
    list of moves from the initial position, each move legal for the side
    to move, then the corresponding drags take a fresh object to the very
    same state. *)
Theorem legal_game_by_dragging : forall ms s',
    play ms constructor = Some s' ->
    handleAll (drags ms) constructor = s'.
Proof.
  intros ms s'. generalize reach_init. generalize constructor as s.
  induction ms as [| [from to] rest IH]; intros s Hs Hplay.
  - injection Hplay as <-. reflexivity.
  - cbn [play] in Hplay.
    destruct (legalFor s from to) eqn:Hlegal; [| discriminate].
    destruct (reachable_inv Hs) as [Hidle Hover].
    rewrite handleAll_drags_cons, dragDrop_run by exact Hidle.
    assert (Hon : gameOver s = false).
    { destruct (gameOver s); [| reflexivity].
      rewrite (proj1 Hover eq_refl) in Hlegal. discriminate. }
    rewrite Hon, Hlegal. cbn [negb andb].
    apply IH; [apply reach_move; assumption | exact Hplay].
Qed.

(** Fool's mate, 1. f3 e5 2. g4 Qh4, dragged move by move. *)
Lemma legal_game_by_dragging_witness :
  play (foolsGame ++ [mv 0 3 4 7]) constructor = Some foolsMate /\
  handleAll (drags (foolsGame ++ [mv 0 3 4 7])) constructor = foolsMate.
Proof.
  assert (Hplay : play (foolsGame ++ [mv 0 3 4 7]) constructor = Some foolsMate)
    by (vm_compute; reflexivity).
  split; [exact Hplay |].
  exact (@legal_game_by_dragging _ _ Hplay).
Defined.

(** X20: in every position reached by legal moves the game is marked as
    over if and only if the side to move has no legal move. *)
Theorem reachable_gameOver_iff : forall s,
    reachable s ->
    (gameOver s = true <-> forall a b, legalFor s a b = false).
Proof. intros s H. apply (reachable_inv H). Qed.

(** After 1. e4 e5 2. Qh5 the game is not over, and black has, for one,
    2... g6. *)
Lemma reachable_gameOver_iff_witness :
  gameOver pinnedPawn = false /\
  ~ (forall a b, legalFor pinnedPawn a b = false).
Proof.
  assert (Hreach : reachable pinnedPawn)
    by (apply (@play_reachable pinnedGame constructor _ reach_init);
        vm_compute; reflexivity).
  split; [reflexivity |].
  intros Hno.
  pose proof (proj2 (@reachable_gameOver_iff pinnedPawn Hreach) Hno) as H.
  discriminate H.
Defined.

(** ** [findKing] and [isAttacked] *)

Lemma allSquares_inB : forall sq,
    In sq allSquares -> inB (rank sq) (file sq) = true.
Proof.
  intros sq Hin. unfold allSquares in Hin. apply in_flat_map in Hin.
  destruct Hin as (r & Hr & Hin). apply in_map_iff in Hin.
  destruct Hin as (f & <- & Hf). cbn [rank file]. apply inB_bounds.
  unfold range8 in Hr, Hf. cbn [In] in Hr, Hf. lia.
Qed.

(** X21: [findKing] returns a square of the board that holds the king of
    the colour asked for whenever there is one on the 8x8 grid, and falls
    back to the corner [{ r: 0, f: 0 }], whatever stands there, when
    there is none. *)
Theorem findKing_spec : forall c s,
    wfGrid (positions s) ->
    let k := evalM (findKing c) s in
    ((exists sq, cell (positions s) (rank sq) (file sq) = kingLetter c) ->
     inB (rank k) (file k) = true /\
     cell (positions s) (rank k) (file k) = kingLetter c) /\
    ((forall sq, cell (positions s) (rank sq) (file sq) <> kingLetter c) ->
     k = mkSq 0 0).
Proof.
  intros c s Hwf k.
  assert (Hletter : kingLetter c <> "") by (destruct c; discriminate).
  split.
  - intros (sq & Hsq).
    assert (Hb : inB (rank sq) (file sq) = true)
      by (apply (@cell_inB _ _ _ Hwf); rewrite Hsq; exact Hletter).
    pose proof (findKing_finds c s sq Hb Hsq) as Hk.
    unfold kingOnBoard in Hk. cbv zeta in Hk. fold k in Hk.
    split; [| exact Hk].
    apply (@cell_inB _ _ _ Hwf). rewrite Hk. exact Hletter.
  - intros Hnone. unfold k. rewrite findKing_eval.
    destruct (find _ allSquares) as [sq |] eqn:Hfind; [| reflexivity].
    apply find_some in Hfind. destruct Hfind as [_ Hk].
    apply andb_prop in Hk. destruct Hk as [_ Hk]. apply String.eqb_eq in Hk.
    destruct (Hnone sq Hk).
Qed.

(** After fool's mate the white king is found on e1; on the grid without
    a black king the answer for black is the corner a8, which holds a
    rook. *)
Lemma findKing_spec_witness :
  evalM (findKing white) foolsMate = mkSq 7 4 /\
  cell (positions foolsMate) 7 4 = "K" /\
  evalM (findKing black) kingless = mkSq 0 0 /\
  cell (positions kingless) 0 0 <> "k".
Proof.
  assert (Hwf1 : wfGrid (positions foolsMate))
    by (split; [reflexivity | repeat constructor]).
  assert (Hwf2 : wfGrid (positions kingless))
    by (split; [reflexivity | repeat constructor]).
  destruct (@findKing_spec white foolsMate Hwf1) as [Hsome _].
  destruct (@findKing_spec black kingless Hwf2) as [_ Hnone].
  split; [reflexivity |].
  split; [apply Hsome; exists (mkSq 7 4); reflexivity |].
  split; [| vm_compute; discriminate].
  apply Hnone. intros sq Hsq.
  assert (Hb : inB (rank sq) (file sq) = true)
    by (apply (@cell_inB _ _ _ Hwf2); rewrite Hsq; discriminate).
  apply In_allSquares in Hb.
  assert (HF : Forall (fun x => cell (positions kingless) (rank x) (file x) <> "k")
                      allSquares).
  { unfold allSquares, range8. cbn [flat_map map app].
    repeat (constructor; [vm_compute; discriminate |]). constructor. }
  rewrite Forall_forall in HF. exact (HF sq Hb Hsq).
Defined.

(** X22: [isAttacked(r, f, attackerColor)] answers true exactly when some
    square of the board holds a piece of the attacking colour whose
    attack-pattern moves, [getLegal] with [ignoreCheck] set, include
    [(r, f)]. *)
Theorem isAttacked_iff : forall s r f a,
    evalM (isAttacked r f a) s = true <->
    exists sq,
      inB (rank sq) (file sq) = true /\
      let p := cell (positions s) (rank sq) (file sq) in
      p <> "" /\ colorOf p = a /\
      In (mkSq r f) (evalM (getLegal sq p true) s).
Proof.
  intros s r f a. unfold isAttacked, isAttackedWith.
  rewrite evalM_someM by (intros sq; apply @pure_hits; intros; apply pure_getLegal).
  rewrite existsb_exists. split.
  - intros (sq & Hin & Hhit). exists sq. split; [apply allSquares_inB, Hin |].
    rewrite hits_eval in Hhit. cbv zeta in Hhit. cbv zeta.
    apply andb_prop in Hhit. destruct Hhit as [Hmine Hex].
    apply andb_prop in Hmine. destruct Hmine as [Htruthy Hcol].
    split; [intros E; rewrite E in Htruthy; discriminate |].
    split; [destruct (colorOf _), a; try discriminate; reflexivity |].
    rewrite getLegal_attack_eq.
    apply existsb_exists in Hex. destruct Hex as ([mr mf] & Hm & Hat).
    cbn [rank file] in Hat. apply andb_prop in Hat. destruct Hat as [H1 H2].
    apply Z.eqb_eq in H1, H2. subst. exact Hm.
  - intros (sq & Hb & Hp & Hcol & Hin). cbv zeta in Hp, Hcol, Hin.
    exists sq. split; [apply In_allSquares, Hb |].
    rewrite hits_eval. cbv zeta.
    apply andb_true_intro. split; [apply andb_true_intro; split |].
    + unfold Js.truthy. apply negb_true_iff. now apply String.eqb_neq.
    + rewrite Hcol. destruct a; reflexivity.
    + rewrite <- getLegal_attack_eq. apply existsb_exists.
      exists (mkSq r f). split; [exact Hin |].
      cbn [rank file]. now rewrite !Z.eqb_refl.
Qed.

(** On the initial position f3 is attacked by white, by the knight on g1
    for one. *)
Lemma isAttacked_iff_witness :
  evalM (isAttacked 5 5 white) constructor = true.
Proof.
  apply (proj2 (isAttacked_iff constructor 5 5 white)).
  exists (mkSq 7 6). split; [reflexivity |].
  cbv zeta. split; [vm_compute; discriminate |].
  split; [reflexivity |]. vm_compute. auto.
Defined.

(** ** The origin square *)

Lemma knightMoves_offset : forall b r f type to,
    In to (knightMoves b r f type) -> rank to <> r.
Proof.
  intros b r f type to Hin. unfold knightMoves in Hin.
  apply in_flat_map in Hin. destruct Hin as (d & Hd & Hin).
  cbv zeta in Hin.
  destruct (inB _ _ && _); [| contradiction].
  destruct Hin as [<- | []]. cbn [rank].
  unfold knightOffsets in Hd. cbn [In] in Hd.
  repeat (destruct Hd as [<- | Hd]; [cbn [fst]; lia |]). destruct Hd.
Qed.

Lemma slideMoves_offset : forall b r f type lower to,
    In to (slideMoves b r f type lower) -> rank to <> r \/ file to <> f.
Proof.
  intros b r f type lower to Hin. unfold slideMoves in Hin.
  apply in_flat_map in Hin. destruct Hin as (d & Hd & Hin).
  apply ray_In_iff in Hin. destruct Hin as (k & _ & -> & _).
  cbn [rank file]. apply slideDirs_unit in Hd.
  destruct Hd as (H1 & H2 & [H3 | H3]); [left | right]; nia.
Qed.

(** X23: [getLegal] never lists the square the piece stands on, for any
    letter, any grid and either value of [ignoreCheck]. *)
Theorem getLegal_never_lists_origin : forall s from type ic,
    ~ In from (evalM (getLegal from type ic) s).
Proof.
  intros s from type ic Hin.
  apply getLegal_candidate in Hin. rewrite candidates_eval in Hin.
  cbv zeta in Hin.
  destruct (Js.toLowerCase type === "p").
  { apply pawnMoves_rank in Hin. destruct (type === "P"); lia. }
  destruct (Js.toLowerCase type === "n").
  { apply knightMoves_offset in Hin. congruence. }
  destruct (Js.toLowerCase type === "k").
  - apply in_app_or in Hin. destruct Hin as [Hin | Hin].
    + apply kingSteps_iff in Hin. destruct Hin as (_ & _ & _ & _ & [H | H]);
        congruence.
    + destruct ic; [contradiction |].
      apply castlingMoves_ok in Hin. lia.
  - apply slideMoves_offset in Hin. destruct Hin; congruence.
Qed.

(** The knight on g1 may not stay on g1. *)
Lemma getLegal_never_lists_origin_witness :
  ~ In (mkSq 7 6) (evalM (getLegal (mkSq 7 6) "N" false) constructor).
Proof. exact (@getLegal_never_lists_origin constructor (mkSq 7 6) "N" false). Defined.

(** X24: [movePiece] does not compare its two squares.  Called with the
    destination equal to the origin, a square of an 8x8 grid, it empties
    that square (a pawn standing on its last rank is replaced by a queen
    instead) and leaves every other square as it was; the turn passes to
    the other side. *)
Theorem movePiece_onto_itself : forall s sq r f,
    let t := cell (positions s) (rank sq) (file sq) in
    let s' := execM (movePiece sq sq) s in
    wfGrid (positions s) ->
    inB (rank sq) (file sq) = true ->
    cell (positions s') r f =
    (if (r =? rank sq) && (f =? file sq)
     then (if (t === "P") && (rank sq =? 0) then "Q"
           else if (t === "p") && (rank sq =? 7) then "q" else "")
     else cell (positions s) r f) /\
    turn s' = opposite (turn s).
Proof.
  intros s sq r f t s' Hwf Hb. unfold s'. split.
  - rewrite movePiece_positions, positions_applyMechanics. fold t.
    rewrite positions_promote, positions_castleRook.
    rewrite Z.sub_diag. change (Z.abs 0 =? 2) with false.
    rewrite andb_false_r. cbv zeta.
    rewrite positions_relocate, positions_enPassantStep.
    set (g1 := if (Js.toLowerCase t === "p") &&
                  isTarget (enPassantTarget s) (rank sq) (file sq)
               then setCell (rank sq) (file sq) "" (positions s)
               else positions s).
    assert (Hwf1 : wfGrid g1)
      by (unfold g1; destruct (_ && _); [apply wfGrid_setCell |]; exact Hwf).
    assert (H1 : cell g1 r f = if (r =? rank sq) && (f =? file sq)
                               then cell g1 r f else cell (positions s) r f).
    { unfold g1. destruct (_ && _); [| now destruct (_ && _)].
      rewrite cell_setCell by assumption. now destruct (_ && _). }
    assert (Hwf2 : wfGrid (setCell (rank sq) (file sq) t g1))
      by (apply wfGrid_setCell; exact Hwf1).
    assert (Hwf3 : wfGrid (setCell (rank sq) (file sq) ""
                             (setCell (rank sq) (file sq) t g1)))
      by (apply wfGrid_setCell; exact Hwf2).
    destruct ((t === "P") && (rank sq =? 0));
      [| destruct ((t === "p") && (rank sq =? 7))];
      rewrite !cell_setCell by assumption;
      destruct ((r =? rank sq) && (f =? file sq)) eqn:Hat; try reflexivity;
      rewrite H1; reflexivity.
  - rewrite movePiece_run.
    destruct (recomputeStatus_sameRules (execM (applyMechanics sq sq) s))
      as (_ & _ & _ & _ & <-).
    apply applyMechanics_turn.
Qed.

(** On the initial position [movePiece] from e1 to e1 removes the white
    king and gives black the move. *)
Lemma movePiece_onto_itself_witness :
  let s' := execM (movePiece (mkSq 7 4) (mkSq 7 4)) constructor in
  cell (positions constructor) 7 4 = "K" /\
  cell (positions s') 7 4 = "" /\
  turn s' = black.
Proof.
  intros s'.
  destruct (@movePiece_onto_itself constructor (mkSq 7 4) 7 4
              wfGrid_constructor eq_refl) as [Hcell Hturn].
  split; [reflexivity |]. split; [exact Hcell | exact Hturn].
Defined.

(** ** What a press shows *)

Lemma press_eval : forall s from,
    let t := cell (positions s) (rank from) (file from) in
    evalM (press from) s =
    if negb (gameOver s) && Js.truthy t && colorEqb (colorOf t) (turn s)
    then evalM (getLegal from t false) s
    else [].
Proof.
  intros s from t. unfold press.
  rewrite evalM_bind by pure_tac.
  change (evalM (gets _) s) with t.
  destruct (Js.truthy t); [| now rewrite andb_false_r].
  unfold _onMouseDown.
  rewrite evalM_bind by pure_tac.
  change (evalM (gets gameOver) s) with (gameOver s).
  destruct (gameOver s); [reflexivity |]. cbn [negb andb].
  rewrite evalM_bind by pure_tac.
  change (evalM (gets turn) s) with (turn s).
  destruct (colorEqb (colorOf t) (turn s)); [| reflexivity]. cbn [negb].
  rewrite evalM_bind by apply pure_getLegal.
  replace (mkSq (rank from) (file from)) with from by (destruct from; reflexivity).
  destruct (evalM (getLegal from t false) s); reflexivity.
Qed.

(** X25: the squares a press marks are the legal moves.  The list that
    [_onMouseDown] computes for the piece pressed on, from which it draws
    the dots, contains [to] if and only if the game is not over and [to]
    is a move [getLegal] lists for that piece, which belongs to the side
    to move; on an empty square, on a piece of the other side and after
    the end of the game the list is empty. *)
Theorem press_shows_legal_moves : forall s from to,
    In to (evalM (press from) s) <->
    gameOver s = false /\ legalFor s from to = true.
Proof.
  intros s from to. rewrite press_eval. cbv zeta. unfold legalFor. cbv zeta.
  set (t := cell (positions s) (rank from) (file from)).
  destruct (gameOver s); cbn [negb andb].
  { split; [contradiction | intros [H _]; discriminate]. }
  destruct (Js.truthy t && colorEqb (colorOf t) (turn s)); cbn [andb].
  - split.
    + intros Hin. split; [reflexivity |]. apply existsb_exists.
      exists to. split; [exact Hin |]. unfold sqEqb. now rewrite !Z.eqb_refl.
    + intros [_ Hex]. apply existsb_exists in Hex.
      destruct Hex as (to' & Hin & Heq). unfold sqEqb in Heq.
      apply andb_prop in Heq. destruct Heq as [H1 H2].
      apply Z.eqb_eq in H1, H2. destruct to, to'. cbn [rank file] in *.
      subst. exact Hin.
  - split; [contradiction | intros [_ H]; discriminate].
Qed.

(** On the initial position a press on e2 marks e4, a press on e7
    marks nothing. *)
Lemma press_shows_legal_moves_witness :
  In (mkSq 4 4) (evalM (press (mkSq 6 4)) constructor) /\
  ~ In (mkSq 2 4) (evalM (press (mkSq 1 4)) constructor).
Proof.
  split.
  - apply (proj2 (press_shows_legal_moves constructor (mkSq 6 4) (mkSq 4 4))).
    split; reflexivity.
  - intros Hin.
    apply (proj1 (press_shows_legal_moves constructor (mkSq 1 4) (mkSq 2 4))) in Hin.
    destruct Hin as [_ Hlegal]. vm_compute in Hlegal. discriminate.
Defined.
